(** * Book spider: rate-limited, batched fetch-and-extract pipeline

    A shallow embedding of the three Python sources

      - [book-spider/utils.py]        (module [Utils])
      - [book-spider/book_spider.py]  (module [BookSpider])
      - [book spider/book_spider.py]  (module [Variant], the near duplicate)

    over a small model of the asyncio event loop (module [Asyncio]).

    Code that suspends is written in a state-and-error monad over the
    event loop's [world]: the trace of observable events, the Tasks that
    have been scheduled but have not started, the Tasks that are running,
    and the exception held by the outstanding [gather] future.  The
    [while True] loop takes fuel, one unit per iteration. *)

From Stdlib Require Import String Ascii DecimalString DecimalNat List ZArith Lia
  Bool Arith Permutation.
Import ListNotations.

Set Implicit Arguments.

(** ** Exceptions and outcomes *)

Inductive exn : Type :=
| ValueError (msg : string)
| AttributeError
| TypeError
| KeyError
| CancelledError
| TaskError (code : nat).

(** How a Task ends: it returns a value or raises. *)
Inductive result (X : Type) : Type :=
| Done (x : X)
| Failed (e : exn).
Arguments Failed {X} e.

(** How a call of an [async def] ends; [Unfinished] is the [while True]
    loop still running when the fuel is spent. *)
Inductive outcome (X : Type) : Type :=
| Returned (x : X)
| Raised (e : exn)
| Unfinished.
Arguments Raised {X} e.
Arguments Unfinished {X}.

(** ** The event loop

    asyncio is a library; what the sources rely on is modelled here.

    - One coroutine runs at a time.  It gives way to the loop only where
      it suspends: in [asyncio.sleep], and in awaiting a future that is
      not done.
    - [asyncio.gather] wraps each coroutine it is given in a Task and
      schedules it at once; a scheduled Task takes its first step the
      next time the running coroutine suspends, whether or not the gather
      future has been awaited by then.
    - While the caller is suspended, running Tasks complete in an order
      and at a pace that the program does not control: the scheduler
      ([pick], [early]) is a parameter of everything below.
    - A gather future resolves with the results of its children in the
      order of its arguments once all have completed, and raises the
      first exception as soon as a child raises; its other children are
      not cancelled.
    - The sources have at most one gather future outstanding at a time;
      the world keeps the exception of that one. *)

Module Asyncio.
Section Loop.

(** [A] is what a concurrently run Task returns (a book record in the
    pipeline). *)
Variable A : Type.

(** A coroutine object handed to [asyncio.gather].  The orchestrator sees
    its identity, when it starts, when it completes and how. *)
Record coroutine : Type := mkCoro {
  coro_id : nat;
  coro_result : result A
}.

Inductive event : Type :=
| EvNext (id : nat)            (* next(task_iter) handed out this task *)
| EvSample (lo hi : Z)         (* random.uniform(lo, hi) *)
| EvSleepBegin                 (* asyncio.sleep suspends the caller *)
| EvSleepEnd                   (* ... and resumes it *)
| EvStart (id : nat)           (* the loop runs the first step of a Task *)
| EvFinish (id : nat)          (* a Task has completed *)
| EvGet (url : string)         (* client.get(url) awaited *)
| EvToCsv (rows : list A).     (* DataFrame(...).to_csv("books.csv") *)

Record world : Type := mkWorld {
  trace : list event;
  ready : list coroutine;      (* scheduled by gather, not started *)
  running : list coroutine;    (* started, not completed *)
  gather_exn : option exn      (* first exception of a gathered Task *)
}.

Definition initial : world := mkWorld [] [] [] None.

Definition M (X : Type) : Type := world -> outcome X * world.

Definition ret {X} (x : X) : M X := fun w => (Returned x, w).

Definition bind {X Y} (m : M X) (k : X -> M Y) : M Y :=
  fun w =>
    match m w with
    | (Returned x, w') => k x w'
    | (Raised e, w') => (Raised e, w')
    | (Unfinished, w') => (Unfinished, w')
    end.

Definition raise {X} (e : exn) : M X := fun w => (Raised e, w).

Definition unfinished {X} : M X := fun w => (Unfinished, w).

Definition log (evs : list event) (w : world) : world :=
  mkWorld (trace w ++ evs) (ready w) (running w) (gather_exn w).

Definition emit (ev : event) : M unit := fun w => (Returned tt, log [ev] w).

Notation "x <- m ;; k" := (bind m (fun x => k))
  (at level 61, m at next level, right associativity).
Notation "m ;;; k" := (bind m (fun _ => k))
  (at level 61, right associativity).

(** *** Scheduling

    Which running Task completes next, and how many of them complete
    while the caller sleeps, is up to the network: both are parameters. *)
Variable pick : list coroutine -> nat.
Variable early : list coroutine -> nat.

Fixpoint completion_order (n : nat) (l : list coroutine) : list coroutine :=
  match n, l with
  | S n', c :: _ =>
      let i := pick l mod length l in
      nth i l c :: completion_order n' (firstn i l ++ skipn (S i) l)
  | _, _ => []
  end.

Definition order (l : list coroutine) : list coroutine :=
  completion_order (length l) l.

Definition starts (l : list coroutine) : list event :=
  map (fun c => EvStart (coro_id c)) l.

Definition finishes (l : list coroutine) : list event :=
  map (fun c => EvFinish (coro_id c)) l.

(** The caller suspends: the loop runs the first step of every scheduled
    Task. *)
Definition start_ready (w : world) : world :=
  mkWorld (trace w ++ starts (ready w)) [] (running w ++ ready w)
          (gather_exn w).

(** A Task completes; the gather future keeps the first exception. *)
Definition settle (w : world) (c : coroutine) : world :=
  mkWorld (trace w ++ [EvFinish (coro_id c)]) (ready w) (running w)
          (match gather_exn w, coro_result c with
           | None, Failed e => Some e
           | g, _ => g
           end).

(** [random.uniform(lo, hi)]: the sampled float is not modelled, only
    that a sample was drawn and from which window. *)
Inductive delay : Type := Sampled (lo hi : Z).

Definition random_uniform (lo hi : Z) : M delay :=
  fun w => (Returned (Sampled lo hi), log [EvSample lo hi] w).

(** [await asyncio.sleep(d)]: the caller suspends, scheduled Tasks start,
    some of the running ones complete, the caller resumes. *)
Definition asyncio_sleep (d : delay) : M unit :=
  fun w =>
    let w1 := start_ready (log [EvSleepBegin] w) in
    let o := order (running w1) in
    let k := early (running w1) in
    let w2 := fold_left settle (firstn k o) w1 in
    (Returned tt,
     log [EvSleepEnd]
         (mkWorld (trace w2) (ready w2) (skipn k o) (gather_exn w2))).

(** [asyncio.gather] on the batch: every coroutine is wrapped in a Task and
    scheduled on the loop at once (ensure_future); the call itself does
    not suspend.  The future it returns knows its children. *)
Record future : Type := mkFuture { children : list coroutine }.

Definition gather (batch : list coroutine) : M future :=
  fun w =>
    (Returned (mkFuture batch),
     mkWorld (trace w) (ready w ++ batch) (running w) None).

(** Results of a gather future, in the order of its arguments. *)
Fixpoint collect (l : list coroutine) : outcome (list A) :=
  match l with
  | [] => Returned []
  | c :: l' =>
      match coro_result c with
      | Failed e => Raised e
      | Done v =>
          match collect l' with
          | Returned vs => Returned (v :: vs)
          | o => o
          end
      end
  end.

(** Running Tasks complete one after the other, in the scheduler's order,
    until one of them raises: the gather future then raises at once and
    the Tasks behind it stay in flight. *)
Fixpoint complete (l : list coroutine) (w : world) : outcome unit * world :=
  match l with
  | [] => (Returned tt, mkWorld (trace w) (ready w) [] (gather_exn w))
  | c :: l' =>
      let w' := settle w c in
      match coro_result c with
      | Done _ => complete l' w'
      | Failed e =>
          (Raised e, mkWorld (trace w') (ready w') l' (gather_exn w'))
      end
  end.

(** [await fut] on a gather future.  A future that already holds an
    exception raises it, one whose children are all done returns, both
    without suspending; otherwise the caller suspends until the future
    resolves. *)
Definition await (fut : future) : M (list A) :=
  fun w =>
    match gather_exn w with
    | Some e => (Raised e, w)
    | None =>
        match ready w, running w with
        | [], [] => (collect (children fut), w)
        | _, _ =>
            let w1 := start_ready w in
            match complete (order (running w1)) w1 with
            | (Returned _, w2) => (collect (children fut), w2)
            | (Raised e, w2) => (Raised e, w2)
            | (Unfinished, w2) => (Unfinished, w2)
            end
        end
    end.

End Loop.

Arguments EvNext {A} id.
Arguments EvSample {A} lo hi.
Arguments EvSleepBegin {A}.
Arguments EvSleepEnd {A}.
Arguments EvStart {A} id.
Arguments EvFinish {A} id.
Arguments EvGet {A} url.
Arguments ret {A X} x.
Arguments raise {A X} e.
Arguments unfinished {A X}.
Arguments initial {A}.

Notation "x <- m ;; k" := (bind m (fun x => k))
  (at level 61, m at next level, right associativity).
Notation "m ;;; k" := (bind m (fun _ => k))
  (at level 61, right associativity).

End Asyncio.

(** ** book-spider/utils.py *)

Module Utils.
Import Asyncio.
Section Utils.

Variable A : Type.
Variable pick : list (coroutine A) -> nat.
Variable early : list (coroutine A) -> nat.

(** The network: what [client.get(url)] answers. *)
Variable http_get : string -> result string.

Definition client_get (url : string) : M A string :=
  emit (EvGet url) ;;;
  match http_get url with
  | Done response => ret response
  | Failed e => raise e
  end.

(** [async def sleep_and_execute(task, seconds)]; [task] is what
    [await task] does. *)
Definition sleep_and_execute {X} (task : M A X) (seconds : Z) : M A X :=
  if (seconds <=? 1)%Z then
    raise (ValueError "seconds must be greater than 1."%string)
  else
    d <- random_uniform 1 seconds ;;
    asyncio_sleep pick early d ;;;
    task.

(** [async def make_request(client, url, delay=False, seconds=None)];
    [not seconds] holds of [None] and of [0]. *)
Definition make_request (url : string) (delay : bool) (seconds : option Z)
  : M A string :=
  let falsy := match seconds with None => true | Some s => (s =? 0)%Z end in
  if delay && falsy then
    raise (ValueError
      "If delay is set to True, must provide a valid seconds argument."%string)
  else
    let request := client_get url in
    if delay then
      match seconds with
      | Some s => sleep_and_execute request s
      | None => raise TypeError
      end
    else request.

(** [for task in tasks: ...] of [execute_with_interval]; a task is a
    coroutine object that runs when it is awaited. *)
Fixpoint for_each_task {X} (tasks : list (M A X)) (seconds : Z)
    (results : list X) : M A (list X) :=
  match tasks with
  | [] => ret results
  | task :: tasks' =>
      result <- sleep_and_execute task seconds ;;
      for_each_task tasks' seconds (results ++ [result])
  end.

Definition execute_with_interval {X} (tasks : list (M A X)) (seconds : Z)
  : M A (list X) :=
  for_each_task tasks seconds [].

(** [for _ in range(batch_size): batch.append(next(task_iter))]; the
    boolean tells whether [next] raised StopIteration. *)
Fixpoint fill_batch (n : nat) (task_iter batch : list (coroutine A))
  : M A (bool * list (coroutine A) * list (coroutine A)) :=
  match n with
  | O => ret (false, batch, task_iter)
  | S n' =>
      match task_iter with
      | [] => ret (true, batch, [])
      | c :: task_iter' =>
          emit (EvNext (coro_id c)) ;;;
          fill_batch n' task_iter' (batch ++ [c])
      end
  end.

(** The batch primitive of lines 101-102 and 105-106: the gather future
    is created first and handed to [sleep_and_execute]. *)
Definition gather_sleep_and_execute (batch : list (coroutine A))
    (seconds : Z) : M A (list A) :=
  task <- gather batch ;;
  sleep_and_execute (await pick task) seconds.

(** [while True: try: ... except StopIteration: ...; break]. *)
Fixpoint while_true (fuel : nat) (task_iter : list (coroutine A))
    (seconds batch_size : Z) (results : list A) : M A (list A) :=
  match fuel with
  | O => unfinished
  | S fuel' =>
      r <- fill_batch (Z.to_nat batch_size) task_iter [] ;;
      let '(stop, batch, task_iter') := r in
      if stop then
        match batch with
        | [] => ret results
        | _ :: _ =>
            rs <- gather_sleep_and_execute batch seconds ;;
            ret (results ++ rs)
        end
      else
        rs <- gather_sleep_and_execute batch seconds ;;
        while_true fuel' task_iter' seconds batch_size (results ++ rs)
  end.

Definition execute_batch_with_interval (fuel : nat)
    (tasks : list (coroutine A)) (seconds batch_size : Z) : M A (list A) :=
  while_true fuel tasks seconds batch_size [].

End Utils.
End Utils.

(** ** book spider/book_spider.py, the near duplicate *)

Module Variant.
Import Asyncio.
Section Variant.

Variable A : Type.
Variable pick : list (coroutine A) -> nat.
Variable early : list (coroutine A) -> nat.
Variable http_get : string -> result string.

Definition SLEEP_TIME : Z := 2%Z.
Definition BATCH_SIZE : Z := 10%Z.

(** [async def make_request(client, url, delay=False, seconds=SLEEP_TIME)] *)
Definition make_request (url : string) (delay : bool) (seconds : Z)
  : M A string :=
  (if delay then
     d <- random_uniform 1 seconds ;; asyncio_sleep pick early d
   else ret tt) ;;;
  Utils.client_get http_get url.

Fixpoint for_each_task {X} (tasks : list (M A X)) (seconds : Z)
    (results : list X) : M A (list X) :=
  match tasks with
  | [] => ret results
  | task :: tasks' =>
      d <- random_uniform 1 seconds ;;
      asyncio_sleep pick early d ;;;
      result <- task ;;
      for_each_task tasks' seconds (results ++ [result])
  end.

Definition execute_with_interval {X} (tasks : list (M A X)) (seconds : Z)
  : M A (list X) :=
  for_each_task tasks seconds [].

(** The batch primitive of lines 166-167 and 170-171: sleep, and only
    then gather. *)
Definition sleep_then_gather (batch : list (coroutine A)) (seconds : Z)
  : M A (list A) :=
  d <- random_uniform 1 seconds ;;
  asyncio_sleep pick early d ;;;
  fut <- gather batch ;;
  await pick fut.

Fixpoint while_true (fuel : nat) (task_iter : list (coroutine A))
    (batch_size seconds : Z) (results : list A) : M A (list A) :=
  match fuel with
  | O => unfinished
  | S fuel' =>
      r <- Utils.fill_batch (Z.to_nat batch_size) task_iter [] ;;
      let '(stop, batch, task_iter') := r in
      if stop then
        match batch with
        | [] => ret results
        | _ :: _ =>
            rs <- sleep_then_gather batch seconds ;;
            ret (results ++ rs)
        end
      else
        rs <- sleep_then_gather batch seconds ;;
        while_true fuel' task_iter' batch_size seconds (results ++ rs)
  end.

Definition execute_batch_with_interval (fuel : nat)
    (tasks : list (coroutine A)) (batch_size seconds : Z) : M A (list A) :=
  while_true fuel tasks batch_size seconds [].

End Variant.
End Variant.

(** ** book-spider/book_spider.py *)

Module BookSpider.
Import Asyncio.

Local Open Scope string_scope.

Definition URL : string := "http://books.toscrape.com/catalogue/page-{}.html".
Definition SLEEP_TIME : Z := 2%Z.
Definition BATCH_SIZE : Z := 10%Z.

(** [URL.format(i)] *)
Definition URL_format (i : nat) : string :=
  "http://books.toscrape.com/catalogue/page-"
    ++ NilZero.string_of_uint (Nat.to_uint i) ++ ".html".

(** The dict built by [scrape_book_details], in insertion order. *)
Definition book : Type := list (string * string).

(** *** The regular expressions

    Python strings are sequences of code points; here a character is a
    code point below 256, of which [\d] matches exactly 0-9. *)
Definition is_digit (c : ascii) : bool :=
  (48 <=? nat_of_ascii c)%nat && (nat_of_ascii c <=? 57)%nat.

(** The longest prefix of digits, and what follows it. *)
Fixpoint span_digits (s : string) : string * string :=
  match s with
  | String c s' =>
      if is_digit c then
        let (ds, rest) := span_digits s' in (String c ds, rest)
      else (EmptyString, s)
  | EmptyString => (EmptyString, EmptyString)
  end.

(** [re.search(r"\d+", s)]: the leftmost, longest run of digits. *)
Fixpoint search_digits (s : string) : option string :=
  match s with
  | EmptyString => None
  | String c s' =>
      if is_digit c then Some (fst (span_digits s)) else search_digits s'
  end.

(** A match of [\d+\.\d{2}] at the start of [s].  The greedy [\d+] takes
    every digit; giving one back leaves a digit, not a dot, in front of
    [\.], so backtracking finds nothing more. *)
Definition match_price (s : string) : option string :=
  match span_digits s with
  | (String d ds, String "." (String a (String b _))) =>
      if is_digit a && is_digit b then
        Some (String d ds ++ String "." (String a (String b EmptyString)))
      else None
  | _ => None
  end.

(** [re.search(r"\d+\.\d{2}", s)]: the leftmost match. *)
Fixpoint search_price (s : string) : option string :=
  match s with
  | EmptyString => None
  | String _ s' =>
      match match_price s with
      | Some m => Some m
      | None => search_price s'
      end
  end.

(** *** BeautifulSoup

    The parser is a library.  What it answers to the queries the source
    makes is a parameter: a [tag] is an element it found, with its
    [.string] (None when the element has not exactly one text child), its
    [.text], and the [href] of the first [a] below it ([None] when there
    is no [a], [Some None] when the [a] has no href). *)
Record tag : Type := mkTag {
  tag_string : option string;
  tag_text : string;
  tag_a_href : option (option string)
}.

Definition bind_result {X Y} (r : result X) (k : X -> result Y) : result Y :=
  match r with
  | Done x => k x
  | Failed e => Failed e
  end.

Notation "x <~ r ;; k" := (bind_result r (fun x => k))
  (at level 61, r at next level, right associativity).

(** [str(x)] of a [.string]. *)
Definition str (s : option string) : string :=
  match s with
  | Some s => s
  | None => "None"
  end.

(** [str(t.string)] where [t] is None when nothing was found. *)
Definition str_string (t : option tag) : result string :=
  match t with
  | Some t => Done (str (tag_string t))
  | None => Failed AttributeError
  end.

(** [m.group()] where [m] is None when the pattern was not found. *)
Definition group (m : option string) : result string :=
  match m with
  | Some s => Done s
  | None => Failed AttributeError
  end.

Section BookSpider.

Variable pick : list (coroutine book) -> nat.
Variable early : list (coroutine book) -> nat.
Variable http_get : string -> result string.

Variable select_one : string -> string -> option tag.
Variable find : string -> string -> option tag.
Variable find_class : string -> string -> option tag.
Variable find_all_class : string -> string -> list tag.
Variable urljoin : string -> string -> result string.

Definition scrape_book_details (html : string) : result book :=
  genre <~ str_string (select_one html ".breadcrumb > li:nth-child(3) a") ;;
  title <~ str_string (find html "h1") ;;
  price <~ str_string (find_class html "price_color") ;;
  price_found <~ group (search_price price) ;;
  stock <~ match find_class html "instock" with
           | Some t => Done (tag_text t)
           | None => Failed AttributeError
           end ;;
  stock_found <~ group (search_digits stock) ;;
  upc <~ str_string (select_one html "table  tr:nth-child(1) > td") ;;
  Done [("genre", genre); ("title", title); ("price", price_found);
        ("stock", stock_found); ("upc", upc)].

Definition lift {X} (r : result X) : M book X :=
  match r with
  | Done x => ret x
  | Failed e => raise e
  end.

Definition get_book_data (url : string) : M book book :=
  response <- Utils.make_request pick early http_get url true
                (Some SLEEP_TIME) ;;
  lift (scrape_book_details response).

(** [for book in books: ...] of [scrape_book_links].  [urljoin] is
    [urllib.parse.urljoin], a library function that raises (ValueError)
    on a link it cannot split, an unbalanced bracket in the host for
    one: what it answers is a result, and its exception leaves the
    loop. *)
Fixpoint for_each_book (books : list tag) (links : list string)
  : result (list string) :=
  match books with
  | [] => Done links
  | b :: books' =>
      match tag_a_href b with
      | None => Failed TypeError
      | Some None => Failed KeyError
      | Some (Some link) =>
          match urljoin URL link with
          | Done joined => for_each_book books' (links ++ [joined])
          | Failed e => Failed e
          end
      end
  end.

Definition scrape_book_links (html : string) : result (list string) :=
  for_each_book (find_all_class html "product_pod") [].

(** How a coroutine wrapped in a Task ends.  It runs on its own: the
    orchestrator sees it start and complete, not its steps.  One that
    never completes is cancelled when the loop shuts down;
    [get_book_data] has no loop, so always completes. *)
Definition task_result {X} (body : M book X) : result X :=
  match fst (body initial) with
  | Returned x => Done x
  | Raised e => Failed e
  | Unfinished => Failed CancelledError
  end.

(** [(get_book_data(client, link) for link in links)]; a task is
    identified by its position. *)
Definition detail_tasks (links : list string) : list (coroutine book) :=
  map (fun p => mkCoro (fst p) (task_result (get_book_data (snd p))))
      (combine (seq 0 (length links)) links).

Definition get_books (fuel : nat) (url : string) : M book (list book) :=
  response <- Utils.make_request pick early http_get url false None ;;
  links <- lift (scrape_book_links response) ;;
  Utils.execute_batch_with_interval pick early fuel (detail_tasks links)
    SLEEP_TIME BATCH_SIZE.

(** [pd.DataFrame(rows).to_csv("books.csv")] *)
Definition to_csv (rows : list book) : M book unit := emit (EvToCsv rows).

Definition main (fuel : nat) : M book unit :=
  results <- Utils.execute_with_interval pick early
               (map (fun i => get_books fuel (URL_format i)) (seq 1 50))
               SLEEP_TIME ;;
  to_csv (concat results).

End BookSpider.
End BookSpider.

(** * Vocabulary of the statements

    What the lemmas and theorems below say is said with the definitions
    of this part: the outcome of a list of Tasks, the spec's partition
    into chunks, the behaviour of one batch and the run over the chunks,
    and the readers and monitors of traces. *)

Module Spec.
Import Asyncio.

(** The spec's partition: consecutive chunks of at most [n] elements,
    the last one possibly smaller, none of them empty. *)
Fixpoint chunks_fuel {X} (fuel n : nat) (l : list X) : list (list X) :=
  match fuel with
  | O => []
  | S fuel' =>
      match l with
      | [] => []
      | _ :: _ => firstn n l :: chunks_fuel fuel' n (skipn n l)
      end
  end.

Definition chunks {X} (n : nat) (l : list X) : list (list X) :=
  chunks_fuel (length l) n l.

Definition invalid_window : exn :=
  ValueError "seconds must be greater than 1."%string.

Section Spec.

Variable A : Type.

Abbreviation coro := (coroutine A).
Abbreviation events := (list (event A)).

(** The Tasks of a list all returned, with these values. *)
Definition returns (l : list coro) (vs : list A) : Prop :=
  map (@coro_result A) l = map (@Done A) vs.

Definition failed (c : coro) : bool :=
  match coro_result c with Done _ => false | Failed _ => true end.

(** The first exception in a completion order. *)
Fixpoint first_failure (l : list coro) : option exn :=
  match l with
  | [] => None
  | c :: l' =>
      match coro_result c with
      | Failed e => Some e
      | Done _ => first_failure l'
      end
  end.

(** The completions seen until the gather future resolves, and the Tasks
    still in flight behind a failure. *)
Fixpoint upto_failure (l : list coro) : list coro :=
  match l with
  | [] => []
  | c :: l' => c :: (if failed c then [] else upto_failure l')
  end.

Fixpoint after_failure (l : list coro) : list coro :=
  match l with
  | [] => []
  | c :: l' => if failed c then l' else after_failure l'
  end.

Definition ids (l : list coro) : list nat := map (@coro_id A) l.

Definition nexts (l : list coro) : list (event A) :=
  map (fun c => EvNext (coro_id c)) l.

(** What one batch does from a quiet world: how the call ends, the
    events it adds, and what it leaves behind on the loop. *)
Record behaviour : Type := mkBehaviour {
  bh_out : outcome (list A);
  bh_trace : list (event A);
  bh_running : list coro;
  bh_exn : option exn
}.

(** Both sources run the same loop around their batch primitive,
    [step]. *)
Fixpoint loop (step : list coro -> M A (list A)) (fuel : nat)
    (task_iter : list coro) (n : nat) (results : list A) : M A (list A) :=
  match fuel with
  | O => unfinished
  | S fuel' =>
      r <- Utils.fill_batch n task_iter [] ;;
      let '(stop, batch, task_iter') := r in
      if stop then
        match batch with
        | [] => ret results
        | _ :: _ => rs <- step batch ;; ret (results ++ rs)
        end
      else
        rs <- step batch ;;
        loop step fuel' task_iter' n (results ++ rs)
  end.

(** The run over the chunks: a batch that raises ends it. *)
Fixpoint run_chunks (beh : list coro -> behaviour) (cs : list (list coro))
    (results : list A) (tr : list (event A))
  : outcome (list A) * world A :=
  match cs with
  | [] => (Returned results, mkWorld tr [] [] None)
  | c :: cs' =>
      let b := beh c in
      let tr' := tr ++ nexts c ++ bh_trace b in
      match bh_out b with
      | Returned rs => run_chunks beh cs' (results ++ rs) tr'
      | Raised e => (Raised e, mkWorld tr' [] (bh_running b) (bh_exn b))
      | Unfinished => (Unfinished, mkWorld tr' [] (bh_running b) (bh_exn b))
      end
  end.

(** The events of one chunk: its tasks are pulled from the iterator,
    then the batch runs. *)
Definition segment (beh : list coro -> behaviour) (c : list coro)
  : list (event A) :=
  nexts c ++ bh_trace (beh c).

(** The chunks that are reached: those up to the first that raises. *)
Fixpoint attempted (beh : list coro -> behaviour) (cs : list (list coro))
  : list (list coro) :=
  match cs with
  | [] => []
  | c :: cs' =>
      c :: match bh_out (beh c) with
           | Returned _ => attempted beh cs'
           | _ => []
           end
  end.

(** [book spider/book_spider.py]: sample, sleep, then gather and wait. *)
Definition variant_batch (pick : list coro -> nat) (seconds : Z)
    (batch : list coro) : behaviour :=
  let o := order pick batch in
  mkBehaviour
    (match first_failure o with
     | None => collect batch
     | Some e => Raised e
     end)
    ([EvSample 1 seconds; EvSleepBegin; EvSleepEnd]
       ++ starts batch ++ finishes (upto_failure o))
    (after_failure o) (first_failure o).

(** [book-spider/utils.py] with [seconds > 1]: the gathered Tasks start
    when the sleep suspends the caller; [early batch] of them complete
    during the sleep, the others while the future is awaited. *)
Definition utils_batch (pick early : list coro -> nat) (seconds : Z)
    (batch : list coro) : behaviour :=
  let o := order pick batch in
  let during := firstn (early batch) o in
  let later := order pick (skipn (early batch) o) in
  let asleep :=
    [EvSample 1 seconds; EvSleepBegin] ++ starts batch
      ++ finishes during ++ [EvSleepEnd] in
  match first_failure during with
  | Some e => mkBehaviour (Raised e) asleep (skipn (early batch) o) (Some e)
  | None =>
      mkBehaviour
        (match first_failure later with
         | None => collect batch
         | Some e => Raised e
         end)
        (asleep ++ finishes (upto_failure later))
        (after_failure later) (first_failure later)
  end.

(** A batch returns exactly when all its Tasks do, and then the values,
    in the order of the batch; otherwise it raises the exception of one
    of its Tasks. *)
Definition sound (beh : list coro -> behaviour) : Prop :=
  forall batch,
    (forall vs, bh_out (beh batch) = Returned vs <-> returns batch vs) /\
    (forall e, bh_out (beh batch) = Raised e ->
               exists c, In c batch /\ coro_result c = Failed e) /\
    bh_out (beh batch) <> Unfinished /\
    (forall vs, bh_out (beh batch) = Returned vs ->
                bh_running (beh batch) = [] /\ bh_exn (beh batch) = None).

Definition next_ids (tr : events) : list nat :=
  flat_map (fun ev => match ev with EvNext i => [i] | _ => [] end) tr.

Definition start_ids (tr : events) : list nat :=
  flat_map (fun ev => match ev with EvStart i => [i] | _ => [] end) tr.

Definition finish_ids (tr : events) : list nat :=
  flat_map (fun ev => match ev with EvFinish i => [i] | _ => [] end) tr.

(** Number of delays sampled. *)
Definition samples (tr : events) : nat :=
  length (filter (fun ev => match ev with EvSample _ _ => true | _ => false end)
                 tr).

(** Number of tasks in flight after a trace, from [k] in flight. *)
Fixpoint flight (k : nat) (tr : events) : nat :=
  match tr with
  | [] => k
  | EvStart _ :: tr' => flight (S k) tr'
  | EvFinish _ :: tr' => flight (pred k) tr'
  | _ :: tr' => flight k tr'
  end.

(** The sequencing monitor: a delay is sampled only when no task is in
    flight, a task starts only while fewer than [bs] are in flight, and
    only a task in flight completes. *)
Fixpoint sequenced (bs k : nat) (tr : events) : bool :=
  match tr with
  | [] => true
  | EvSample _ _ :: tr' => (k =? 0) && sequenced bs k tr'
  | EvStart _ :: tr' => (k <? bs) && sequenced bs (S k) tr'
  | EvFinish _ :: tr' => (0 <? k) && sequenced bs (pred k) tr'
  | _ :: tr' => sequenced bs k tr'
  end.

(** A whole sleep: one that begins and ends within the trace ([begun]
    tells that a sleep is already under way when the trace starts). *)
Fixpoint whole_sleep (begun : bool) (tr : events) : bool :=
  match tr with
  | [] => false
  | EvSleepBegin :: tr' => whole_sleep true tr'
  | EvSleepEnd :: tr' => begun || whole_sleep begun tr'
  | _ :: tr' => whole_sleep begun tr'
  end.

(** A delay separates the tasks of different chunks: whenever a task
    starts after a task has completed, a whole sleep lies in between. *)
Definition delay_separated (tr : events) : Prop :=
  forall t1 i t2 j t3,
    tr = t1 ++ EvFinish i :: t2 ++ EvStart j :: t3 ->
    whole_sleep false t2 = true.

(** Where a trace stands between the last completion and the next
    start: no task has completed since the last sleep that ended, a task
    has completed, or a sleep has begun since a task completed. *)
Inductive gap : Type := Clear | Worked | Resting.

Definition gap_step (g : gap) (ev : event A) : gap :=
  match ev with
  | EvFinish _ => Worked
  | EvSleepBegin => match g with Worked => Resting | _ => g end
  | EvSleepEnd => match g with Resting => Clear | _ => g end
  | _ => g
  end.

Definition gap_after (g : gap) (tr : events) : gap := fold_left gap_step tr g.

(** The delay monitor: a task starts only in the state [Clear]. *)
Fixpoint separated (g : gap) (tr : events) : bool :=
  match tr with
  | [] => true
  | EvStart _ :: tr' =>
      match g with
      | Clear => separated g tr'
      | _ => false
      end
  | ev :: tr' => separated (gap_step g ev) tr'
  end.

(** What the events of one chunk look like when the chunk is served in
    its turn: its tasks are pulled from the iterator, one delay is
    sampled and the sleep begins, and after that, within the segment,
    every task of the chunk starts and completes. *)
Definition batch_segment (seconds : Z) (c : list coro)
    (seg : list (event A)) : Prop :=
  exists body,
    seg = nexts c ++ EvSample 1 seconds :: EvSleepBegin :: body /\
    start_ids body = ids c /\
    Permutation (finish_ids body) (ids c) /\
    samples body = 0 /\
    next_ids body = [].

(** A batch primitive keeps the monitor happy on every chunk of at most
    [n] tasks, and leaves nothing in flight when it returns. *)
Definition well_sequenced (beh : list coro -> behaviour) (n : nat) : Prop :=
  forall c, length c <= n ->
    sequenced n 0 (segment beh c) = true /\
    (forall vs, bh_out (beh c) = Returned vs ->
                flight 0 (segment beh c) = 0).

(** The summary shared by the two sources. *)
Definition summary (run : outcome (list A) * world A) (tasks : list coro)
    (n : nat) (seconds : Z) : Prop :=
  (forall l, fst run = Returned l ->
     returns tasks l /\
     exists segs,
       trace (snd run) = concat segs /\
       Forall2 (batch_segment seconds) (chunks n tasks) segs) /\
  fst run <> Unfinished /\
  sequenced n 0 (trace (snd run)) = true.

Definition not_csv (ev : event A) : Prop :=
  match ev with
  | EvToCsv _ => False
  | _ => True
  end.

(** A computation that only appends events to the trace, none of them a
    write of the table. *)
Definition appends {X} (m : M A X) : Prop :=
  forall w, exists evs,
    trace (snd (m w)) = trace w ++ evs /\ Forall not_csv evs.

End Spec.
End Spec.

(** ** Vocabulary of the pipeline's statements *)

Module PageSpec.
Import Asyncio Spec BookSpider.

Local Open Scope string_scope.

Fixpoint all_digits (s : string) : bool :=
  match s with
  | EmptyString => true
  | String c s' => is_digit c && all_digits s'
  end.

Fixpoint no_digit (s : string) : bool :=
  match s with
  | EmptyString => true
  | String c s' => negb (is_digit c) && no_digit s'
  end.

(** [s] does not begin with a digit. *)
Definition stops (s : string) : bool :=
  match s with
  | EmptyString => true
  | String c _ => negb (is_digit c)
  end.

(** One or more digits, a dot, two digits. *)
Definition price_shaped (m : string) : Prop :=
  exists ds a b,
    m = ds ++ String "." (String a (String b EmptyString)) /\
    ds <> EmptyString /\ all_digits ds = true /\
    is_digit a = true /\ is_digit b = true.

Section PageSpec.

Variable pick : list (coroutine book) -> nat.
Variable early : list (coroutine book) -> nat.
Variable http_get : string -> result string.
Variable select_one : string -> string -> option tag.
Variable find : string -> string -> option tag.
Variable find_class : string -> string -> option tag.
Variable find_all_class : string -> string -> list tag.
Variable urljoin : string -> string -> result string.

(** The events of one batch of [utils.py] with the pipeline's window. *)
Definition page_segment (c : list (coroutine book)) : list (event book) :=
  segment (utils_batch pick early SLEEP_TIME) c.

(** Page [j] goes well when its listing is fetched, its links are
    extracted, every detail page is fetched and scraped, and the fuel
    covers its batches. *)
Definition page_ok (fuel : nat) (links : nat -> list string)
    (record : string -> book) (j : nat) : Prop :=
  bind_result (http_get (URL_format j))
    (scrape_book_links find_all_class urljoin) = Done (links j) /\
  (forall link, In link (links j) ->
     bind_result (http_get link)
       (scrape_book_details select_one find find_class) =
     Done (record link)) /\
  length (links j) < fuel.

(** Page [i] fails with [e] when the listing fetch or the link
    extraction raises [e], or the fetch or the extraction of one of its
    detail pages does. *)
Definition page_fails (fuel : nat) (i : nat) (e : exn) : Prop :=
  bind_result (http_get (URL_format i))
    (scrape_book_links find_all_class urljoin) = Failed e \/
  exists ls,
    bind_result (http_get (URL_format i))
      (scrape_book_links find_all_class urljoin) = Done ls /\
    length ls < fuel /\
    exists link,
      In link ls /\
      bind_result (http_get link)
        (scrape_book_details select_one find find_class) = Failed e.

End PageSpec.
End PageSpec.

(** ** Inputs on which the theorems are exercised *)

Module Inputs.
Import Asyncio BookSpider.

Local Open Scope string_scope.

(** Five tasks returning 10..14, used to exercise the theorems. *)
Definition demo_tasks : list (coroutine nat) :=
  [mkCoro 0 (Done 10); mkCoro 1 (Done 11); mkCoro 2 (Done 12);
   mkCoro 3 (Done 13); mkCoro 4 (Done 14)].

(** A scheduler that always completes the second running Task first (when
    there is one), and that lets one Task complete during a sleep. *)
Definition demo_pick (l : list (coroutine nat)) : nat := 1.
Definition demo_early (l : list (coroutine nat)) : nat := 1.

(** A site in which every listing page shows the two books "a" and "b",
    every page answers with its own address, and every detail page shows
    the price and stock text "51.77 22". *)
Definition demo_get (url : string) : result string := Done url.
Definition demo_select_one (html selector : string) : option tag :=
  Some (mkTag (Some html) html None).
Definition demo_find_class (html class : string) : option tag :=
  Some (mkTag (Some "51.77 22") "51.77 22" None).
Definition demo_find_all_class (html class : string) : list tag :=
  [mkTag None EmptyString (Some (Some "a"));
   mkTag None EmptyString (Some (Some "b"))].
Definition demo_urljoin (base link : string) : result string := Done link.
Definition demo_links (i : nat) : list string := ["a"; "b"].
Definition demo_record (link : string) : book :=
  [("genre", link); ("title", link); ("price", "51.77"); ("stock", "51");
   ("upc", link)].

(** Three detail tasks, of which the last two raise. *)
Definition demo_failing : list (coroutine book) :=
  [mkCoro 0 (Done (demo_record "a")); mkCoro 1 (Failed (TaskError 1));
   mkCoro 2 (Failed (TaskError 2))].
Definition demo_book_pick (l : list (coroutine book)) : nat := 1.
Definition demo_book_early (l : list (coroutine book)) : nat := 1.

(** The known detail page: what the parser finds on it. *)
Definition fixture_select_one (html selector : string) : option tag :=
  if String.eqb selector ".breadcrumb > li:nth-child(3) a" then
    Some (mkTag (Some "Poetry") "Poetry" None)
  else if String.eqb selector "table  tr:nth-child(1) > td" then
    Some (mkTag (Some "a897fe39b1053632") "a897fe39b1053632" None)
  else None.

Definition fixture_find (html name : string) : option tag :=
  if String.eqb name "h1" then
    Some (mkTag (Some "A Light in the Attic") "A Light in the Attic" None)
  else None.

(** The price text begins with the pound sign, code point 163. *)
Definition fixture_find_class (html class : string) : option tag :=
  if String.eqb class "price_color" then
    Some (mkTag (Some (String (ascii_of_nat 163) "51.77"))
                (String (ascii_of_nat 163) "51.77") None)
  else if String.eqb class "instock" then
    Some (mkTag None "
    
        In stock (22 available)
    
" None)
  else None.

End Inputs.

(** ** book spider/book_spider.py: the driver of the near duplicate

    Its [scrape_book_details] (lines 43-62) and [scrape_book_links]
    (lines 82-100) are, character for character, those of
    [book-spider/book_spider.py]; they are shared with [BookSpider]. *)

Module VariantSpider.
Import Asyncio BookSpider.
Section VariantSpider.

Variable pick : list (coroutine book) -> nat.
Variable early : list (coroutine book) -> nat.
Variable http_get : string -> result string.
Variable select_one : string -> string -> option tag.
Variable find : string -> string -> option tag.
Variable find_class : string -> string -> option tag.
Variable find_all_class : string -> string -> list tag.
Variable urljoin : string -> string -> result string.

(** [make_request(client, url, delay=True)]: [seconds] is left to its
    default, SLEEP_TIME. *)
Definition get_book_data (url : string) : M book book :=
  response <- Variant.make_request pick early http_get url true
                Variant.SLEEP_TIME ;;
  lift (scrape_book_details select_one find find_class response).

Definition detail_tasks (links : list string) : list (coroutine book) :=
  map (fun p => mkCoro (fst p) (task_result (get_book_data (snd p))))
      (combine (seq 0 (length links)) links).

(** [execute_batch_with_interval(tasks)]: batch_size and seconds are left
    to their defaults. *)
Definition get_books (fuel : nat) (url : string) : M book (list book) :=
  response <- Variant.make_request pick early http_get url false
                Variant.SLEEP_TIME ;;
  links <- lift (scrape_book_links find_all_class urljoin response) ;;
  Variant.execute_batch_with_interval pick early fuel (detail_tasks links)
    Variant.BATCH_SIZE Variant.SLEEP_TIME.

Definition main (fuel : nat) : M book unit :=
  results <- Variant.execute_with_interval pick early
               (map (fun i => get_books fuel (URL_format i)) (seq 1 50))
               Variant.SLEEP_TIME ;;
  to_csv (concat results).

End VariantSpider.
End VariantSpider.

(** ** More vocabulary: requests in a trace, results as outcomes *)

Module Readers.
Import Asyncio Spec.

(** The addresses requested, in order. *)
Definition gets {A} (tr : list (event A)) : list string :=
  flat_map (fun ev => match ev with EvGet url => [url] | _ => [] end) tr.

(** How awaiting something that ends with [r] ends. *)
Definition outcome_of {X} (r : result X) : outcome X :=
  match r with
  | Done x => Returned x
  | Failed e => Raised e
  end.

(** What every segment of a batch primitive holds, whether its batch
    returns or raises: the chunk's tasks pulled and started, one delay,
    no request. *)
Definition counted {A} (beh : list (coroutine A) -> behaviour A) : Prop :=
  forall c,
    next_ids (segment beh c) = ids c /\
    start_ids (segment beh c) = ids c /\
    samples (segment beh c) = 1 /\
    gets (segment beh c) = [].

End Readers.

(** ** More inputs on which the theorems are exercised *)

Module MoreInputs.
Import Asyncio BookSpider Inputs.

(** A listing task that only fetches its page. *)
Definition demo_page (http_get : string -> result string) (i : nat)
  : M nat string :=
  Utils.client_get http_get (URL_format i).

(** A network on which page 2 cannot be fetched. *)
Definition demo_get_but_2 (url : string) : result string :=
  if String.eqb url (URL_format 2) then Failed (TaskError 404) else Done url.

(** A urljoin that refuses the link "b", as urllib's refuses a link
    with an unbalanced bracket in its host. *)
Definition demo_urljoin_strict (base link : string) : result string :=
  if String.eqb link "b" then Failed (ValueError "Invalid IPv6 URL")
  else Done link.

(** Five tasks of which the third raises. *)
Definition demo_third_fails : list (coroutine nat) :=
  [mkCoro 0 (Done 10); mkCoro 1 (Done 11); mkCoro 2 (Failed (TaskError 2));
   mkCoro 3 (Done 13); mkCoro 4 (Done 14)].

End MoreInputs.

(** * Facts *)

(** ** Facts about the event loop *)

Module AsyncioFacts.
Import Asyncio Spec.
Section Facts.

Variable A : Type.
Variable pick : list (coroutine A) -> nat.
Variable early : list (coroutine A) -> nat.

Abbreviation coro := (coroutine A).

Lemma nth_split_perm (l : list coro) (i : nat) (d : coro) :
  i < length l ->
  Permutation (nth i l d :: (firstn i l ++ skipn (S i) l)) l.
Proof.
  revert i; induction l as [|c l IH]; intros i Hi; simpl in Hi.
  - lia.
  - destruct i as [|i]; simpl.
    + apply Permutation_refl.
    + eapply perm_trans.
      * apply perm_swap.
      * apply perm_skip. apply IH. lia.
Qed.

Lemma completion_order_perm (n : nat) (l : list coro) :
  n = length l -> Permutation (completion_order pick n l) l.
Proof.
  revert l; induction n as [|n IH]; intros l Hn.
  - destruct l; [apply perm_nil | discriminate].
  - destruct l as [|c l]; [discriminate|].
    cbn [completion_order].
    set (i := pick (c :: l) mod length (c :: l)).
    assert (Hi : i < length (c :: l)).
    { apply Nat.mod_upper_bound. simpl. lia. }
    eapply perm_trans; [|apply (nth_split_perm (c :: l) c Hi)].
    apply perm_skip. apply IH.
    rewrite length_app, length_firstn, length_skipn.
    simpl in *. lia.
Qed.

Lemma order_perm (l : list coro) : Permutation (order pick l) l.
Proof. apply completion_order_perm. reflexivity. Qed.

Lemma order_nil : order pick (@nil coro) = [].
Proof. reflexivity. Qed.

Lemma order_length (l : list coro) : length (order pick l) = length l.
Proof. apply Permutation_length, order_perm. Qed.

(** *** Successes and failures of a list of Tasks *)

Lemma returns_nil_inv (vs : list A) : returns [] vs -> vs = [].
Proof. destruct vs; [reflexivity | discriminate]. Qed.

Lemma returns_length (l : list coro) (vs : list A) :
  returns l vs -> length vs = length l.
Proof.
  intros H. apply (f_equal (@length _)) in H.
  rewrite !length_map in H. symmetry; exact H.
Qed.

Lemma returns_inj (l : list coro) (vs vs' : list A) :
  returns l vs -> returns l vs' -> vs = vs'.
Proof.
  unfold returns. intros H H'. rewrite H in H'. clear H.
  revert vs' H'; induction vs as [|v vs IH]; intros [|v' vs'] H;
    try discriminate; [reflexivity|].
  simpl in H. injection H as -> H. f_equal. apply IH, H.
Qed.

Lemma returns_app (l1 l2 : list coro) (v1 v2 : list A) :
  returns l1 v1 -> returns l2 v2 -> returns (l1 ++ l2) (v1 ++ v2).
Proof. unfold returns. intros H1 H2. rewrite !map_app, H1, H2. reflexivity. Qed.

Lemma returns_firstn (n : nat) (l : list coro) (vs : list A) :
  returns l vs -> returns (firstn n l) (firstn n vs).
Proof. unfold returns. intros H. rewrite <- !firstn_map, H. reflexivity. Qed.

Lemma returns_skipn (n : nat) (l : list coro) (vs : list A) :
  returns l vs -> returns (skipn n l) (skipn n vs).
Proof. unfold returns. intros H. rewrite <- !skipn_map, H. reflexivity. Qed.

Lemma returns_cons_inv (c : coro) (l : list coro) (vs : list A) :
  returns (c :: l) vs ->
  exists v vs', vs = v :: vs' /\ coro_result c = Done v /\ returns l vs'.
Proof.
  destruct vs as [|v vs']; [discriminate|].
  unfold returns; simpl. intros H. injection H as Hc Hl.
  exists v, vs'. auto.
Qed.

Lemma returns_cons (c : coro) (l : list coro) (v : A) (vs : list A) :
  coro_result c = Done v -> returns l vs -> returns (c :: l) (v :: vs).
Proof. unfold returns; simpl. intros -> ->. reflexivity. Qed.

Lemma first_failure_returns (l : list coro) (vs : list A) :
  returns l vs -> first_failure l = None.
Proof.
  revert vs; induction l as [|c l IH]; intros vs H; [reflexivity|].
  apply returns_cons_inv in H. destruct H as (v & vs' & _ & Hc & Hl).
  simpl. rewrite Hc. eapply IH, Hl.
Qed.

Lemma first_failure_none (l : list coro) :
  first_failure l = None -> exists vs, returns l vs.
Proof.
  induction l as [|c l IH]; simpl; intros H.
  - exists []. reflexivity.
  - destruct (coro_result c) as [v|e] eqn:Hc; [|discriminate].
    destruct (IH H) as [vs Hvs]. exists (v :: vs).
    apply returns_cons; assumption.
Qed.

Lemma first_failure_some (l : list coro) (e : exn) :
  first_failure l = Some e -> exists c, In c l /\ coro_result c = Failed e.
Proof.
  induction l as [|c l IH]; simpl; intros H; [discriminate|].
  destruct (coro_result c) as [v|e'] eqn:Hc.
  - destruct (IH H) as (c' & Hin & Hc'). exists c'. auto.
  - injection H as ->. exists c. auto.
Qed.

Lemma first_failure_none_forall (l : list coro) :
  first_failure l = None <-> Forall (fun c => failed c = false) l.
Proof.
  unfold failed. induction l as [|c l IH]; simpl.
  - split; auto.
  - destruct (coro_result c) as [v|e] eqn:Hc.
    + rewrite IH. split; intros H.
      * constructor; [rewrite Hc; reflexivity | exact H].
      * inversion H; assumption.
    + split; [discriminate|]. intros H. inversion H as [|? ? Hd _].
      rewrite Hc in Hd. discriminate.
Qed.

Lemma first_failure_perm (l l' : list coro) :
  Permutation l l' -> first_failure l = None -> first_failure l' = None.
Proof.
  intros HP. rewrite !first_failure_none_forall.
  apply Permutation_Forall, HP.
Qed.

Lemma first_failure_app_none (l1 l2 : list coro) :
  first_failure l1 = None -> first_failure l2 = None ->
  first_failure (l1 ++ l2) = None.
Proof.
  rewrite !first_failure_none_forall. intros H1 H2.
  apply Forall_app; auto.
Qed.

Lemma first_failure_app (l1 l2 : list coro) :
  first_failure l1 = None -> first_failure (l1 ++ l2) = first_failure l2.
Proof.
  induction l1 as [|c l1 IH]; simpl; intros H; [reflexivity|].
  destruct (coro_result c); [auto | discriminate].
Qed.

Lemma upto_failure_none (l : list coro) :
  first_failure l = None -> upto_failure l = l /\ after_failure l = [].
Proof.
  unfold failed. induction l as [|c l IH]; simpl; intros H; [auto|].
  unfold failed. destruct (coro_result c); [|discriminate].
  destruct (IH H) as [-> ->]. auto.
Qed.

Lemma upto_after_failure (l : list coro) :
  upto_failure l ++ after_failure l = l.
Proof.
  induction l as [|c l IH]; simpl; [reflexivity|].
  destruct (failed c); simpl; [reflexivity | rewrite IH; reflexivity].
Qed.

Lemma collect_returns (l : list coro) (vs : list A) :
  returns l vs -> collect l = Returned vs.
Proof.
  revert vs; induction l as [|c l IH]; intros vs H.
  - apply returns_nil_inv in H. subst. reflexivity.
  - apply returns_cons_inv in H. destruct H as (v & vs' & -> & Hc & Hl).
    simpl. rewrite Hc, (IH _ Hl). reflexivity.
Qed.

Lemma collect_returned (l : list coro) (vs : list A) :
  collect l = Returned vs -> returns l vs.
Proof.
  revert vs; induction l as [|c l IH]; simpl; intros vs H.
  - injection H as <-. reflexivity.
  - destruct (coro_result c) as [v|e] eqn:Hc; [|discriminate].
    destruct (collect l) as [vs'| |]; try discriminate.
    injection H as <-. apply returns_cons; auto.
Qed.

Lemma collect_finishes (l : list coro) : collect l <> Unfinished.
Proof.
  induction l as [|c l IH]; simpl; [discriminate|].
  destruct (coro_result c); [|discriminate].
  destruct (collect l); [discriminate | discriminate | congruence].
Qed.

(** *** What the primitives do to a world *)

Lemma bind_ext {X Y} (m : M A X) (k k' : X -> M A Y) (w : world A) :
  (forall x w', k x w' = k' x w') -> bind m k w = bind m k' w.
Proof.
  intros H. unfold bind. destruct (m w) as [[x| |] w']; auto.
Qed.

Lemma fold_settle (l : list coro) tr rd rn ge :
  fold_left (@settle A) l (mkWorld tr rd rn ge) =
  mkWorld (tr ++ finishes l) rd rn
          (match ge with Some e => Some e | None => first_failure l end).
Proof.
  revert tr ge; induction l as [|c l IH]; intros tr ge; simpl.
  - rewrite app_nil_r. destruct ge; reflexivity.
  - unfold settle at 2; simpl. rewrite IH. rewrite <- app_assoc. simpl.
    destruct ge as [e|]; [reflexivity|].
    destruct (coro_result c); reflexivity.
Qed.

Lemma complete_spec (l : list coro) tr rd rn :
  complete l (mkWorld tr rd rn None) =
  (match first_failure l with
   | None => Returned tt
   | Some e => Raised e
   end,
   mkWorld (tr ++ finishes (upto_failure l)) rd (after_failure l)
           (first_failure l)).
Proof.
  revert tr; induction l as [|c l IH]; intros tr; simpl.
  - rewrite app_nil_r. reflexivity.
  - unfold failed, settle; simpl.
    destruct (coro_result c) as [v|e]; simpl.
    + rewrite IH. rewrite <- app_assoc. reflexivity.
    + reflexivity.
Qed.

Lemma asyncio_sleep_spec (d : delay) tr rd :
  asyncio_sleep pick early d (mkWorld tr rd [] None) =
  (Returned tt,
   mkWorld (tr ++ [EvSleepBegin] ++ starts rd
               ++ finishes (firstn (early rd) (order pick rd))
               ++ [EvSleepEnd])
           [] (skipn (early rd) (order pick rd))
           (first_failure (firstn (early rd) (order pick rd)))).
Proof.
  unfold asyncio_sleep, start_ready, log; simpl.
  rewrite fold_settle; simpl.
  rewrite <- !app_assoc. reflexivity.
Qed.

Lemma await_spec (fut : future A) tr rd rn :
  await pick fut (mkWorld tr rd rn None) =
  (match first_failure (order pick (rn ++ rd)) with
   | None => collect (children fut)
   | Some e => Raised e
   end,
   mkWorld (tr ++ starts rd ++ finishes (upto_failure (order pick (rn ++ rd))))
           [] (after_failure (order pick (rn ++ rd)))
           (first_failure (order pick (rn ++ rd)))).
Proof.
  unfold await; cbn [gather_exn ready running].
  destruct rd as [|c rd].
  - destruct rn as [|c rn].
    + cbn [app starts map]. rewrite order_nil. simpl.
      rewrite app_nil_r. reflexivity.
    + unfold start_ready; cbn [trace ready running gather_exn starts map].
      rewrite complete_spec. rewrite !app_nil_r.
      destruct (first_failure (order pick (c :: rn))); reflexivity.
  - unfold start_ready; cbn [trace ready running gather_exn].
    rewrite complete_spec. rewrite <- app_assoc.
    destruct (first_failure (order pick (rn ++ c :: rd)));
      destruct rn; reflexivity.
Qed.

End Facts.
End AsyncioFacts.

(** ** The batched orchestrator, chunk by chunk *)

Module Orchestrator.
Import Asyncio Spec AsyncioFacts.

Lemma chunks_fuel_enough {X} (fuel n : nat) (l : list X) :
  1 <= n -> length l <= fuel -> chunks_fuel fuel n l = chunks n l.
Proof.
  intros Hn. unfold chunks.
  remember (length l) as k eqn:Hk.
  revert fuel l Hk.
  induction k as [k IH] using lt_wf_ind. intros fuel l Hk Hf.
  destruct l as [|x l].
  - subst k. destruct fuel; reflexivity.
  - destruct fuel as [|fuel]; [simpl in Hk; lia|].
    subst k. cbn [chunks_fuel length]. f_equal.
    assert (Hlen : length (skipn n (x :: l)) <= length l).
    { rewrite length_skipn. cbn [length]. lia. }
    rewrite (IH (length (skipn n (x :: l)))) with (fuel := fuel);
      [|cbn [length]; lia|reflexivity|cbn [length] in Hf; lia].
    rewrite (IH (length (skipn n (x :: l)))) with (fuel := length l);
      [reflexivity|cbn [length]; lia|reflexivity|exact Hlen].
Qed.

Lemma chunks_nil {X} (n : nat) : chunks n (@nil X) = [].
Proof. reflexivity. Qed.

Lemma chunks_cons {X} (n : nat) (l : list X) :
  1 <= n -> l <> [] -> chunks n l = firstn n l :: chunks n (skipn n l).
Proof.
  intros Hn Hl. destruct l as [|x l]; [congruence|].
  unfold chunks at 1. cbn [length chunks_fuel]. f_equal.
  apply chunks_fuel_enough; [exact Hn|].
  rewrite length_skipn. cbn [length]. lia.
Qed.

Lemma chunks_concat {X} (n : nat) (l : list X) :
  1 <= n -> concat (chunks n l) = l.
Proof.
  intros Hn. remember (length l) as k eqn:Hk. revert l Hk.
  induction k as [k IH] using lt_wf_ind. intros l Hk.
  destruct l as [|x l]; [reflexivity|].
  rewrite chunks_cons by (auto; discriminate).
  cbn [concat]. rewrite (IH (length (skipn n (x :: l)))); [| |reflexivity].
  - apply firstn_skipn.
  - subst k. rewrite length_skipn. cbn [length]. lia.
Qed.

(** Number of chunks: the ceiling of [length l / n]. *)
Lemma chunks_length {X} (n : nat) (l : list X) :
  1 <= n -> length (chunks n l) = (length l + n - 1) / n.
Proof.
  intros Hn. remember (length l) as k eqn:Hk. revert l Hk.
  induction k as [k IH] using lt_wf_ind. intros l Hk.
  destruct l as [|x l].
  - subst k. simpl. rewrite Nat.div_small; [reflexivity | lia].
  - rewrite chunks_cons by (auto; discriminate).
    cbn [length]. rewrite (IH (length (skipn n (x :: l)))); [| |reflexivity].
    + rewrite length_skipn. subst k. cbn [length].
      destruct (Nat.le_gt_cases n (S (length l))) as [Hge|Hlt].
      * replace (S (length l) + n - 1) with (S (length l) - n + n - 1 + 1 * n)
          by lia.
        rewrite Nat.div_add by lia. lia.
      * replace (S (length l) - n) with 0 by lia.
        rewrite (Nat.div_small (0 + n - 1)) by lia.
        apply Nat.div_unique with (r := length l); lia.
    + subst k. rewrite length_skipn. cbn [length]. lia.
Qed.

Lemma chunks_bounded {X} (n : nat) (l : list X) :
  1 <= n -> Forall (fun c => c <> [] /\ length c <= n) (chunks n l).
Proof.
  intros Hn. remember (length l) as k eqn:Hk. revert l Hk.
  induction k as [k IH] using lt_wf_ind. intros l Hk.
  destruct l as [|x l]; [constructor|].
  rewrite chunks_cons by (auto; discriminate).
  constructor.
  - split.
    + destruct n; [lia | discriminate].
    + rewrite length_firstn. lia.
  - apply (IH (length (skipn n (x :: l)))); [|reflexivity].
    subst k. rewrite length_skipn. cbn [length]. lia.
Qed.

Section Orchestrator.

Variable A : Type.

Abbreviation coro := (coroutine A).

Lemma fill_batch_spec (n : nat) (task_iter batch : list coro) tr rd rn ge :
  Utils.fill_batch n task_iter batch (mkWorld tr rd rn ge) =
  (Returned (length task_iter <? n, batch ++ firstn n task_iter,
             skipn n task_iter),
   mkWorld (tr ++ nexts (firstn n task_iter)) rd rn ge).
Proof.
  revert task_iter batch tr; induction n as [|n IH]; intros it batch tr.
  - simpl. rewrite !app_nil_r. reflexivity.
  - destruct it as [|c it]; simpl.
    + rewrite !app_nil_r. reflexivity.
    + unfold bind, emit, log; simpl. rewrite IH.
      rewrite <- !app_assoc. reflexivity.
Qed.

Section Loop.

Variable step : list coro -> M A (list A).

Variable beh : list coro -> behaviour A.

Hypothesis step_beh : forall batch tr,
  step batch (mkWorld tr [] [] None) =
  (bh_out (beh batch),
   mkWorld (tr ++ bh_trace (beh batch)) []
           (bh_running (beh batch)) (bh_exn (beh batch))).

Hypothesis beh_quiet : forall batch vs,
  bh_out (beh batch) = Returned vs ->
  bh_running (beh batch) = [] /\ bh_exn (beh batch) = None.

Lemma loop_run_chunks (fuel n : nat) (task_iter : list coro)
    (results : list A) tr :
  1 <= n -> length task_iter < fuel ->
  loop step fuel task_iter n results (mkWorld tr [] [] None) =
  run_chunks beh (chunks n task_iter) results tr.
Proof.
  intros Hn. revert task_iter results tr.
  induction fuel as [|fuel IH]; intros it results tr Hf; [lia|].
  cbn [loop]. unfold bind at 1. rewrite fill_batch_spec. cbn [app].
  destruct it as [|c it].
  - destruct n; [lia|]. simpl. rewrite app_nil_r. reflexivity.
  - rewrite chunks_cons by (auto; discriminate).
    cbn [run_chunks].
    destruct (length (c :: it) <? n) eqn:Hstop.
    + apply Nat.ltb_lt in Hstop.
      rewrite firstn_all2 by lia. rewrite skipn_all2 by lia.
      rewrite chunks_nil. unfold bind. rewrite step_beh.
      rewrite <- app_assoc.
      destruct (bh_out (beh (c :: it))) as [rs|e|] eqn:Hout;
        cbn [run_chunks]; try reflexivity.
      destruct (beh_quiet _ Hout) as [-> ->]. reflexivity.
    + apply Nat.ltb_ge in Hstop.
      unfold bind. rewrite step_beh. rewrite <- app_assoc.
      destruct (bh_out (beh (firstn n (c :: it)))) as [rs|e|] eqn:Hout;
        try reflexivity.
      destruct (beh_quiet _ Hout) as [-> ->].
      apply IH. rewrite length_skipn. cbn [length] in *. lia.
Qed.

End Loop.

(** *** The two batch primitives *)

Variable pick : list coro -> nat.
Variable early : list coro -> nat.

Lemma variant_step (seconds : Z) (batch : list coro) tr :
  Variant.sleep_then_gather pick early batch seconds (mkWorld tr [] [] None) =
  (bh_out (variant_batch pick seconds batch),
   mkWorld (tr ++ bh_trace (variant_batch pick seconds batch)) []
           (bh_running (variant_batch pick seconds batch))
           (bh_exn (variant_batch pick seconds batch))).
Proof.
  unfold Variant.sleep_then_gather, bind, random_uniform, log.
  cbn [trace ready running gather_exn].
  rewrite asyncio_sleep_spec.
  rewrite order_nil, firstn_nil, skipn_nil.
  unfold gather. cbn [trace ready running gather_exn app].
  rewrite await_spec. cbn [app children variant_batch bh_out bh_trace
    bh_running bh_exn starts finishes map first_failure].
  rewrite <- !app_assoc. reflexivity.
Qed.

Lemma utils_step (seconds : Z) (batch : list coro) tr :
  (1 < seconds)%Z ->
  Utils.gather_sleep_and_execute pick early batch seconds
    (mkWorld tr [] [] None) =
  (bh_out (utils_batch pick early seconds batch),
   mkWorld (tr ++ bh_trace (utils_batch pick early seconds batch)) []
           (bh_running (utils_batch pick early seconds batch))
           (bh_exn (utils_batch pick early seconds batch))).
Proof.
  intros Hs.
  unfold Utils.gather_sleep_and_execute, Utils.sleep_and_execute, bind, gather.
  cbn [trace ready running gather_exn app].
  destruct (seconds <=? 1)%Z eqn:Hle; [apply Z.leb_le in Hle; lia|].
  unfold random_uniform, log. cbn [trace ready running gather_exn].
  rewrite asyncio_sleep_spec. unfold utils_batch.
  destruct (first_failure (firstn (early batch) (order pick batch)))
    as [e|] eqn:Hff.
  - unfold await. cbn [gather_exn bh_out bh_trace bh_running bh_exn].
    rewrite <- !app_assoc. reflexivity.
  - rewrite await_spec. rewrite app_nil_r.
    cbn [children bh_out bh_trace bh_running bh_exn starts map app].
    repeat (progress (rewrite <- ?app_assoc; cbn [app])). reflexivity.
Qed.

Lemma collect_raised (l : list coro) (e : exn) :
  collect l = Raised e -> exists c, In c l /\ coro_result c = Failed e.
Proof.
  induction l as [|c l IH]; simpl; intros H; [discriminate|].
  destruct (coro_result c) as [v|e'] eqn:Hc.
  - destruct (collect l) as [vs|e'|]; try discriminate.
    injection H as ->. destruct IH as (c' & Hin & Hc'); [reflexivity|].
    exists c'. auto.
  - injection H as ->. exists c. auto.
Qed.

Lemma gathered_outcome (batch o : list coro) :
  Permutation o batch ->
  let out := match first_failure o with
             | None => collect batch
             | Some e => Raised e
             end in
  (forall vs, out = Returned vs <-> returns batch vs) /\
  (forall e, out = Raised e ->
             exists c, In c batch /\ coro_result c = Failed e) /\
  out <> Unfinished.
Proof.
  intros HP out. subst out.
  destruct (first_failure o) as [e|] eqn:Hff.
  - repeat split.
    + discriminate.
    + intros Hr. apply first_failure_returns in Hr.
      apply (first_failure_perm (Permutation_sym HP)) in Hr. congruence.
    + intros e' He. injection He as <-.
      destruct (first_failure_some _ Hff) as (c & Hin & Hc).
      exists c. split; [eapply Permutation_in; eauto | exact Hc].
    + discriminate.
  - repeat split.
    + apply collect_returned.
    + apply collect_returns.
    + apply collect_raised.
    + apply collect_finishes.
Qed.

Lemma variant_sound (seconds : Z) : sound (variant_batch pick seconds).
Proof.
  intros batch.
  destruct (gathered_outcome (order_perm pick batch)) as (H1 & H2 & H3).
  unfold variant_batch; cbn [bh_out bh_running bh_exn].
  repeat split; try apply H1; auto.
  - destruct (first_failure (order pick batch)) eqn:Hff; [discriminate|].
    apply upto_failure_none, Hff.
  - destruct (first_failure (order pick batch)); [discriminate|reflexivity].
Qed.

Lemma utils_sound (seconds : Z) : sound (utils_batch pick early seconds).
Proof.
  intros batch. unfold utils_batch.
  set (o := order pick batch).
  set (during := firstn (early batch) o).
  set (rest := skipn (early batch) o).
  assert (HP : Permutation (during ++ order pick rest) batch).
  { eapply perm_trans; [|apply (order_perm pick batch)].
    fold o. rewrite <- (firstn_skipn (early batch) o).
    apply Permutation_app_head, order_perm. }
  destruct (first_failure during) as [e|] eqn:Hd;
    cbn [bh_out bh_running bh_exn].
  - repeat split; try discriminate.
    + intros Hr. apply first_failure_returns in Hr.
      apply (first_failure_perm (Permutation_sym HP)) in Hr.
      apply first_failure_none_forall in Hr.
      apply Forall_app in Hr. destruct Hr as [Hr _].
      apply first_failure_none_forall in Hr. congruence.
    + intros e' He. injection He as <-.
      destruct (first_failure_some _ Hd) as (c & Hin & Hc).
      exists c. split; [|exact Hc].
      eapply Permutation_in; [exact HP|]. apply in_or_app. auto.
  - destruct (gathered_outcome HP) as (H1 & H2 & H3).
    rewrite first_failure_app in H1, H2, H3 by exact Hd.
    repeat split; try apply H1; auto.
    + destruct (first_failure (order pick rest)) eqn:Hff; [discriminate|].
      apply upto_failure_none, Hff.
    + destruct (first_failure (order pick rest)); [discriminate|reflexivity].
Qed.

(** *** Runs over the chunks *)

Section Runs.

Variable beh : list coro -> behaviour A.
Hypothesis beh_sound : sound beh.

Lemma run_chunks_trace (cs : list (list coro)) (results : list A) tr :
  trace (snd (run_chunks beh cs results tr)) =
  tr ++ flat_map (segment beh) (attempted beh cs).
Proof.
  revert results tr; induction cs as [|c cs IH]; intros results tr; simpl.
  - rewrite app_nil_r. reflexivity.
  - unfold segment at 1.
    destruct (bh_out (beh c)) as [rs|e|]; simpl;
      rewrite ?IH, ?app_nil_r, <- ?app_assoc; reflexivity.
Qed.

Lemma returns_app_inv (l1 l2 : list coro) (vs : list A) :
  returns (l1 ++ l2) vs ->
  returns l1 (firstn (length l1) vs) /\ returns l2 (skipn (length l1) vs).
Proof.
  unfold returns. intros H. rewrite map_app in H. split.
  - rewrite <- firstn_map, <- H, firstn_app, length_map, Nat.sub_diag.
    rewrite firstn_all2 by (rewrite length_map; lia).
    simpl. rewrite app_nil_r. reflexivity.
  - rewrite <- skipn_map, <- H, skipn_app, length_map, Nat.sub_diag.
    rewrite skipn_all2 by (rewrite length_map; lia). reflexivity.
Qed.

Lemma run_chunks_returns (cs : list (list coro)) (vs results : list A) tr :
  returns (concat cs) vs ->
  run_chunks beh cs results tr =
  (Returned (results ++ vs),
   mkWorld (tr ++ flat_map (segment beh) cs) [] [] None).
Proof.
  revert vs results tr; induction cs as [|c cs IH]; intros vs results tr H.
  - apply returns_nil_inv in H. subst. simpl. rewrite !app_nil_r. reflexivity.
  - simpl in H. apply returns_app_inv in H. destruct H as [Hc Hcs].
    destruct (beh_sound c) as (H1 & _).
    apply H1 in Hc. cbn [run_chunks flat_map]. rewrite Hc.
    rewrite (IH _ _ _ Hcs). unfold segment at 2.
    rewrite <- !app_assoc. rewrite firstn_skipn. reflexivity.
Qed.

Lemma run_chunks_returned (cs : list (list coro)) (l results : list A) tr :
  fst (run_chunks beh cs results tr) = Returned l ->
  exists vs, l = results ++ vs /\ returns (concat cs) vs.
Proof.
  revert l results tr; induction cs as [|c cs IH]; intros l results tr H.
  - simpl in H. injection H as <-. exists []. rewrite app_nil_r.
    split; reflexivity.
  - cbn [run_chunks] in H. destruct (beh_sound c) as (H1 & _).
    destruct (bh_out (beh c)) as [rs|e|] eqn:Hout; try discriminate.
    apply IH in H. destruct H as (vs & -> & Hvs).
    exists (rs ++ vs). rewrite app_assoc. split; [reflexivity|].
    simpl. apply returns_app; [apply H1; reflexivity | exact Hvs].
Qed.

Lemma run_chunks_raised (cs : list (list coro)) (e : exn)
    (results : list A) tr :
  fst (run_chunks beh cs results tr) = Raised e ->
  exists c, In c (concat cs) /\ coro_result c = Failed e.
Proof.
  revert results tr; induction cs as [|c cs IH]; intros results tr H.
  - discriminate.
  - cbn [run_chunks] in H. destruct (beh_sound c) as (_ & H2 & _).
    destruct (bh_out (beh c)) as [rs|e'|] eqn:Hout; try discriminate.
    + apply IH in H. destruct H as (c' & Hin & Hc').
      exists c'. split; [simpl; apply in_or_app; auto | exact Hc'].
    + injection H as ->. destruct (H2 _ eq_refl) as (c' & Hin & Hc').
      exists c'. split; [simpl; apply in_or_app; auto | exact Hc'].
Qed.

Lemma run_chunks_finishes (cs : list (list coro)) (results : list A) tr :
  fst (run_chunks beh cs results tr) <> Unfinished.
Proof.
  revert results tr; induction cs as [|c cs IH]; intros results tr.
  - discriminate.
  - cbn [run_chunks]. destruct (beh_sound c) as (_ & _ & H3 & _).
    destruct (bh_out (beh c)) as [rs|e'|] eqn:Hout;
      [apply IH | discriminate | congruence].
Qed.

Lemma run_chunks_fst (cs : list (list coro)) (results : list A) tr tr' :
  fst (run_chunks beh cs results tr) = fst (run_chunks beh cs results tr').
Proof.
  revert results tr tr'; induction cs as [|c cs IH]; intros results tr tr'.
  - reflexivity.
  - cbn [run_chunks]. destruct (bh_out (beh c)); try reflexivity. apply IH.
Qed.

Lemma attempted_returns (cs : list (list coro)) (vs : list A) :
  returns (concat cs) vs -> attempted beh cs = cs.
Proof.
  revert vs; induction cs as [|c cs IH]; intros vs H; [reflexivity|].
  simpl in H. apply returns_app_inv in H. destruct H as [Hc Hcs].
  destruct (beh_sound c) as (H1 & _). apply H1 in Hc.
  simpl. rewrite Hc. f_equal. eapply IH, Hcs.
Qed.

End Runs.

(** *** The sources' loops are the loop above *)

Lemma utils_while_true_loop (fuel : nat) (task_iter : list coro)
    (seconds batch_size : Z) (results : list A) (w : world A) :
  Utils.while_true pick early fuel task_iter seconds batch_size results w =
  loop (fun batch => Utils.gather_sleep_and_execute pick early batch seconds)
       fuel task_iter (Z.to_nat batch_size) results w.
Proof.
  revert task_iter results w; induction fuel as [|fuel IH];
    intros it results w; [reflexivity|].
  cbn [Utils.while_true loop]. apply bind_ext.
  intros [[stop batch] it'] w'. destruct stop; [reflexivity|].
  apply bind_ext. intros rs w''. apply IH.
Qed.

Lemma variant_while_true_loop (fuel : nat) (task_iter : list coro)
    (batch_size seconds : Z) (results : list A) (w : world A) :
  Variant.while_true pick early fuel task_iter batch_size seconds results w =
  loop (fun batch => Variant.sleep_then_gather pick early batch seconds)
       fuel task_iter (Z.to_nat batch_size) results w.
Proof.
  revert task_iter results w; induction fuel as [|fuel IH];
    intros it results w; [reflexivity|].
  cbn [Variant.while_true loop]. apply bind_ext.
  intros [[stop batch] it'] w'. destruct stop; [reflexivity|].
  apply bind_ext. intros rs w''. apply IH.
Qed.

(** The two sources, chunk by chunk. *)
Theorem variant_run (fuel : nat) (tasks : list coro) (batch_size seconds : Z)
    tr :
  (1 <= batch_size)%Z -> length tasks < fuel ->
  Variant.execute_batch_with_interval pick early fuel tasks batch_size seconds
    (mkWorld tr [] [] None) =
  run_chunks (variant_batch pick seconds) (chunks (Z.to_nat batch_size) tasks)
    [] tr.
Proof.
  intros Hb Hf. unfold Variant.execute_batch_with_interval.
  rewrite variant_while_true_loop.
  apply loop_run_chunks with (beh := variant_batch pick seconds).
  - intros batch tr'. apply variant_step.
  - intros batch vs. apply variant_sound.
  - lia.
  - exact Hf.
Qed.

Theorem utils_run (fuel : nat) (tasks : list coro) (seconds batch_size : Z)
    tr :
  (1 < seconds)%Z -> (1 <= batch_size)%Z -> length tasks < fuel ->
  Utils.execute_batch_with_interval pick early fuel tasks seconds batch_size
    (mkWorld tr [] [] None) =
  run_chunks (utils_batch pick early seconds) (chunks (Z.to_nat batch_size) tasks)
    [] tr.
Proof.
  intros Hs Hb Hf. unfold Utils.execute_batch_with_interval.
  rewrite utils_while_true_loop.
  apply loop_run_chunks with (beh := utils_batch pick early seconds).
  - intros batch tr'. apply utils_step, Hs.
  - intros batch vs. apply utils_sound.
  - lia.
  - exact Hf.
Qed.

(** *** With [batch_size <= 0] the loop never ends *)

Lemma loop_zero (step : list coro -> M A (list A)) (d : list (event A)) :
  (forall tr, step [] (mkWorld tr [] [] None) =
              (Returned [], mkWorld (tr ++ d) [] [] None)) ->
  forall fuel task_iter results tr,
    loop step fuel task_iter 0 results (mkWorld tr [] [] None) =
    (Unfinished, mkWorld (tr ++ concat (repeat d fuel)) [] [] None).
Proof.
  intros Hstep. induction fuel as [|fuel IH]; intros it results tr.
  - simpl. rewrite app_nil_r. reflexivity.
  - cbn [loop]. unfold bind at 1. rewrite fill_batch_spec.
    cbn [Nat.ltb Nat.leb firstn skipn app nexts map].
    unfold bind. rewrite app_nil_r, Hstep, IH.
    cbn [repeat concat]. rewrite <- app_assoc. reflexivity.
Qed.

Lemma variant_diverges (fuel : nat) (tasks : list coro)
    (batch_size seconds : Z) tr :
  (batch_size <= 0)%Z ->
  Variant.execute_batch_with_interval pick early fuel tasks batch_size seconds
    (mkWorld tr [] [] None) =
  (Unfinished,
   mkWorld (tr ++ concat (repeat [EvSample 1 seconds; EvSleepBegin; EvSleepEnd]
                                 fuel)) [] [] None).
Proof.
  intros Hb. unfold Variant.execute_batch_with_interval.
  rewrite variant_while_true_loop.
  replace (Z.to_nat batch_size) with 0 by lia.
  apply loop_zero. intros tr'. rewrite variant_step. reflexivity.
Qed.

Lemma utils_diverges (fuel : nat) (tasks : list coro)
    (seconds batch_size : Z) tr :
  (1 < seconds)%Z -> (batch_size <= 0)%Z ->
  Utils.execute_batch_with_interval pick early fuel tasks seconds batch_size
    (mkWorld tr [] [] None) =
  (Unfinished,
   mkWorld (tr ++ concat (repeat [EvSample 1 seconds; EvSleepBegin; EvSleepEnd]
                                 fuel)) [] [] None).
Proof.
  intros Hs Hb. unfold Utils.execute_batch_with_interval.
  rewrite utils_while_true_loop.
  replace (Z.to_nat batch_size) with 0 by lia.
  apply loop_zero. intros tr'. rewrite utils_step by exact Hs.
  unfold utils_batch. rewrite order_nil, firstn_nil, skipn_nil, order_nil.
  reflexivity.
Qed.

(** *** [utils.py] with an invalid window *)

Lemma sleep_and_execute_invalid {X} (task : M A X) (seconds : Z)
    (w : world A) :
  (seconds <= 1)%Z ->
  Utils.sleep_and_execute pick early task seconds w = (Raised invalid_window, w).
Proof.
  intros Hs. unfold Utils.sleep_and_execute.
  replace (seconds <=? 1)%Z with true by (symmetry; apply Z.leb_le, Hs).
  reflexivity.
Qed.

Lemma sleep_and_execute_valid {X} (task : M A X) (seconds : Z) tr :
  (1 < seconds)%Z ->
  Utils.sleep_and_execute pick early task seconds (mkWorld tr [] [] None) =
  task (mkWorld (tr ++ [EvSample 1 seconds; EvSleepBegin; EvSleepEnd])
                [] [] None).
Proof.
  intros Hs. unfold Utils.sleep_and_execute.
  replace (seconds <=? 1)%Z with false by (symmetry; apply Z.leb_gt, Hs).
  unfold bind, random_uniform, log. cbn [trace ready running gather_exn].
  rewrite asyncio_sleep_spec.
  rewrite order_nil, firstn_nil, skipn_nil.
  cbn [starts finishes map app first_failure].
  rewrite <- app_assoc. reflexivity.
Qed.

Lemma utils_empty (fuel : nat) (seconds batch_size : Z) tr :
  (1 <= batch_size)%Z ->
  Utils.execute_batch_with_interval pick early (S fuel) [] seconds batch_size
    (mkWorld tr [] [] None) =
  (Returned [], mkWorld tr [] [] None).
Proof.
  intros Hb. unfold Utils.execute_batch_with_interval.
  cbn [Utils.while_true]. unfold bind. rewrite fill_batch_spec.
  destruct (Z.to_nat batch_size) as [|n] eqn:Hn; [lia|].
  cbn. rewrite app_nil_r. reflexivity.
Qed.

Lemma utils_invalid_raises (fuel : nat) (tasks : list coro)
    (seconds batch_size : Z) tr :
  (seconds <= 1)%Z -> tasks <> [] \/ (batch_size <= 0)%Z ->
  Utils.execute_batch_with_interval pick early (S fuel) tasks seconds
    batch_size (mkWorld tr [] [] None) =
  (Raised invalid_window,
   mkWorld (tr ++ nexts (firstn (Z.to_nat batch_size) tasks))
           (firstn (Z.to_nat batch_size) tasks) [] None).
Proof.
  intros Hs Hne. unfold Utils.execute_batch_with_interval.
  cbn [Utils.while_true]. unfold bind at 1. rewrite fill_batch_spec.
  cbn [app].
  assert (Hstep : forall batch tr',
    Utils.gather_sleep_and_execute pick early batch seconds
      (mkWorld tr' [] [] None) =
    (Raised invalid_window, mkWorld tr' batch [] None)).
  { intros batch tr'. unfold Utils.gather_sleep_and_execute, bind, gather.
    cbn [trace ready running app].
    rewrite sleep_and_execute_invalid by exact Hs. reflexivity. }
  destruct (length tasks <? Z.to_nat batch_size) eqn:Hstop.
  - destruct (firstn (Z.to_nat batch_size) tasks) as [|c batch] eqn:Hfirst.
    + exfalso. apply Nat.ltb_lt in Hstop.
      rewrite firstn_all2 in Hfirst by lia.
      destruct Hne as [Hne|Hne]; [congruence | lia].
    + unfold bind. rewrite Hstep. reflexivity.
  - unfold bind. rewrite Hstep. reflexivity.
Qed.

End Orchestrator.
End Orchestrator.

(** ** Reading traces *)

Module Trace.
Import Asyncio Spec AsyncioFacts.
Section Trace.

Variable A : Type.

Abbreviation coro := (coroutine A).
Abbreviation events := (list (event A)).

Lemma next_ids_app (t1 t2 : events) :
  next_ids (t1 ++ t2) = next_ids t1 ++ next_ids t2.
Proof. apply flat_map_app. Qed.

Lemma start_ids_app (t1 t2 : events) :
  start_ids (t1 ++ t2) = start_ids t1 ++ start_ids t2.
Proof. apply flat_map_app. Qed.

Lemma finish_ids_app (t1 t2 : events) :
  finish_ids (t1 ++ t2) = finish_ids t1 ++ finish_ids t2.
Proof. apply flat_map_app. Qed.

Lemma samples_app (t1 t2 : events) :
  samples (t1 ++ t2) = samples t1 + samples t2.
Proof. unfold samples. rewrite filter_app, length_app. reflexivity. Qed.

Ltac by_list_induction l :=
  induction l as [|? ? ?IH]; simpl; [reflexivity | congruence].

Lemma next_ids_nexts (l : list coro) : next_ids (nexts l) = ids l.
Proof. unfold next_ids, nexts, ids. by_list_induction l. Qed.

Lemma next_ids_starts (l : list coro) : next_ids (starts l) = [].
Proof. unfold next_ids, starts. by_list_induction l. Qed.

Lemma next_ids_finishes (l : list coro) : next_ids (finishes l) = [].
Proof. unfold next_ids, finishes. by_list_induction l. Qed.

Lemma start_ids_nexts (l : list coro) : start_ids (nexts l) = [].
Proof. unfold start_ids, nexts. by_list_induction l. Qed.

Lemma start_ids_starts (l : list coro) : start_ids (starts l) = ids l.
Proof. unfold start_ids, starts, ids. by_list_induction l. Qed.

Lemma start_ids_finishes (l : list coro) : start_ids (finishes l) = [].
Proof. unfold start_ids, finishes. by_list_induction l. Qed.

Lemma finish_ids_nexts (l : list coro) : finish_ids (nexts l) = [].
Proof. unfold finish_ids, nexts. by_list_induction l. Qed.

Lemma finish_ids_starts (l : list coro) : finish_ids (starts l) = [].
Proof. unfold finish_ids, starts. by_list_induction l. Qed.

Lemma finish_ids_finishes (l : list coro) : finish_ids (finishes l) = ids l.
Proof. unfold finish_ids, finishes, ids. by_list_induction l. Qed.

Lemma samples_nexts (l : list coro) : samples (nexts l) = 0.
Proof. unfold samples, nexts. by_list_induction l. Qed.

Lemma samples_starts (l : list coro) : samples (starts l) = 0.
Proof. unfold samples, starts. by_list_induction l. Qed.

Lemma samples_finishes (l : list coro) : samples (finishes l) = 0.
Proof. unfold samples, finishes. by_list_induction l. Qed.

(** *** The monitor over the pieces of a segment *)

Lemma sequenced_app (bs k : nat) (t1 t2 : events) :
  sequenced bs k (t1 ++ t2) =
  sequenced bs k t1 && sequenced bs (flight k t1) t2.
Proof.
  revert k; induction t1 as [|ev t1 IH]; intros k; [reflexivity|].
  destruct ev; simpl; rewrite ?IH, ?andb_assoc; reflexivity.
Qed.

Lemma flight_app (k : nat) (t1 t2 : events) :
  flight k (t1 ++ t2) = flight (flight k t1) t2.
Proof.
  revert k; induction t1 as [|ev t1 IH]; intros k; [reflexivity|].
  destruct ev; simpl; apply IH.
Qed.

Lemma sequenced_nexts (bs k : nat) (l : list coro) :
  sequenced bs k (nexts l) = true /\ flight k (nexts l) = k.
Proof. induction l as [|c l IH]; simpl; auto. Qed.

Lemma sequenced_starts (bs k : nat) (l : list coro) :
  k + length l <= bs ->
  sequenced bs k (starts l) = true /\ flight k (starts l) = k + length l.
Proof.
  revert k; induction l as [|c l IH]; intros k H; simpl in *.
  - auto.
  - destruct (IH (S k)) as [-> ->]; [lia|].
    replace (k <? bs) with true by (symmetry; apply Nat.ltb_lt; lia).
    split; [reflexivity | lia].
Qed.

Lemma sequenced_finishes (bs k : nat) (l : list coro) :
  length l <= k ->
  sequenced bs k (finishes l) = true /\ flight k (finishes l) = k - length l.
Proof.
  revert k; induction l as [|c l IH]; intros k H; simpl in *.
  - split; [reflexivity | lia].
  - destruct (IH (pred k)) as [-> ->]; [lia|].
    replace (0 <? k) with true by (symmetry; apply Nat.ltb_lt; lia).
    split; [reflexivity | lia].
Qed.

End Trace.
End Trace.

(** ** Sequencing of the chunks *)

Module Sequencing.
Import Asyncio Spec AsyncioFacts Orchestrator Trace.
Section Sequencing.

Variable A : Type.
Variable pick : list (coroutine A) -> nat.
Variable early : list (coroutine A) -> nat.

Abbreviation coro := (coroutine A).

Lemma upto_failure_length (l : list coro) :
  length (upto_failure l) <= length l.
Proof.
  induction l as [|c l IH]; simpl; [lia|].
  destruct (failed c); simpl; lia.
Qed.

Lemma attempted_sequenced (beh : list coro -> behaviour A) (n : nat)
    (cs : list (list coro)) :
  well_sequenced beh n ->
  Forall (fun c => length c <= n) cs ->
  sequenced n 0 (flat_map (segment beh) (attempted beh cs)) = true.
Proof.
  intros Hw Hcs. induction Hcs as [|c cs Hc Hcs IH]; [reflexivity|].
  cbn [attempted flat_map]. rewrite sequenced_app.
  destruct (Hw c Hc) as [-> Hfl]. cbn [andb].
  destruct (bh_out (beh c)) as [rs|e|] eqn:Hout; try reflexivity.
  rewrite (Hfl rs eq_refl). exact IH.
Qed.

Lemma variant_well_sequenced (seconds : Z) (n : nat) :
  well_sequenced (variant_batch pick seconds) n.
Proof.
  intros c Hc. unfold segment, variant_batch; cbn [bh_trace bh_out].
  pose proof (order_length pick c) as Hlen.
  pose proof (upto_failure_length (order pick c)) as Hup.
  rewrite !sequenced_app, !flight_app.
  destruct (@sequenced_nexts A n 0 c) as [-> ->].
  cbn [sequenced flight app Nat.eqb andb].
  destruct (@sequenced_starts A n 0 c) as [-> ->]; [lia|].
  destruct (@sequenced_finishes A n (0 + length c)
              (upto_failure (order pick c)))
    as [-> ->]; [lia|].
  split; [reflexivity|]. intros vs Hout.
  destruct (first_failure (order pick c)) eqn:Hff; [discriminate|].
  destruct (upto_failure_none _ Hff) as [-> _]. lia.
Qed.

Lemma utils_well_sequenced (seconds : Z) (n : nat) :
  well_sequenced (utils_batch pick early seconds) n.
Proof.
  intros c Hc. unfold segment, utils_batch.
  pose proof (order_length pick c) as Hlen.
  set (o := order pick c) in *.
  pose proof (firstn_skipn (early c) o) as Hsplit.
  apply (f_equal (@length _)) in Hsplit. rewrite length_app in Hsplit.
  pose proof (order_length pick (skipn (early c) o)) as Hlen'.
  pose proof (upto_failure_length (order pick (skipn (early c) o))) as Hup.
  destruct (first_failure (firstn (early c) o)) eqn:Hd;
    cbn [bh_trace bh_out].
  - rewrite !sequenced_app, !flight_app.
    destruct (@sequenced_nexts A n 0 c) as [-> ->].
    cbn [sequenced flight app Nat.eqb andb].
    rewrite ?sequenced_app, ?flight_app.
    destruct (@sequenced_starts A n 0 c) as [-> ->]; [lia|].
    destruct (@sequenced_finishes A n (0 + length c) (firstn (early c) o))
      as [-> ->]; [lia|].
    split; [reflexivity | discriminate].
  - rewrite !sequenced_app, !flight_app.
    destruct (@sequenced_nexts A n 0 c) as [-> ->].
    cbn [sequenced flight app Nat.eqb andb].
    rewrite ?sequenced_app, ?flight_app.
    destruct (@sequenced_starts A n 0 c) as [-> ->]; [lia|].
    destruct (@sequenced_finishes A n (0 + length c) (firstn (early c) o))
      as [-> ->]; [lia|].
    cbn [sequenced flight andb].
    destruct (@sequenced_finishes A n
                (0 + length c - length (firstn (early c) o))
                (upto_failure (order pick (skipn (early c) o))))
      as [-> ->]; [lia|].
    split; [reflexivity|]. intros vs Hout.
    destruct (first_failure (order pick (skipn (early c) o))) eqn:Hff;
      [discriminate|].
    destruct (upto_failure_none _ Hff) as [-> _]. lia.
Qed.

Lemma ids_perm (l l' : list coro) :
  Permutation l l' -> Permutation (ids l) (ids l').
Proof. apply Permutation_map. Qed.

Lemma variant_batch_segment (seconds : Z) (c : list coro) (vs : list A) :
  returns c vs ->
  batch_segment seconds c (segment (variant_batch pick seconds) c).
Proof.
  intros Hr. apply first_failure_returns in Hr.
  apply (first_failure_perm (Permutation_sym (order_perm pick c))) in Hr.
  unfold segment, variant_batch; cbn [bh_trace].
  destruct (upto_failure_none _ Hr) as [-> _].
  exists (EvSleepEnd :: starts c ++ finishes (order pick c)).
  split; [reflexivity|].
  change (EvSleepEnd :: starts c ++ finishes (order pick c))
    with ([EvSleepEnd] ++ starts c ++ finishes (order pick c)).
  rewrite !start_ids_app, !finish_ids_app, !samples_app, !next_ids_app.
  rewrite start_ids_starts, start_ids_finishes, finish_ids_starts,
    finish_ids_finishes, samples_starts, samples_finishes,
    next_ids_starts, next_ids_finishes.
  cbn [start_ids finish_ids next_ids samples flat_map filter length app].
  rewrite app_nil_r.
  repeat split; try reflexivity.
  apply ids_perm, order_perm.
Qed.

Lemma utils_batch_segment (seconds : Z) (c : list coro) (vs : list A) :
  returns c vs ->
  batch_segment seconds c (segment (utils_batch pick early seconds) c).
Proof.
  intros Hr. apply first_failure_returns in Hr.
  apply (first_failure_perm (Permutation_sym (order_perm pick c))) in Hr.
  set (o := order pick c) in *.
  assert (HP : Permutation
                 (firstn (early c) o ++ order pick (skipn (early c) o)) c).
  { eapply perm_trans; [|apply (order_perm pick c)].
    fold o. rewrite <- (firstn_skipn (early c) o) at 3.
    apply Permutation_app_head, order_perm. }
  rewrite <- (firstn_skipn (early c) o) in Hr.
  apply first_failure_none_forall in Hr. apply Forall_app in Hr.
  destruct Hr as [Hd Hl].
  apply first_failure_none_forall in Hd.
  apply first_failure_none_forall in Hl.
  apply (first_failure_perm
           (Permutation_sym (order_perm pick (skipn (early c) o)))) in Hl.
  unfold segment, utils_batch. fold o. rewrite Hd. cbn [bh_trace].
  destruct (upto_failure_none _ Hl) as [-> _].
  exists (starts c ++ finishes (firstn (early c) o) ++ [EvSleepEnd]
            ++ finishes (order pick (skipn (early c) o))).
  split.
  { repeat (progress (rewrite <- ?app_assoc; cbn [app])). reflexivity. }
  rewrite !start_ids_app, !finish_ids_app, !samples_app, !next_ids_app.
  rewrite start_ids_starts, !start_ids_finishes, finish_ids_starts,
    !finish_ids_finishes, samples_starts, !samples_finishes,
    next_ids_starts, !next_ids_finishes.
  cbn [start_ids finish_ids next_ids samples flat_map filter length app].
  rewrite app_nil_r.
  repeat split; try reflexivity.
  unfold ids. rewrite <- map_app. apply Permutation_map, HP.
Qed.

(** The trace of a run that returns, cut into the segments of its
    chunks. *)
Lemma returned_segments (beh : list coro -> behaviour A) (seconds : Z)
    (cs : list (list coro)) (vs : list A) :
  sound beh ->
  (forall c vs', returns c vs' -> batch_segment seconds c (segment beh c)) ->
  returns (concat cs) vs ->
  exists segs,
    flat_map (segment beh) cs = concat segs /\
    Forall2 (batch_segment seconds) cs segs.
Proof.
  intros Hs Hseg. revert vs.
  induction cs as [|c cs IH]; intros vs Hr.
  - exists []. split; [reflexivity | constructor].
  - simpl in Hr. apply returns_app_inv in Hr. destruct Hr as [Hc Hcs].
    destruct (IH _ Hcs) as (segs & Heq & Hall).
    exists (segment beh c :: segs). split.
    + simpl. rewrite Heq. reflexivity.
    + constructor; [eapply Hseg, Hc | exact Hall].
Qed.

End Sequencing.
End Sequencing.

(** ** The two orchestrators, run from a fresh loop *)

Module Runs.
Import Asyncio Spec AsyncioFacts Orchestrator Trace Sequencing.
Section Runs.

Variable A : Type.
Variable pick : list (coroutine A) -> nat.
Variable early : list (coroutine A) -> nat.

Abbreviation coro := (coroutine A).

Lemma segments_ids (seconds : Z) (cs : list (list coro))
    (segs : list (list (event A))) :
  Forall2 (batch_segment seconds) cs segs ->
  next_ids (concat segs) = ids (concat cs) /\
  start_ids (concat segs) = ids (concat cs) /\
  Permutation (finish_ids (concat segs)) (ids (concat cs)) /\
  samples (concat segs) = length cs.
Proof.
  induction 1 as [|c seg cs segs Hseg _ IH].
  - repeat split; constructor.
  - destruct IH as (IH1 & IH2 & IH3 & IH4).
    destruct Hseg as (body & -> & Hs & Hf & Hsm & Hn).
    cbn [concat]. unfold ids in *. rewrite map_app.
    rewrite next_ids_app, start_ids_app, finish_ids_app, samples_app.
    rewrite IH1, IH2, IH4.
    rewrite next_ids_app, start_ids_app, finish_ids_app, samples_app.
    rewrite next_ids_nexts, start_ids_nexts, finish_ids_nexts, samples_nexts.
    change (next_ids (EvSample 1 seconds :: EvSleepBegin :: body))
      with (next_ids body).
    change (start_ids (EvSample 1 seconds :: EvSleepBegin :: body))
      with (start_ids body).
    change (finish_ids (EvSample 1 seconds :: EvSleepBegin :: body))
      with (finish_ids body).
    change (samples (EvSample 1 seconds :: EvSleepBegin :: body))
      with (S (samples body)).
    rewrite Hs, Hn, Hsm. unfold ids. rewrite app_nil_r. cbn [app length].
    repeat split; try reflexivity.
    apply Permutation_app; assumption.
Qed.

Section Source.

(** One of the two sources: its run from a fresh loop, and what is known
    of it. *)
Variable run : outcome (list A) * world A.
Variable beh : list coro -> behaviour A.
Variable tasks : list coro.
Variable n : nat.
Variable seconds : Z.

Hypothesis n_pos : 1 <= n.
Hypothesis run_eq : run = run_chunks beh (chunks n tasks) [] [].
Hypothesis beh_sound : sound beh.
Hypothesis beh_seq : well_sequenced beh n.
Hypothesis beh_seg : forall c vs,
  returns c vs -> batch_segment seconds c (segment beh c).

Lemma source_returns (vs : list A) :
  returns tasks vs ->
  run = (Returned vs, mkWorld (flat_map (segment beh) (chunks n tasks))
                              [] [] None).
Proof.
  intros Hr. rewrite run_eq.
  rewrite (@run_chunks_returns A beh beh_sound (chunks n tasks) vs [] []).
  - reflexivity.
  - rewrite chunks_concat by exact n_pos. exact Hr.
Qed.

Lemma source_returned (l : list A) :
  fst run = Returned l ->
  returns tasks l /\
  exists segs,
    trace (snd run) = concat segs /\
    Forall2 (batch_segment seconds) (chunks n tasks) segs.
Proof.
  intros Hl. rewrite run_eq in Hl.
  apply (run_chunks_returned beh_sound) in Hl.
  destruct Hl as (vs & -> & Hr). cbn [app].
  rewrite chunks_concat in Hr by exact n_pos.
  split; [exact Hr|].
  rewrite (source_returns Hr). cbn [snd trace].
  apply (@returned_segments A beh seconds (chunks n tasks) vs beh_sound beh_seg).
  rewrite chunks_concat by exact n_pos. exact Hr.
Qed.

Lemma source_raised (e : exn) :
  fst run = Raised e -> exists c, In c tasks /\ coro_result c = Failed e.
Proof.
  intros He. rewrite run_eq in He.
  apply (run_chunks_raised beh_sound) in He.
  rewrite chunks_concat in He by exact n_pos. exact He.
Qed.

Lemma source_finishes : fst run <> Unfinished.
Proof. rewrite run_eq. apply run_chunks_finishes, beh_sound. Qed.

Lemma source_sequenced : sequenced n 0 (trace (snd run)) = true.
Proof.
  rewrite run_eq, run_chunks_trace. cbn [app].
  apply attempted_sequenced; [exact beh_seq|].
  eapply Forall_impl; [|apply (chunks_bounded tasks n_pos)].
  intros c [_ Hc]. exact Hc.
Qed.

End Source.
End Runs.
End Runs.

(** ** What is known of a run of each source *)

Module Facts.
Import Asyncio Spec AsyncioFacts Orchestrator Trace Sequencing Runs.
Section Facts.

Variable A : Type.
Variable pick : list (coroutine A) -> nat.
Variable early : list (coroutine A) -> nat.

Abbreviation coro := (coroutine A).

Lemma variant_facts (fuel : nat) (tasks : list coro) (batch_size seconds : Z) :
  (1 <= batch_size)%Z -> length tasks < fuel ->
  let v := Variant.execute_batch_with_interval pick early fuel tasks
             batch_size seconds initial in
  summary v tasks (Z.to_nat batch_size) seconds /\
  (forall vs, returns tasks vs -> fst v = Returned vs) /\
  (forall e, fst v = Raised e ->
     exists c, In c tasks /\ coro_result c = Failed e).
Proof.
  intros Hb Hf v.
  assert (Hn : 1 <= Z.to_nat batch_size) by lia.
  assert (Hv : v = run_chunks (variant_batch pick seconds)
                     (chunks (Z.to_nat batch_size) tasks) [] []).
  { apply variant_run; assumption. }
  pose proof (@variant_sound A pick seconds) as Hs.
  pose proof (@variant_well_sequenced A pick seconds (Z.to_nat batch_size))
    as Hw.
  pose proof (@variant_batch_segment A pick seconds) as Hg.
  repeat split.
  - eapply source_returned; eauto.
  - eapply source_returned; eauto.
  - eapply source_finishes; eauto.
  - eapply source_sequenced; eauto.
  - intros vs Hr. pose proof (source_returns Hn Hv Hs Hr) as E.
    rewrite E. reflexivity.
  - intros e He. eapply source_raised; eauto.
Qed.

Lemma utils_facts (fuel : nat) (tasks : list coro) (seconds batch_size : Z) :
  (1 <= batch_size)%Z -> length tasks < fuel ->
  let u := Utils.execute_batch_with_interval pick early fuel tasks
             seconds batch_size initial in
  summary u tasks (Z.to_nat batch_size) seconds /\
  (forall vs, (1 < seconds)%Z -> returns tasks vs -> fst u = Returned vs) /\
  (forall e, fst u = Raised e ->
     ((seconds <= 1)%Z /\ e = invalid_window) \/
     exists c, In c tasks /\ coro_result c = Failed e).
Proof.
  intros Hb Hf u.
  assert (Hn : 1 <= Z.to_nat batch_size) by lia.
  destruct (Z.lt_ge_cases 1 seconds) as [Hs1|Hs1].
  - assert (Hu : u = run_chunks (utils_batch pick early seconds)
                       (chunks (Z.to_nat batch_size) tasks) [] []).
    { apply utils_run; assumption. }
    pose proof (@utils_sound A pick early seconds) as Hs.
    pose proof (@utils_well_sequenced A pick early seconds
                  (Z.to_nat batch_size)) as Hw.
    pose proof (@utils_batch_segment A pick early seconds) as Hg.
    repeat split.
    + eapply source_returned; eauto.
    + eapply source_returned; eauto.
    + eapply source_finishes; eauto.
    + eapply source_sequenced; eauto.
    + intros vs _ Hr. pose proof (source_returns Hn Hu Hs Hr) as E.
      rewrite E. reflexivity.
    + intros e He. right. eapply source_raised; eauto.
  - destruct fuel as [|fuel]; [lia|].
    destruct tasks as [|c tasks'] eqn:Ht.
    + assert (Hu : u = (Returned [], mkWorld [] [] [] None)).
      { apply utils_empty, Hb. }
      rewrite Hu. cbn [fst snd trace].
      repeat split; try discriminate.
      * injection H as <-. reflexivity.
      * exists []. split; [reflexivity | constructor].
      * intros vs Hlt. lia.
    + assert (Hu : u = (Raised invalid_window,
                mkWorld ([] ++ nexts (firstn (Z.to_nat batch_size) (c :: tasks')))
                        (firstn (Z.to_nat batch_size) (c :: tasks')) [] None)).
      { apply utils_invalid_raises; [lia | left; discriminate]. }
      rewrite Hu. cbn [fst snd trace app].
      repeat split; try discriminate.
      * apply sequenced_nexts.
      * intros vs Hlt. lia.
      * intros e He. injection He as <-. left. split; [lia | reflexivity].
Qed.

End Facts.
End Facts.

(** ** The delay between the chunks *)

Module Delays.
Import Asyncio Spec AsyncioFacts Orchestrator Trace Sequencing.
Section Delays.

Variable A : Type.
Variable pick : list (coroutine A) -> nat.
Variable early : list (coroutine A) -> nat.

Abbreviation coro := (coroutine A).
Abbreviation events := (list (event A)).

Lemma separated_app (g : gap) (t1 t2 : events) :
  separated g (t1 ++ t2) = separated g t1 && separated (gap_after g t1) t2.
Proof.
  revert g; induction t1 as [|ev t1 IH]; intros g; [reflexivity|].
  destruct ev; cbn [app separated gap_after fold_left]; try apply IH.
  destruct g; [apply IH | reflexivity | reflexivity].
Qed.

Lemma gap_after_app (g : gap) (t1 t2 : events) :
  gap_after g (t1 ++ t2) = gap_after (gap_after g t1) t2.
Proof. apply fold_left_app. Qed.

Lemma whole_sleep_begun (t : events) :
  whole_sleep false t = true -> whole_sleep true t = true.
Proof.
  induction t as [|ev t IH]; [discriminate|].
  destruct ev; cbn [whole_sleep orb]; auto.
Qed.

(** What the monitor has seen when it lets a task start. *)
Lemma separated_start (g : gap) (t2 : events) (j : nat) (t3 : events) :
  separated g (t2 ++ EvStart j :: t3) = true ->
  match g with
  | Clear => True
  | Worked => whole_sleep false t2 = true
  | Resting => whole_sleep true t2 = true
  end.
Proof.
  revert g; induction t2 as [|ev t2 IH]; intros g H.
  - destruct g; [exact I | discriminate | discriminate].
  - destruct ev, g; cbn [app separated gap_step] in H;
      try discriminate H; cbn [whole_sleep orb];
      try exact I; try reflexivity; try exact (IH _ H);
      apply whole_sleep_begun; exact (IH _ H).
Qed.

(** The monitor is sound for the separation by a delay. *)
Lemma separated_sound (g : gap) (tr : events) :
  separated g tr = true -> delay_separated tr.
Proof.
  intros H t1 i t2 j t3 ->.
  rewrite separated_app in H. apply andb_prop in H. destruct H as [_ H].
  cbn [separated gap_step] in H.
  exact (separated_start Worked t2 j t3 H).
Qed.

Lemma separated_nexts (g : gap) (l : list coro) :
  separated g (nexts l) = true /\ gap_after g (nexts l) = g.
Proof.
  unfold nexts. induction l as [|c l (IH1 & IH2)]; split; auto.
Qed.

Lemma separated_starts (l : list coro) :
  separated Clear (starts l) = true /\ gap_after Clear (starts l) = Clear.
Proof.
  unfold starts. induction l as [|c l (IH1 & IH2)]; split; auto.
Qed.

Lemma separated_finishes (g : gap) (l : list coro) :
  separated g (finishes l) = true.
Proof.
  unfold finishes. revert g; induction l as [|c l IH]; intros g;
    [reflexivity | apply IH].
Qed.

Lemma whole_sleep_nexts (b : bool) (l : list coro) (t : events) :
  whole_sleep b (nexts l ++ t) = whole_sleep b t.
Proof. unfold nexts. induction l as [|c l IH]; [reflexivity | exact IH]. Qed.

(** In the variant the sleep of a chunk has ended when its tasks
    start, whatever came before. *)
Lemma variant_segment_separated (seconds : Z) (g : gap) (c : list coro) :
  separated g (segment (variant_batch pick seconds) c) = true.
Proof.
  unfold segment, variant_batch. cbn [bh_trace].
  rewrite separated_app.
  destruct (separated_nexts g c) as (-> & ->). cbn [andb].
  assert (H : separated Clear
                (starts c ++ finishes (upto_failure (order pick c))) = true).
  { rewrite separated_app.
    destruct (separated_starts c) as (-> & ->).
    apply separated_finishes. }
  destruct g; exact H.
Qed.

Lemma variant_segments_separated (seconds : Z) (cs : list (list coro))
    (g : gap) :
  separated g (flat_map (segment (variant_batch pick seconds)) cs) = true.
Proof.
  revert g; induction cs as [|c cs IH]; intros g; [reflexivity|].
  cbn [flat_map]. rewrite separated_app, variant_segment_separated, IH.
  reflexivity.
Qed.

Lemma variant_delay_separated (fuel : nat) (tasks : list coro)
    (batch_size seconds : Z) :
  (1 <= batch_size)%Z -> length tasks < fuel ->
  delay_separated
    (trace (snd (Variant.execute_batch_with_interval pick early fuel tasks
                   batch_size seconds initial))).
Proof.
  intros Hb Hf. unfold initial.
  rewrite (@variant_run A pick early fuel tasks batch_size seconds [] Hb Hf).
  rewrite run_chunks_trace. cbn [app].
  apply (@separated_sound Clear), variant_segments_separated.
Qed.

(** The events of a chunk of utils.py whose tasks all return. *)
Lemma utils_segment_returned (seconds : Z) (c : list coro) (vs : list A) :
  returns c vs ->
  segment (utils_batch pick early seconds) c =
  nexts c ++ [EvSample 1 seconds; EvSleepBegin] ++ starts c
    ++ finishes (firstn (early c) (order pick c)) ++ [EvSleepEnd]
    ++ finishes (order pick (skipn (early c) (order pick c))).
Proof.
  intros Hr. apply first_failure_returns in Hr.
  apply (first_failure_perm (Permutation_sym (order_perm pick c))) in Hr.
  set (o := order pick c) in *.
  rewrite <- (firstn_skipn (early c) o) in Hr.
  apply first_failure_none_forall in Hr. apply Forall_app in Hr.
  destruct Hr as [Hd Hl].
  apply first_failure_none_forall in Hd.
  apply first_failure_none_forall in Hl.
  apply (first_failure_perm
           (Permutation_sym (order_perm pick (skipn (early c) o)))) in Hl.
  unfold segment, utils_batch. fold o. rewrite Hd. cbn [bh_trace].
  destruct (upto_failure_none _ Hl) as [-> _].
  repeat (progress (rewrite <- ?app_assoc; cbn [app])). reflexivity.
Qed.

Lemma last_or_nil {X} (l : list X) :
  l = [] \/ exists l' y, l = l' ++ [y].
Proof. induction l using rev_ind; [left; reflexivity | right; eauto]. Qed.

(** The last completion of a chunk that returned: after it the segment
    holds at most the end of the chunk's own sleep. *)
Lemma utils_last_finish (seconds : Z) (c : list coro) (vs : list A) :
  returns c vs -> c <> [] ->
  exists t1 i t2,
    segment (utils_batch pick early seconds) c = t1 ++ EvFinish i :: t2 /\
    (t2 = [] \/ t2 = [EvSleepEnd]).
Proof.
  intros Hr Hc. rewrite (utils_segment_returned seconds Hr).
  set (o := order pick c).
  destruct (last_or_nil (order pick (skipn (early c) o)))
    as [Hl | (l & y & Hl)]; rewrite Hl.
  - assert (Hs : skipn (early c) o = []).
    { apply length_zero_iff_nil.
      rewrite <- (order_length pick (skipn (early c) o)), Hl. reflexivity. }
    destruct (last_or_nil (firstn (early c) o)) as [Hd | (d & y & Hd)].
    + exfalso. apply Hc. apply length_zero_iff_nil.
      rewrite <- (order_length pick c). fold o.
      rewrite <- (firstn_skipn (early c) o), Hd, Hs. reflexivity.
    + rewrite Hd.
      exists (nexts c ++ [EvSample 1 seconds; EvSleepBegin] ++ starts c
                ++ finishes d), (coro_id y), [EvSleepEnd].
      split; [|right; reflexivity].
      unfold finishes. rewrite map_app. cbn [map].
      repeat (progress (rewrite <- ?app_assoc; cbn [app])). reflexivity.
  - exists (nexts c ++ [EvSample 1 seconds; EvSleepBegin] ++ starts c
              ++ finishes (firstn (early c) o) ++ [EvSleepEnd]
              ++ finishes l), (coro_id y), [].
    split; [|left; reflexivity].
    unfold finishes. rewrite !map_app. cbn [map].
    repeat (progress (rewrite <- ?app_assoc; cbn [app])). reflexivity.
Qed.

(** In utils.py the tasks of the second chunk start while its sleep is
    under way: no whole sleep lies between the last completion of the
    first chunk and the first start of the second. *)
Lemma utils_not_separated (fuel : nat) (tasks : list coro)
    (seconds batch_size : Z) (vs : list A) :
  (1 < seconds)%Z -> (1 <= batch_size)%Z -> length tasks < fuel ->
  returns tasks vs -> Z.to_nat batch_size < length tasks ->
  exists t1 i t2 j t3,
    trace (snd (Utils.execute_batch_with_interval pick early fuel tasks
                  seconds batch_size initial)) =
    t1 ++ EvFinish i :: t2 ++ EvStart j :: t3 /\
    whole_sleep false t2 = false.
Proof.
  intros Hs Hb Hf Hr Hlen. unfold initial.
  rewrite (@utils_run A pick early fuel tasks seconds batch_size [] Hs Hb Hf).
  set (n := Z.to_nat batch_size) in *.
  assert (Hn : 1 <= n) by (unfold n; lia).
  assert (Ht : tasks <> []) by (intros ->; simpl in Hlen; lia).
  assert (Ht' : skipn n tasks <> []).
  { intros E. apply (f_equal (@length _)) in E.
    rewrite length_skipn in E. simpl in E. lia. }
  rewrite (run_chunks_returns (utils_sound pick early seconds)
             (chunks n tasks) [] []
             ltac:(rewrite chunks_concat by exact Hn; exact Hr)).
  cbn [snd trace app].
  pose proof (chunks_bounded tasks Hn) as Hne.
  rewrite (@chunks_cons _ n tasks Hn Ht) in *.
  rewrite (@chunks_cons _ n (skipn n tasks) Hn Ht') in *.
  set (c1 := firstn n tasks) in *.
  set (c2 := firstn n (skipn n tasks)) in *.
  apply Forall_inv_tail in Hne as Hne2.
  apply Forall_inv in Hne. apply Forall_inv in Hne2.
  destruct Hne as [Hc1 _]. destruct Hne2 as [Hc2 _].
  assert (Hr1 : returns c1 (firstn n vs)) by (apply returns_firstn, Hr).
  assert (Hr2 : returns c2 (firstn n (skipn n vs)))
    by (apply returns_firstn, returns_skipn, Hr).
  cbn [flat_map].
  destruct (utils_last_finish seconds Hr1 Hc1) as (t1 & i & t2 & -> & Ht2).
  rewrite (utils_segment_returned seconds Hr2).
  destruct c2 as [|x c2']; [contradiction Hc2; reflexivity|].
  exists t1, i, (t2 ++ nexts (x :: c2') ++ [EvSample 1 seconds; EvSleepBegin]),
    (coro_id x).
  eexists. split.
  - unfold starts at 1. cbn [map].
    repeat (progress (rewrite <- ?app_assoc; cbn [app])). reflexivity.
  - destruct Ht2 as [-> | ->]; cbn [app whole_sleep orb];
      apply whole_sleep_nexts.
Qed.

End Delays.
End Delays.

(** * The claims about the schedulers *)

Import Asyncio Spec PageSpec Inputs AsyncioFacts Orchestrator Trace Sequencing
  Runs Facts Delays.

(** C1 — for every finite task sequence and every batch_size >= 1,
    whatever the order in which the Tasks of a batch complete ([pick],
    [early]), a list returned by execute_batch_with_interval (either
    source) holds the tasks' values in input order, so has the input's
    length; the iterator handed out every task once, in order, and every
    task was started once and completed once.  A list is returned as soon
    as every task returns (and, in utils.py, the window is valid). *)
Theorem C1_run_batched_preserves_order
    (A : Type) (pick early : list (coroutine A) -> nat) (fuel : nat)
    (tasks : list (coroutine A)) (seconds batch_size : Z) :
  (1 <= batch_size)%Z -> length tasks < fuel ->
  let u := Utils.execute_batch_with_interval pick early fuel tasks
             seconds batch_size initial in
  let v := Variant.execute_batch_with_interval pick early fuel tasks
             batch_size seconds initial in
  (forall run, run = u \/ run = v ->
   forall l, fst run = Returned l ->
     map (@coro_result A) tasks = map (@Done A) l /\
     length l = length tasks /\
     next_ids (trace (snd run)) = ids tasks /\
     start_ids (trace (snd run)) = ids tasks /\
     Permutation (finish_ids (trace (snd run))) (ids tasks)) /\
  (forall vs, returns tasks vs ->
     fst v = Returned vs /\ ((1 < seconds)%Z -> fst u = Returned vs)).
Proof.
  intros Hb Hf u v.
  destruct (utils_facts pick early tasks seconds Hb Hf) as ((Hu & _) & Hur & _).
  destruct (variant_facts pick early tasks seconds Hb Hf)
    as ((Hv & _) & Hvr & _).
  fold u in Hu, Hur. fold v in Hv, Hvr.
  split.
  - intros run Hrun l Hl.
    assert (H : returns tasks l /\
                exists segs, trace (snd run) = concat segs /\
                  Forall2 (batch_segment seconds)
                          (chunks (Z.to_nat batch_size) tasks) segs).
    { destruct Hrun as [-> | ->]; auto. }
    destruct H as (Hr & segs & -> & Hsegs).
    destruct (segments_ids Hsegs) as (H1 & H2 & H3 & _).
    rewrite chunks_concat in H1, H2, H3 by lia.
    repeat split; auto. apply returns_length, Hr.
  - intros vs Hr. split; [apply Hvr, Hr | intros Hs; apply Hur; assumption].
Qed.

Lemma C1_witness :
  (1 <= 2)%Z /\ length demo_tasks < 6 /\
  fst (Utils.execute_batch_with_interval demo_pick demo_early 6 demo_tasks
         2%Z 2%Z initial) = Returned [10; 11; 12; 13; 14].
Proof.
  split; [lia|]. split; [simpl; lia|].
  apply (C1_run_batched_preserves_order demo_pick demo_early demo_tasks 2%Z
           (batch_size := 2%Z) (fuel := 6));
    [lia | simpl; lia | reflexivity | lia].
Defined.

(** C2 — for every batch_size >= 1 and every N tasks, a run of
    execute_batch_with_interval (either source) that returns has sampled
    exactly ceil(N / batch_size) delays; it returns as soon as every task
    does (and, in utils.py, the window is valid).  For N = 0 the run
    leaves no event at all: no delay sampled, no sleep, no task started. *)
Theorem C2_one_delay_per_chunk
    (A : Type) (pick early : list (coroutine A) -> nat) (fuel : nat)
    (tasks : list (coroutine A)) (seconds batch_size : Z) :
  (1 <= batch_size)%Z -> length tasks < fuel ->
  let n := Z.to_nat batch_size in
  let u := Utils.execute_batch_with_interval pick early fuel tasks
             seconds batch_size initial in
  let v := Variant.execute_batch_with_interval pick early fuel tasks
             batch_size seconds initial in
  (forall run, run = u \/ run = v ->
   forall l, fst run = Returned l ->
     samples (trace (snd run)) = (length tasks + n - 1) / n) /\
  (forall vs, returns tasks vs ->
     fst v = Returned vs /\ ((1 < seconds)%Z -> fst u = Returned vs)) /\
  (tasks = [] ->
     u = (Returned [], initial) /\ v = (Returned [], initial)).
Proof.
  intros Hb Hf n u v.
  destruct (utils_facts pick early tasks seconds Hb Hf) as ((Hu & _) & Hur & _).
  destruct (variant_facts pick early tasks seconds Hb Hf)
    as ((Hv & _) & Hvr & _).
  fold u in Hu, Hur. fold v in Hv, Hvr.
  repeat split.
  - intros run Hrun l Hl.
    assert (H : returns tasks l /\
                exists segs, trace (snd run) = concat segs /\
                  Forall2 (batch_segment seconds) (chunks n tasks) segs).
    { destruct Hrun as [-> | ->]; auto. }
    destruct H as (Hr & segs & -> & Hsegs).
    destruct (segments_ids Hsegs) as (_ & _ & _ & ->).
    apply chunks_length. unfold n. lia.
  - apply Hvr, H.
  - intros Hs; apply Hur; assumption.
  - subst tasks. destruct fuel as [|fuel]; [simpl in Hf; lia|].
    apply utils_empty, Hb.
  - subst tasks. unfold v. unfold initial.
    rewrite variant_run by assumption. reflexivity.
Qed.

(** Four tasks in batches of two: two delays, not three; no delay is
    sampled for the empty batch that ends the loop. *)
Example C2_exact_multiple :
  samples (trace (snd (Utils.execute_batch_with_interval demo_pick demo_early 5
                         (firstn 4 demo_tasks) 2%Z 2%Z initial))) = 2 /\
  samples (trace (snd (Variant.execute_batch_with_interval demo_pick demo_early
                         5 (firstn 4 demo_tasks) 2%Z 2%Z initial))) = 2.
Proof. split; reflexivity. Qed.

Lemma C2_witness :
  (1 <= 2)%Z /\ length demo_tasks < 6 /\
  samples (trace (snd (Variant.execute_batch_with_interval demo_pick demo_early
                         6 demo_tasks 2%Z 2%Z initial))) = (5 + 2 - 1) / 2.
Proof.
  split; [lia|]. split; [simpl; lia|].
  refine (proj1 (C2_one_delay_per_chunk demo_pick demo_early demo_tasks 2%Z
                   (batch_size := 2%Z) (fuel := 6) _ _) _ _
                [10; 11; 12; 13; 14] _);
    [lia | simpl; lia | right; reflexivity | reflexivity].
Defined.

(** C3, as stated, fails: the variant validates nothing.  Called with
    seconds = 1 it samples a delay, sleeps, runs the task and returns. *)
Lemma C3_counterexample :
  let run := Variant.execute_batch_with_interval demo_pick demo_early 2
               [mkCoro 0 (Done 7)] 10%Z 1%Z initial in
  fst run = Returned [7] /\
  In EvSleepBegin (trace (snd run)) /\
  In (EvStart 0) (trace (snd run)).
Proof. cbv. intuition. Qed.

(** C3 (amended) — with seconds <= 1, utils.py's sleep_and_execute raises
    ValueError and leaves the loop as it found it: no delay sampled, no
    sleep, its task not awaited.  Hence make_request with delay raises
    before client.get is awaited, execute_with_interval raises on a
    non-empty task sequence, and execute_batch_with_interval raises on a
    non-empty sequence (or with batch_size <= 0) before any delay is
    sampled and before any sleep, having pulled its first batch from the
    iterator and handed it to gather, which has scheduled its Tasks.  On
    an empty sequence both return the empty list without an error.  The
    variant returns the tasks' values whatever seconds is. *)
Theorem C3_invalid_window_utils
    (A : Type) (pick early : list (coroutine A) -> nat)
    (http_get : string -> result string) (seconds : Z) :
  (seconds <= 1)%Z ->
  (forall X (task : M A X) w,
     Utils.sleep_and_execute pick early task seconds w =
     (Raised invalid_window, w)) /\
  (forall url w,
     exists msg,
       Utils.make_request pick early http_get url true (Some seconds) w =
       (Raised (ValueError msg), w)) /\
  (forall X (task : M A X) tasks w,
     Utils.execute_with_interval pick early (task :: tasks) seconds w =
     (Raised invalid_window, w)) /\
  (forall fuel tasks batch_size,
     tasks <> [] \/ (batch_size <= 0)%Z ->
     Utils.execute_batch_with_interval pick early (S fuel) tasks seconds
       batch_size initial =
     (Raised invalid_window,
      mkWorld (nexts (firstn (Z.to_nat batch_size) tasks))
              (firstn (Z.to_nat batch_size) tasks) [] None)) /\
  (forall X w,
     Utils.execute_with_interval pick early (@nil (M A X)) seconds w =
     (Returned [], w)) /\
  (forall fuel batch_size,
     (1 <= batch_size)%Z ->
     Utils.execute_batch_with_interval pick early (S fuel) [] seconds
       batch_size initial = (Returned [], initial)) /\
  (forall fuel tasks batch_size vs,
     (1 <= batch_size)%Z -> length tasks < fuel -> returns tasks vs ->
     fst (Variant.execute_batch_with_interval pick early fuel tasks
            batch_size seconds initial) = Returned vs).
Proof.
  intros Hs. repeat split.
  - intros X task w. apply sleep_and_execute_invalid, Hs.
  - intros url w. unfold Utils.make_request.
    destruct (seconds =? 0)%Z; cbn [andb]; [eexists; reflexivity|].
    eexists. apply sleep_and_execute_invalid, Hs.
  - intros X task tasks w. unfold Utils.execute_with_interval.
    cbn [Utils.for_each_task]. unfold bind.
    rewrite sleep_and_execute_invalid by exact Hs. reflexivity.
  - intros fuel tasks batch_size Hne. unfold initial.
    rewrite utils_invalid_raises by assumption. reflexivity.
  - intros fuel batch_size Hb. apply utils_empty, Hb.
  - intros fuel tasks batch_size vs Hb Hf Hr.
    apply (variant_facts pick early tasks seconds Hb Hf), Hr.
Qed.

Lemma C3_witness :
  (1 <= 1)%Z /\
  Utils.execute_batch_with_interval demo_pick demo_early 1 demo_tasks 1%Z 2%Z
    initial =
  (Raised invalid_window,
   mkWorld [EvNext 0; EvNext 1]
           [mkCoro 0 (Done 10); mkCoro 1 (Done 11)] [] None).
Proof.
  split; [lia|].
  refine (proj1 (proj2 (proj2 (proj2
            (C3_invalid_window_utils demo_pick demo_early
               (fun _ => Failed KeyError) (seconds := 1%Z) _))))
            0 demo_tasks 2%Z _);
    [lia | left; discriminate].
Defined.

(** C4 — in utils.py the batch is handed to gather before
    sleep_and_execute is called, so its Tasks start as soon as the sleep
    suspends the caller, not after it: between EvSleepBegin and
    EvSleepEnd.  The variant sleeps first and gathers afterwards; there
    every Task starts after EvSleepEnd.  Both sample one delay and sleep
    once per batch. *)
Theorem C4_utils_tasks_start_during_sleep
    (A : Type) (pick early : list (coroutine A) -> nat)
    (batch : list (coroutine A)) (seconds : Z) (tr : list (event A)) :
  (1 < seconds)%Z ->
  (exists rest,
     trace (snd (Utils.gather_sleep_and_execute pick early batch seconds
                   (mkWorld tr [] [] None))) =
     tr ++ [EvSample 1 seconds; EvSleepBegin] ++ starts batch ++ rest /\
     In EvSleepEnd rest /\ start_ids rest = [] /\ samples rest = 0) /\
  (exists rest,
     trace (snd (Variant.sleep_then_gather pick early batch seconds
                   (mkWorld tr [] [] None))) =
     tr ++ [EvSample 1 seconds; EvSleepBegin; EvSleepEnd] ++ starts batch
        ++ rest /\
     ~ In EvSleepEnd rest /\ start_ids rest = [] /\ samples rest = 0).
Proof.
  intros Hs. split.
  - rewrite utils_step by exact Hs. cbn [snd trace]. unfold utils_batch.
    set (o := order pick batch).
    destruct (first_failure (firstn (early batch) o)); cbn [bh_trace].
    + exists (finishes (firstn (early batch) o) ++ [EvSleepEnd]).
      repeat split.
      * apply in_or_app. right. left. reflexivity.
      * rewrite start_ids_app, start_ids_finishes. reflexivity.
      * rewrite samples_app, samples_finishes. reflexivity.
    + exists (finishes (firstn (early batch) o) ++ [EvSleepEnd]
                ++ finishes (upto_failure (order pick (skipn (early batch) o)))).
      repeat split.
      * repeat (progress (rewrite <- ?app_assoc; cbn [app])). reflexivity.
      * apply in_or_app. right. left. reflexivity.
      * rewrite !start_ids_app, !start_ids_finishes. reflexivity.
      * rewrite !samples_app, !samples_finishes. reflexivity.
  - rewrite variant_step. cbn [snd trace]. unfold variant_batch.
    cbn [bh_trace].
    exists (finishes (upto_failure (order pick batch))).
    repeat split.
    + unfold finishes. rewrite in_map_iff. intros (c & Hc & _). discriminate.
    + apply start_ids_finishes.
    + apply samples_finishes.
Qed.

Lemma C4_witness :
  (1 < 2)%Z /\
  exists rest,
    trace (snd (Utils.gather_sleep_and_execute demo_pick demo_early
                  [mkCoro 0 (Done 7)] 2%Z (mkWorld [EvNext 0] [] [] None))) =
    [EvNext 0] ++ [EvSample 1 2; EvSleepBegin]
      ++ starts [mkCoro 0 (Done 7)] ++ rest /\
    In EvSleepEnd rest /\ start_ids rest = [] /\ samples rest = 0.
Proof.
  split; [lia|].
  apply (C4_utils_tasks_start_during_sleep demo_pick demo_early
           [mkCoro 0 (Done 7)] (seconds := 2%Z) [EvNext 0]).
  lia.
Defined.

(** The failing input of C4, run: one task, batch_size 1, seconds 2, a
    scheduler under which nothing completes during a sleep.  In utils.py
    the task starts before the sleep has ended; in the variant after. *)
Example C4_failing_input :
  trace (snd (Utils.execute_batch_with_interval (fun _ => 0) (fun _ => 0) 2
                [mkCoro 0 (Done 7)] 2%Z 1%Z initial)) =
  [EvNext 0; EvSample 1 2; EvSleepBegin; EvStart 0; EvSleepEnd; EvFinish 0] /\
  trace (snd (Variant.execute_batch_with_interval (fun _ => 0) (fun _ => 0) 2
                [mkCoro 0 (Done 7)] 1%Z 2%Z initial)) =
  [EvNext 0; EvSample 1 2; EvSleepBegin; EvSleepEnd; EvStart 0; EvFinish 0].
Proof. split; reflexivity. Qed.

(** C5 — in every run of execute_batch_with_interval with
    batch_size >= 1 (either source, whatever the outcome) a delay is
    sampled only when no task is in flight and at most batch_size tasks
    are in flight at any time ([sequenced]); the trace of a run that
    returns is the concatenation, chunk after chunk, of one segment per
    chunk, in which the chunk's tasks are pulled, its delay is sampled,
    its sleep begun, and exactly the chunk's tasks start and all
    complete.  In the variant a delay separates the tasks of different
    chunks: whenever a task starts after a task has completed, a whole
    sleep, begun and ended, lies in between ([delay_separated]).  In
    utils.py it does not: as soon as a second chunk is reached (more
    than batch_size tasks, all returning, seconds > 1), a task of that
    chunk starts after the last completion of the first chunk with no
    whole sleep in between, because the chunk is handed to gather before
    its sleep. *)
Theorem C5_chunks_separated_by_a_delay
    (A : Type) (pick early : list (coroutine A) -> nat) (fuel : nat)
    (tasks : list (coroutine A)) (seconds batch_size : Z) :
  (1 <= batch_size)%Z -> length tasks < fuel ->
  let n := Z.to_nat batch_size in
  let u := Utils.execute_batch_with_interval pick early fuel tasks
             seconds batch_size initial in
  let v := Variant.execute_batch_with_interval pick early fuel tasks
             batch_size seconds initial in
  (forall run, run = u \/ run = v ->
     sequenced n 0 (trace (snd run)) = true /\
     (forall l, fst run = Returned l ->
        exists segs,
          trace (snd run) = concat segs /\
          Forall2 (batch_segment seconds) (chunks n tasks) segs)) /\
  delay_separated (trace (snd v)) /\
  (forall vs, (1 < seconds)%Z -> returns tasks vs -> n < length tasks ->
     exists t1 i t2 j t3,
       trace (snd u) = t1 ++ EvFinish i :: t2 ++ EvStart j :: t3 /\
       whole_sleep false t2 = false).
Proof.
  intros Hb Hf n u v. split; [|split].
  - intros run Hrun.
    destruct (utils_facts pick early tasks seconds Hb Hf)
      as ((Hu & _ & Hus) & _).
    destruct (variant_facts pick early tasks seconds Hb Hf)
      as ((Hv & _ & Hvs) & _).
    destruct Hrun as [-> | ->]; (split; [assumption|]); intros l Hl.
    + apply (Hu l Hl).
    + apply (Hv l Hl).
  - apply variant_delay_separated; assumption.
  - intros vs Hs Hr Hlen.
    apply (@utils_not_separated A pick early fuel tasks seconds batch_size
             vs Hs Hb Hf Hr Hlen).
Qed.

Lemma C5_witness :
  (1 <= 2)%Z /\ length demo_tasks < 6 /\
  delay_separated
    (trace (snd (Variant.execute_batch_with_interval demo_pick demo_early 6
                   demo_tasks 2%Z 2%Z initial))) /\
  (1 < 2)%Z /\ returns demo_tasks [10; 11; 12; 13; 14] /\
  Z.to_nat 2 < length demo_tasks /\
  exists t1 i t2 j t3,
    trace (snd (Utils.execute_batch_with_interval demo_pick demo_early 6
                  demo_tasks 2%Z 2%Z initial)) =
    t1 ++ EvFinish i :: t2 ++ EvStart j :: t3 /\
    whole_sleep false t2 = false.
Proof.
  assert (Hb : (1 <= 2)%Z) by lia.
  assert (Hf : length demo_tasks < 6) by (simpl; lia).
  assert (Hs : (1 < 2)%Z) by lia.
  assert (Hr : returns demo_tasks [10; 11; 12; 13; 14]) by reflexivity.
  assert (Hl : Z.to_nat 2 < length demo_tasks) by (simpl; lia).
  pose proof (@C5_chunks_separated_by_a_delay nat demo_pick demo_early 6
                demo_tasks 2%Z 2%Z Hb Hf) as H.
  cbv zeta in H. destruct H as (_ & Hv & Hu).
  repeat (split; [assumption|]).
  exact (Hu [10; 11; 12; 13; 14] Hs Hr Hl).
Defined.

(** The failing input of C5, run: two tasks, batch_size 1, seconds 2, a
    scheduler under which nothing completes during a sleep.  In utils.py
    task 1 starts right after the sleep of its chunk has begun: between
    the completion of task 0 and the start of task 1 no sleep has ended.
    In the variant the sleep of the second chunk, begun and ended, lies
    between them.  The defect is the one of C4: gather is called before
    sleep_and_execute. *)
Example C5_failing_input :
  trace (snd (Utils.execute_batch_with_interval (fun _ => 0) (fun _ => 0) 3
                [mkCoro 0 (Done 7); mkCoro 1 (Done 8)] 2%Z 1%Z initial)) =
  [EvNext 0; EvSample 1 2; EvSleepBegin; EvStart 0; EvSleepEnd; EvFinish 0]
    ++ [EvNext 1; EvSample 1 2; EvSleepBegin]
    ++ [EvStart 1; EvSleepEnd; EvFinish 1] /\
  whole_sleep false [@EvNext nat 1; EvSample 1 2; EvSleepBegin] = false /\
  trace (snd (Variant.execute_batch_with_interval (fun _ => 0) (fun _ => 0) 3
                [mkCoro 0 (Done 7); mkCoro 1 (Done 8)] 1%Z 2%Z initial)) =
  [EvNext 0; EvSample 1 2; EvSleepBegin; EvSleepEnd; EvStart 0; EvFinish 0]
    ++ [EvNext 1; EvSample 1 2; EvSleepBegin; EvSleepEnd]
    ++ [EvStart 1; EvFinish 1] /\
  whole_sleep false [@EvNext nat 1; EvSample 1 2; EvSleepBegin; EvSleepEnd] =
  true.
Proof. repeat split; reflexivity. Qed.

(** C9 — for every finite task list, batch_size >= 1 and seconds > 1,
    whatever the two schedulers do, the execute_batch_with_interval of
    utils.py returns a list exactly when the one of the variant returns
    it; both return the tasks' values, in order, when every task returns,
    and neither runs forever. *)
Theorem C9_variant_returns_the_same
    (A : Type) (pick early pick' early' : list (coroutine A) -> nat)
    (fuel fuel' : nat) (tasks : list (coroutine A))
    (seconds batch_size : Z) :
  (1 <= batch_size)%Z -> (1 < seconds)%Z ->
  length tasks < fuel -> length tasks < fuel' ->
  let u := Utils.execute_batch_with_interval pick early fuel tasks
             seconds batch_size initial in
  let v := Variant.execute_batch_with_interval pick' early' fuel' tasks
             batch_size seconds initial in
  (forall l, fst u = Returned l <-> fst v = Returned l) /\
  (forall vs, returns tasks vs -> fst u = Returned vs /\ fst v = Returned vs) /\
  fst u <> Unfinished /\ fst v <> Unfinished.
Proof.
  intros Hb Hs Hf Hf' u v.
  destruct (utils_facts pick early tasks seconds Hb Hf)
    as ((Hu & Hun & _) & Hur & _).
  destruct (variant_facts pick' early' tasks seconds Hb Hf')
    as ((Hv & Hvn & _) & Hvr & _).
  fold u in Hu, Hun, Hur. fold v in Hv, Hvn, Hvr.
  repeat split; auto.
  - intros Hl. apply Hvr. apply (Hu l Hl).
  - intros Hl. apply Hur; [exact Hs|]. apply (Hv l Hl).
Qed.

Lemma C9_witness :
  (1 <= 2)%Z /\ (1 < 3)%Z /\ length demo_tasks < 6 /\ length demo_tasks < 9 /\
  fst (Utils.execute_batch_with_interval demo_pick demo_early 6 demo_tasks
         3%Z 2%Z initial) = Returned [10; 11; 12; 13; 14] /\
  fst (Variant.execute_batch_with_interval (fun _ => 0) (fun _ => 5) 9
         demo_tasks 2%Z 3%Z initial) = Returned [10; 11; 12; 13; 14].
Proof.
  split; [lia|]. split; [lia|]. split; [simpl; lia|]. split; [simpl; lia|].
  apply (C9_variant_returns_the_same demo_pick demo_early
           (fun _ => 0) (fun _ => 5) demo_tasks
           (seconds := 3%Z) (batch_size := 2%Z) (fuel := 6) (fuel' := 9));
    [lia | lia | simpl; lia | simpl; lia | reflexivity].
Defined.

(** C10, as stated, fails in utils.py: with batch_size = 0 and
    seconds = 1 the first iteration raises ValueError, so the loop ends. *)
Lemma C10_counterexample :
  ~ (forall fuel,
       fst (Utils.execute_batch_with_interval demo_pick demo_early fuel []
              1%Z 0%Z initial) = Unfinished).
Proof. intros H. specialize (H 1). discriminate H. Qed.

(** C10 (amended) — with batch_size >= 1, execute_batch_with_interval
    (either source) ends, by returning or raising, within
    length tasks + 1 iterations.  With batch_size <= 0 the variant never
    ends, whatever the tasks: after any number of iterations it is still
    running and has sampled a delay and slept, around an empty batch,
    once per iteration; so does utils.py when seconds > 1.  With
    seconds <= 1, utils.py raises ValueError in its first iteration. *)
Theorem C10_termination
    (A : Type) (pick early : list (coroutine A) -> nat) (fuel : nat)
    (tasks : list (coroutine A)) (seconds batch_size : Z) :
  let u := Utils.execute_batch_with_interval pick early fuel tasks
             seconds batch_size initial in
  let v := Variant.execute_batch_with_interval pick early fuel tasks
             batch_size seconds initial in
  let idle := concat (repeat [EvSample 1 seconds; EvSleepBegin; EvSleepEnd]
                             fuel) in
  ((1 <= batch_size)%Z -> length tasks < fuel ->
     fst u <> Unfinished /\ fst v <> Unfinished) /\
  ((batch_size <= 0)%Z -> v = (Unfinished, mkWorld idle [] [] None)) /\
  ((batch_size <= 0)%Z -> (1 < seconds)%Z ->
     u = (Unfinished, mkWorld idle [] [] None)) /\
  ((batch_size <= 0)%Z -> (seconds <= 1)%Z -> 1 <= fuel ->
     u = (Raised invalid_window, initial)).
Proof.
  intros u v idle. split; [|split; [|split]].
  - intros Hb Hf. split.
    + destruct (utils_facts pick early tasks seconds Hb Hf)
        as ((_ & Hn & _) & _).
      exact Hn.
    + destruct (variant_facts pick early tasks seconds Hb Hf)
        as ((_ & Hn & _) & _).
      exact Hn.
  - intros Hb. unfold v, initial. rewrite variant_diverges by exact Hb.
    reflexivity.
  - intros Hb Hs. unfold u, initial. rewrite utils_diverges by assumption.
    reflexivity.
  - intros Hb Hs Hf. destruct fuel as [|fuel']; [lia|].
    unfold u, initial. rewrite utils_invalid_raises by auto.
    replace (Z.to_nat batch_size) with 0 by lia. reflexivity.
Qed.

Lemma C10_witness :
  (0 <= 0)%Z /\
  Variant.execute_batch_with_interval demo_pick demo_early 2 demo_tasks
    0%Z 2%Z initial =
  (Unfinished,
   mkWorld [EvSample 1 2; EvSleepBegin; EvSleepEnd;
            EvSample 1 2; EvSleepBegin; EvSleepEnd] [] [] None).
Proof.
  split; [lia|].
  refine (proj1 (proj2 (C10_termination demo_pick demo_early 2 demo_tasks
                          2%Z 0%Z)) _).
  lia.
Defined.

(** * The pipeline *)

(** ** Nothing but [to_csv] writes the table *)

Module Frame.
Import Asyncio Spec AsyncioFacts Orchestrator.
Section Frame.

Variable A : Type.
Variable pick : list (coroutine A) -> nat.
Variable early : list (coroutine A) -> nat.

Lemma not_csv_starts (l : list (coroutine A)) : Forall (@not_csv A) (starts l).
Proof. induction l; simpl; constructor; simpl; auto. Qed.

Lemma not_csv_finishes (l : list (coroutine A)) : Forall (@not_csv A) (finishes l).
Proof. induction l; simpl; constructor; simpl; auto. Qed.

Lemma not_csv_nexts (l : list (coroutine A)) : Forall (@not_csv A) (nexts l).
Proof. induction l; simpl; constructor; simpl; auto. Qed.

Lemma appends_ret {X} (x : X) : appends (@ret A X x).
Proof. intros w. exists []. rewrite app_nil_r. auto. Qed.

Lemma appends_raise {X} (e : exn) : appends (@raise A X e).
Proof. intros w. exists []. rewrite app_nil_r. auto. Qed.

Lemma appends_unfinished {X} : appends (@unfinished A X).
Proof. intros w. exists []. rewrite app_nil_r. auto. Qed.

Lemma appends_emit (ev : event A) : not_csv ev -> appends (emit ev).
Proof. intros H w. exists [ev]. split; [reflexivity | auto]. Qed.

Lemma appends_bind {X Y} (m : M A X) (k : X -> M A Y) :
  appends m -> (forall x, appends (k x)) -> appends (bind m k).
Proof.
  intros Hm Hk w. unfold bind. destruct (Hm w) as (evs & Ht & Hevs).
  destruct (m w) as [[x|e|] w']; cbn [snd] in Ht.
  - destruct (Hk x w') as (evs' & Ht' & Hevs').
    exists (evs ++ evs'). rewrite Ht', Ht, app_assoc.
    split; [reflexivity | apply Forall_app; auto].
  - exists evs. auto.
  - exists evs. auto.
Qed.

Lemma appends_random_uniform (lo hi : Z) : appends (@random_uniform A lo hi).
Proof.
  intros w. exists [EvSample lo hi]. split; [reflexivity|].
  constructor; simpl; auto.
Qed.

Lemma appends_asyncio_sleep (d : delay) : appends (asyncio_sleep pick early d).
Proof.
  intros [tr rd rn ge]. unfold asyncio_sleep, start_ready, log.
  cbn [trace ready running gather_exn snd]. rewrite fold_settle.
  cbn [trace].
  exists ([EvSleepBegin] ++ starts rd
            ++ finishes (firstn (early (rn ++ rd)) (order pick (rn ++ rd)))
            ++ [EvSleepEnd]).
  split.
  - rewrite <- !app_assoc. reflexivity.
  - apply Forall_app. split; [constructor; simpl; auto|].
    apply Forall_app. split; [apply not_csv_starts|].
    apply Forall_app. split; [apply not_csv_finishes|].
    constructor; simpl; auto.
Qed.

Lemma appends_gather (batch : list (coroutine A)) : appends (gather batch).
Proof. intros w. exists []. rewrite app_nil_r. auto. Qed.

Lemma complete_trace (l : list (coroutine A)) (w : world A) :
  trace (snd (complete l w)) = trace w ++ finishes (upto_failure l).
Proof.
  revert w; induction l as [|c l IH]; intros w; simpl.
  - rewrite app_nil_r. reflexivity.
  - unfold failed. destruct (coro_result c); simpl.
    + rewrite IH. unfold settle; simpl. rewrite <- app_assoc. reflexivity.
    + reflexivity.
Qed.

Lemma appends_await (fut : future A) : appends (await pick fut).
Proof.
  intros w. unfold await.
  destruct (gather_exn w).
  { exists []. rewrite app_nil_r. auto. }
  assert (Hs : exists evs,
    trace (snd (let w1 := start_ready w in
                match complete (order pick (running w1)) w1 with
                | (Returned _, w2) => (collect (children fut), w2)
                | (Raised e, w2) => (Raised e, w2)
                | (Unfinished, w2) => (Unfinished, w2)
                end)) = trace w ++ evs /\ Forall (@not_csv A) evs).
  { cbv zeta.
    pose proof (complete_trace (order pick (running (start_ready w)))
                  (start_ready w)) as Ht.
    exists (starts (ready w)
              ++ finishes (upto_failure
                             (order pick (running (start_ready w))))).
    split.
    - destruct (complete (order pick (running (start_ready w)))
                  (start_ready w)) as [[u|e|] w2]; cbn [snd] in *;
        rewrite Ht; unfold start_ready; cbn [trace];
        rewrite <- app_assoc; reflexivity.
    - apply Forall_app. split;
        [apply not_csv_starts | apply not_csv_finishes]. }
  destruct (ready w); [destruct (running w)|]; try exact Hs.
  exists []. rewrite app_nil_r. auto.
Qed.

Lemma appends_sleep_and_execute {X} (task : M A X) (seconds : Z) :
  appends task -> appends (Utils.sleep_and_execute pick early task seconds).
Proof.
  intros Ht. unfold Utils.sleep_and_execute.
  destruct (seconds <=? 1)%Z; [apply appends_raise|].
  apply appends_bind; [apply appends_random_uniform|]. intros d.
  apply appends_bind; [apply appends_asyncio_sleep | auto].
Qed.

Lemma appends_client_get (http_get : string -> result string) (url : string) :
  appends (@Utils.client_get A http_get url).
Proof.
  unfold Utils.client_get. apply appends_bind.
  - apply appends_emit. exact I.
  - intros _. destruct (http_get url); [apply appends_ret | apply appends_raise].
Qed.

Lemma appends_make_request (http_get : string -> result string)
    (url : string) (delay : bool) (seconds : option Z) :
  appends (Utils.make_request pick early http_get url delay seconds).
Proof.
  unfold Utils.make_request.
  destruct (delay && _); [apply appends_raise|].
  destruct delay; [|apply appends_client_get].
  destruct seconds; [|apply appends_raise].
  apply appends_sleep_and_execute, appends_client_get.
Qed.

Lemma appends_for_each_task {X} (tasks : list (M A X)) (seconds : Z)
    (results : list X) :
  Forall (@appends A X) tasks ->
  appends (Utils.for_each_task pick early tasks seconds results).
Proof.
  intros H. revert results. induction H as [|task tasks Ht _ IH];
    intros results; cbn [Utils.for_each_task].
  - apply appends_ret.
  - apply appends_bind; [apply appends_sleep_and_execute, Ht|].
    intros r. apply IH.
Qed.

Lemma appends_fill_batch (n : nat) (task_iter batch : list (coroutine A)) :
  appends (Utils.fill_batch n task_iter batch).
Proof.
  revert task_iter batch; induction n as [|n IH]; intros it batch; simpl.
  - apply appends_ret.
  - destruct it; [apply appends_ret|].
    apply appends_bind; [apply appends_emit; exact I | intros _; apply IH].
Qed.

Lemma appends_execute_batch (fuel : nat) (tasks : list (coroutine A))
    (seconds batch_size : Z) :
  appends (Utils.execute_batch_with_interval pick early fuel tasks seconds
             batch_size).
Proof.
  unfold Utils.execute_batch_with_interval. generalize (@nil A) as results.
  revert tasks. induction fuel as [|fuel IH]; intros tasks results;
    cbn [Utils.while_true].
  - apply appends_unfinished.
  - assert (Hstep : forall batch,
      appends (Utils.gather_sleep_and_execute pick early batch seconds)).
    { intros batch. apply appends_bind; [apply appends_gather|].
      intros fut. apply appends_sleep_and_execute, appends_await. }
    apply appends_bind; [apply appends_fill_batch|].
    intros [[stop batch] it']. destruct stop.
    + destruct batch; [apply appends_ret|].
      apply appends_bind; [apply Hstep | intros rs; apply appends_ret].
    + apply appends_bind; [apply Hstep | intros rs; apply IH].
Qed.

End Frame.
End Frame.

(** ** The driver, page by page *)

Module Pipeline.
Import Asyncio Spec PageSpec AsyncioFacts Orchestrator Frame BookSpider.
Section Pipeline.

Variable pick : list (coroutine book) -> nat.
Variable early : list (coroutine book) -> nat.
Variable http_get : string -> result string.
Variable select_one : string -> string -> option tag.
Variable find : string -> string -> option tag.
Variable find_class : string -> string -> option tag.
Variable find_all_class : string -> string -> list tag.
Variable urljoin : string -> string -> result string.

Abbreviation the_details :=
  (scrape_book_details select_one find find_class).
Abbreviation the_links := (scrape_book_links find_all_class urljoin).
Abbreviation the_book_data :=
  (get_book_data pick early http_get select_one find find_class).
Abbreviation the_tasks :=
  (detail_tasks pick early http_get select_one find find_class).
Abbreviation the_books :=
  (get_books pick early http_get select_one find find_class find_all_class
             urljoin).
Abbreviation the_main :=
  (main pick early http_get select_one find find_class find_all_class
        urljoin).
Abbreviation the_segment := (page_segment pick early).
Abbreviation the_page_ok :=
  (page_ok http_get select_one find find_class find_all_class urljoin).
Abbreviation the_page_fails :=
  (page_fails http_get select_one find find_class find_all_class urljoin).

(** What a detail Task ends with: the page is fetched (after the Task's
    own delay), then scraped. *)
Lemma get_book_data_result (url : string) :
  task_result (the_book_data url) =
  bind_result (http_get url) the_details.
Proof.
  unfold task_result, get_book_data, Utils.make_request, SLEEP_TIME.
  cbn [andb Z.eqb]. unfold bind at 1, initial.
  rewrite sleep_and_execute_valid by lia.
  unfold Utils.client_get, bind, emit, log.
  cbn [trace ready running gather_exn].
  destruct (http_get url) as [response|e]; cbn [ret raise bind_result fst];
    [|reflexivity].
  unfold lift. destruct (the_details response); reflexivity.
Qed.

Lemma detail_tasks_results (links : list string) :
  map (@coro_result book) (the_tasks links) =
  map (fun link => bind_result (http_get link) the_details) links.
Proof.
  unfold detail_tasks. rewrite map_map. cbn [coro_result].
  generalize 0 as k. induction links as [|link links IH]; intros k;
    [reflexivity|].
  cbn [length seq combine map snd]. rewrite get_book_data_result.
  f_equal. apply IH.
Qed.

Lemma detail_tasks_length (links : list string) :
  length (the_tasks links) = length links.
Proof.
  pose proof (f_equal (@length _) (detail_tasks_results links)) as H.
  rewrite !length_map in H. exact H.
Qed.

Lemma detail_tasks_return (links : list string) (record : string -> book) :
  (forall link, In link links ->
     bind_result (http_get link) the_details = Done (record link)) ->
  returns (the_tasks links) (map record links).
Proof.
  intros H. unfold returns. rewrite detail_tasks_results, map_map.
  apply map_ext_in. exact H.
Qed.

(** One listing page, all going well. *)
Lemma get_books_returns (fuel : nat) (url : string) (links : list string)
    (record : string -> book) tr :
  bind_result (http_get url) the_links = Done links ->
  (forall link, In link links ->
     bind_result (http_get link) the_details = Done (record link)) ->
  length links < fuel ->
  the_books fuel url (mkWorld tr [] [] None) =
  (Returned (map record links),
   mkWorld (tr ++ EvGet url
               :: flat_map the_segment
                    (chunks (Z.to_nat BATCH_SIZE) (the_tasks links)))
           [] [] None).
Proof.
  intros Hl Hd Hf. unfold get_books, Utils.make_request. cbn [andb].
  unfold bind at 1. unfold Utils.client_get, bind at 1, emit, log.
  cbn [trace ready running gather_exn].
  destruct (http_get url) as [response|e]; [|discriminate].
  cbn [bind_result] in Hl. cbn [ret]. unfold bind at 1. rewrite Hl.
  cbn [lift ret].
  rewrite utils_run;
    [|unfold SLEEP_TIME; lia | unfold BATCH_SIZE; lia
     |rewrite detail_tasks_length; exact Hf].
  rewrite (@run_chunks_returns book _ (utils_sound pick early SLEEP_TIME)
             _ (map record links)).
  - cbn [app]. rewrite <- app_assoc. reflexivity.
  - rewrite chunks_concat by (unfold BATCH_SIZE; lia).
    apply detail_tasks_return, Hd.
Qed.

(** The sequential scheduler over tasks that each return from a quiet
    loop and leave it quiet. *)
Lemma for_each_task_returns {I X} (f : I -> M book X) (r : I -> X)
    (d : I -> list (event book)) (seconds : Z) (l : list I) :
  (1 < seconds)%Z ->
  (forall i tr, In i l ->
     f i (mkWorld tr [] [] None) =
     (Returned (r i), mkWorld (tr ++ d i) [] [] None)) ->
  forall results tr,
    Utils.for_each_task pick early (map f l) seconds results
      (mkWorld tr [] [] None) =
    (Returned (results ++ map r l),
     mkWorld (tr ++ flat_map
                      (fun i => [EvSample 1 seconds; EvSleepBegin; EvSleepEnd]
                                  ++ d i) l)
             [] [] None).
Proof.
  intros Hs. induction l as [|i l IH]; intros Hf results tr.
  - simpl. rewrite !app_nil_r. reflexivity.
  - cbn [map Utils.for_each_task]. unfold bind.
    rewrite sleep_and_execute_valid by exact Hs.
    rewrite Hf by (left; reflexivity).
    rewrite IH by (intros; apply Hf; right; assumption).
    cbn [flat_map map]. rewrite <- !app_assoc. reflexivity.
Qed.

(** The whole run, all going well. *)
Lemma main_returns (fuel : nat) (links : nat -> list string)
    (record : string -> book) :
  (forall i, In i (seq 1 50) ->
     bind_result (http_get (URL_format i)) the_links = Done (links i)) ->
  (forall i link, In i (seq 1 50) -> In link (links i) ->
     bind_result (http_get link) the_details = Done (record link)) ->
  (forall i, In i (seq 1 50) -> length (links i) < fuel) ->
  the_main fuel initial =
  (Returned tt,
   mkWorld
     (flat_map
        (fun i =>
           [EvSample 1 SLEEP_TIME; EvSleepBegin; EvSleepEnd]
             ++ EvGet (URL_format i)
             :: flat_map the_segment
                  (chunks (Z.to_nat BATCH_SIZE) (the_tasks (links i))))
        (seq 1 50)
      ++ [EvToCsv (flat_map (fun i => map record (links i)) (seq 1 50))])
     [] [] None).
Proof.
  intros Hl Hd Hf. unfold main, Utils.execute_with_interval, initial.
  unfold bind.
  rewrite (@for_each_task_returns nat (list book)
             (fun i => the_books fuel (URL_format i))
             (fun i => map record (links i))
             (fun i => EvGet (URL_format i)
                       :: flat_map the_segment
                            (chunks (Z.to_nat BATCH_SIZE)
                                    (the_tasks (links i))))).
  - cbn [app]. unfold to_csv, emit, log. cbn [trace ready running gather_exn].
    rewrite flat_map_concat_map. reflexivity.
  - unfold SLEEP_TIME. lia.
  - intros i tr Hi. apply get_books_returns; auto.
    intros link Hlink. apply (Hd i); assumption.
Qed.

(** Whatever happens, the table is written only by a run that returns. *)
Lemma main_writes_last (fuel : nat) (o : outcome unit) (w : world book) :
  the_main fuel initial = (o, w) ->
  o <> Returned tt ->
  forall rows, ~ In (EvToCsv rows) (trace w).
Proof.
  unfold main, bind. intros Hm Ho rows.
  assert (Ha : appends
    (Utils.execute_with_interval pick early
       (map (fun i => the_books fuel (URL_format i)) (seq 1 50)) SLEEP_TIME)).
  { apply appends_for_each_task. apply Forall_forall. intros task Ht.
    apply in_map_iff in Ht. destruct Ht as (i & <- & _).
    unfold get_books.
    apply appends_bind; [apply appends_make_request|]. intros response.
    apply appends_bind.
    - unfold lift. destruct (the_links response);
        [apply appends_ret | apply appends_raise].
    - intros links. apply appends_execute_batch. }
  destruct (Ha initial) as (evs & Ht & Hevs).
  destruct (Utils.execute_with_interval pick early _ SLEEP_TIME initial)
    as [[results|e|] w'].
  - unfold to_csv, emit in Hm. injection Hm as <- _. congruence.
  - injection Hm as _ <-. cbn [snd trace initial app] in Ht. rewrite Ht.
    intros Hin. rewrite Forall_forall in Hevs. apply (Hevs _ Hin).
  - injection Hm as _ <-. cbn [snd trace initial app] in Ht. rewrite Ht.
    intros Hin. rewrite Forall_forall in Hevs. apply (Hevs _ Hin).
Qed.

(** *** A page that fails *)

Lemma get_books_raises (fuel : nat) (i : nat) (e : exn) :
  the_page_fails fuel i e ->
  exists e',
    the_page_fails fuel i e' /\
    forall tr,
      fst (the_books fuel (URL_format i) (mkWorld tr [] [] None)) = Raised e'.
Proof.
  intros [Hl | (ls & Hl & Hf & link & Hin & Hd)].
  - exists e. split; [left; exact Hl|]. intros tr.
    unfold get_books, Utils.make_request. cbn [andb].
    unfold bind at 1. unfold Utils.client_get, bind at 1, emit, log.
    cbn [trace ready running gather_exn].
    destruct (http_get (URL_format i)) as [response|e1];
      cbn [bind_result] in Hl.
    + cbn [ret]. unfold bind. rewrite Hl. reflexivity.
    + injection Hl as ->. reflexivity.
  - pose proof (utils_sound pick early SLEEP_TIME) as Hs.
    set (cs := chunks (Z.to_nat BATCH_SIZE) (the_tasks ls)).
    assert (Hcs : concat cs = the_tasks ls).
    { apply chunks_concat. unfold BATCH_SIZE. lia. }
    assert (Hrun : forall tr,
      the_books fuel (URL_format i) (mkWorld tr [] [] None) =
      run_chunks (utils_batch pick early SLEEP_TIME) cs []
                 (tr ++ [EvGet (URL_format i)])).
    { intros tr. unfold get_books, Utils.make_request. cbn [andb].
      unfold bind at 1. unfold Utils.client_get, bind at 1, emit, log.
      cbn [trace ready running gather_exn].
      destruct (http_get (URL_format i)) as [response|e1]; [|discriminate].
      cbn [bind_result] in Hl. cbn [ret]. unfold bind at 1. rewrite Hl.
      cbn [lift ret]. apply utils_run.
      - unfold SLEEP_TIME. lia.
      - unfold BATCH_SIZE. lia.
      - rewrite detail_tasks_length. exact Hf. }
    assert (Hdone : forall l tr,
      fst (run_chunks (utils_batch pick early SLEEP_TIME) cs [] tr)
        <> Returned l).
    { intros l tr Hr. apply (run_chunks_returned Hs) in Hr.
      destruct Hr as (vs & _ & Hr). rewrite Hcs in Hr.
      unfold returns in Hr. rewrite detail_tasks_results in Hr.
      assert (H : In (Failed e) (map (@Done book) vs)).
      { rewrite <- Hr, <- Hd. apply in_map_iff. exists link. auto. }
      apply in_map_iff in H. destruct H as (b & Hb & _). discriminate. }
    destruct (fst (run_chunks (utils_batch pick early SLEEP_TIME) cs [] []))
      as [l|e'|] eqn:H0.
    + exfalso. apply (Hdone l []), H0.
    + exists e'. apply (run_chunks_raised Hs) in H0 as Hc.
      destruct Hc as (c & Hc & Hce). rewrite Hcs in Hc.
      assert (H : In (Failed e') (map (@coro_result book) (the_tasks ls))).
      { rewrite <- Hce. apply in_map, Hc. }
      rewrite detail_tasks_results in H. apply in_map_iff in H.
      destruct H as (link' & Hd' & Hin').
      split.
      * right. exists ls. repeat split; auto. exists link'. auto.
      * intros tr. rewrite Hrun. rewrite run_chunks_fst with (tr' := []).
        exact H0.
    + exfalso. apply (run_chunks_finishes Hs cs [] []), H0.
Qed.

Lemma for_each_task_raises {I X} (f : I -> M book X) (r : I -> X)
    (d : I -> list (event book)) (seconds : Z) (l1 l2 : list I) (i : I)
    (e : exn) :
  (1 < seconds)%Z ->
  (forall j tr, In j l1 ->
     f j (mkWorld tr [] [] None) =
     (Returned (r j), mkWorld (tr ++ d j) [] [] None)) ->
  (forall tr, fst (f i (mkWorld tr [] [] None)) = Raised e) ->
  forall results tr,
    fst (Utils.for_each_task pick early (map f (l1 ++ i :: l2)) seconds
           results (mkWorld tr [] [] None)) = Raised e.
Proof.
  intros Hs. induction l1 as [|j l1 IH]; intros Hf Hi results tr.
  - cbn [app map Utils.for_each_task]. unfold bind.
    rewrite sleep_and_execute_valid by exact Hs.
    specialize (Hi (tr ++ [EvSample 1 seconds; EvSleepBegin; EvSleepEnd])).
    destruct (f i _) as [[x|e'|] w']; cbn [fst] in *; congruence.
  - cbn [app map Utils.for_each_task]. unfold bind.
    rewrite sleep_and_execute_valid by exact Hs.
    rewrite Hf by (left; reflexivity).
    apply IH; [|exact Hi]. intros; apply Hf; right; assumption.
Qed.

(** The first page that fails ends the run with one of its errors. *)
Lemma main_raises (fuel : nat) (links : nat -> list string)
    (record : string -> book) (i : nat) (e : exn) :
  In i (seq 1 50) ->
  (forall j, In j (seq 1 (i - 1)) -> the_page_ok fuel links record j) ->
  the_page_fails fuel i e ->
  exists e', the_page_fails fuel i e' /\ fst (the_main fuel initial) = Raised e'.
Proof.
  intros Hi Hok Hfail. apply in_seq in Hi.
  destruct (get_books_raises Hfail) as (e' & Hfail' & Hraise).
  exists e'. split; [exact Hfail'|].
  unfold main, Utils.execute_with_interval, initial.
  assert (Hseq : seq 1 50 = seq 1 (i - 1) ++ i :: seq (S i) (50 - i)).
  { replace 50 with ((i - 1) + S (50 - i)) at 1 by lia.
    rewrite seq_app. replace (1 + (i - 1)) with i by lia. reflexivity. }
  rewrite Hseq. unfold bind.
  pose proof (@for_each_task_raises nat (list book)
                (fun i => the_books fuel (URL_format i))
                (fun j => map record (links j))
                (fun j => EvGet (URL_format j)
                          :: flat_map the_segment
                               (chunks (Z.to_nat BATCH_SIZE)
                                       (the_tasks (links j))))
                SLEEP_TIME (seq 1 (i - 1)) (seq (S i) (50 - i)) i e') as H.
  specialize (H ltac:(unfold SLEEP_TIME; lia)).
  assert (H1 : forall j tr, In j (seq 1 (i - 1)) ->
    the_books fuel (URL_format j) (mkWorld tr [] [] None) =
    (Returned (map record (links j)),
     mkWorld (tr ++ EvGet (URL_format j)
                 :: flat_map the_segment
                      (chunks (Z.to_nat BATCH_SIZE) (the_tasks (links j))))
             [] [] None)).
  { intros j tr Hj. destruct (Hok j Hj) as (Ha & Hb & Hc).
    apply get_books_returns; assumption. }
  specialize (H H1 Hraise [] []).
  destruct (Utils.for_each_task pick early _ SLEEP_TIME [] _)
    as [[x|e''|] w']; cbn [fst] in *; congruence.
Qed.

End Pipeline.
End Pipeline.

(** ** What the two regular expressions find *)

Module Regex.
Import BookSpider PageSpec.
Local Open Scope string_scope.

Lemma append_assoc (x y z : string) : (x ++ y) ++ z = x ++ (y ++ z).
Proof. induction x as [|c x IH]; simpl; [reflexivity | rewrite IH; reflexivity]. Qed.

Lemma span_digits_spec (s ds rest : string) :
  span_digits s = (ds, rest) ->
  s = ds ++ rest /\ all_digits ds = true /\ stops rest = true.
Proof.
  revert ds rest; induction s as [|c s IH]; intros ds rest H; simpl in H.
  - injection H as <- <-. auto.
  - destruct (is_digit c) eqn:Hc.
    + destruct (span_digits s) as [ds' rest'].
      injection H as <- <-.
      destruct (IH ds' rest' eq_refl) as (-> & Hds & Hrest).
      simpl. rewrite Hc, Hds. auto.
    + injection H as <- <-. simpl. rewrite Hc. auto.
Qed.

Lemma search_digits_spec (s m : string) :
  search_digits s = Some m ->
  exists pre post,
    s = pre ++ m ++ post /\
    no_digit pre = true /\
    m <> EmptyString /\ all_digits m = true /\
    stops post = true.
Proof.
  revert m; induction s as [|c s IH]; intros m H; [discriminate|].
  cbn [search_digits] in H. destruct (is_digit c) eqn:Hc.
  - destruct (span_digits (String c s)) as [ds rest] eqn:Hspan.
    cbn [fst] in H. injection H as <-.
    destruct (span_digits_spec _ Hspan) as (Hs & Hds & Hrest).
    exists EmptyString, rest. cbn [append].
    split; [exact Hs|]. split; [reflexivity|].
    split; [|split; assumption].
    cbn [span_digits] in Hspan. rewrite Hc in Hspan.
    destruct (span_digits s) as [ds' rest'].
    intros E. rewrite E in Hspan. discriminate Hspan.
  - destruct (IH m H) as (pre & post & -> & Hpre & Hm & Hds & Hpost).
    exists (String c pre), post. simpl. rewrite Hc. auto.
Qed.

Lemma match_price_spec (s m : string) :
  match_price s = Some m ->
  price_shaped m /\ exists post, s = m ++ post.
Proof.
  unfold match_price. intros H.
  destruct (span_digits s) as [ds rest] eqn:Hspan.
  destruct (span_digits_spec _ Hspan) as (-> & Hds & _).
  destruct ds as [|d ds]; [discriminate|].
  destruct rest as [|dot rest]; [discriminate|].
  destruct dot as [[] [] [] [] [] [] [] []]; try discriminate.
  destruct rest as [|a rest]; [discriminate|].
  destruct rest as [|b rest]; [discriminate|].
  destruct (is_digit a) eqn:Ha; [|discriminate].
  destruct (is_digit b) eqn:Hb; [|discriminate].
  injection H as <-. split.
  - exists (String d ds), a, b. repeat split; auto. discriminate.
  - exists rest. cbn [append]. rewrite append_assoc. reflexivity.
Qed.

(** The match of [search_price] has the shape of a price, occurs in the
    text, and no match begins further left. *)
Lemma search_price_spec (s m : string) :
  search_price s = Some m ->
  price_shaped m /\
  exists pre post,
    s = pre ++ m ++ post /\
    forall pre1 pre2,
      pre = pre1 ++ pre2 -> pre2 <> EmptyString ->
      match_price (pre2 ++ m ++ post) = None.
Proof.
  revert m; induction s as [|c s IH]; intros m H; [discriminate|].
  cbn [search_price] in H.
  destruct (match_price (String c s)) as [m'|] eqn:Hm.
  - injection H as <-. destruct (match_price_spec _ Hm) as (Hshape & post & Hs).
    split; [exact Hshape|]. exists EmptyString, post. split; [exact Hs|].
    intros pre1 pre2 Hpre Hne. destruct pre1; simpl in Hpre; congruence.
  - destruct (IH m H) as (Hshape & pre & post & -> & Hleft).
    split; [exact Hshape|]. exists (String c pre), post.
    split; [reflexivity|]. intros pre1 pre2 Hpre Hne.
    destruct pre1 as [|c1 pre1]; simpl in Hpre.
    + subst pre2. exact Hm.
    + injection Hpre as _ Hpre. apply (Hleft pre1 pre2); assumption.
Qed.

End Regex.

(** * The claims about the pipeline *)

Import BookSpider Pipeline Regex.

Local Open Scope string_scope.

(** C6 — a group with a failing task never returns a list: the batch
    primitive of either source raises the exception of one of its tasks
    (utils.py raises ValueError instead when the window is invalid).  In
    the driver, the table is written only by a run that returns; and the
    first page on which the listing fetch, the link extraction or a
    detail task fails ends the run with an error of that page: nothing
    catches it. *)
Theorem C6_fail_fast
    (pick early : list (coroutine book) -> nat)
    (http_get : string -> result string)
    (select_one find find_class : string -> string -> option tag)
    (find_all_class : string -> string -> list tag)
    (urljoin : string -> string -> result string) (fuel : nat) :
  let run_main :=
    main pick early http_get select_one find find_class find_all_class
         urljoin fuel initial in
  (forall tasks seconds batch_size c0 e0,
     (1 <= batch_size)%Z -> length tasks < fuel ->
     In c0 tasks -> coro_result c0 = Failed e0 ->
     (exists e,
        fst (Variant.execute_batch_with_interval pick early fuel tasks
               batch_size seconds initial) = Raised e /\
        exists c, In c tasks /\ coro_result c = Failed e) /\
     (exists e,
        fst (Utils.execute_batch_with_interval pick early fuel tasks
               seconds batch_size initial) = Raised e /\
        (((seconds <= 1)%Z /\ e = invalid_window) \/
         exists c, In c tasks /\ coro_result c = Failed e))) /\
  (fst run_main <> Returned tt ->
   forall rows, ~ In (EvToCsv rows) (trace (snd run_main))) /\
  (forall links record i e,
     In i (seq 1 50) ->
     (forall j, In j (seq 1 (i - 1)) ->
        page_ok http_get select_one find find_class find_all_class urljoin
                fuel links record j) ->
     page_fails http_get select_one find find_class find_all_class urljoin
                fuel i e ->
     exists e',
       page_fails http_get select_one find find_class find_all_class urljoin
                  fuel i e' /\
       fst run_main = Raised e' /\
       forall rows, ~ In (EvToCsv rows) (trace (snd run_main))).
Proof.
  intros run_main.
  assert (Hcsv : fst run_main <> Returned tt ->
                 forall rows, ~ In (EvToCsv rows) (trace (snd run_main))).
  { intros Hne. apply (@main_writes_last pick early http_get select_one find
                         find_class find_all_class urljoin fuel
                         (fst run_main) (snd run_main)).
    - apply surjective_pairing.
    - exact Hne. }
  split; [|split; [exact Hcsv|]].
  - intros tasks seconds batch_size c0 e0 Hb Hf Hin Hc0.
    assert (Hno : forall l, ~ returns tasks l).
    { intros l Hr. unfold returns in Hr.
      assert (H : In (Failed e0) (map (@Done book) l)).
      { rewrite <- Hr, <- Hc0. apply in_map, Hin. }
      apply in_map_iff in H. destruct H as (b & Hb' & _). discriminate. }
    destruct (variant_facts pick early tasks seconds Hb Hf)
      as ((Hv & Hvn & _) & _ & Hvr).
    destruct (utils_facts pick early tasks seconds Hb Hf)
      as ((Hu & Hun & _) & _ & Hur).
    split.
    + destruct (fst (Variant.execute_batch_with_interval pick early fuel tasks
                       batch_size seconds initial)) as [l|e|] eqn:Hout.
      * exfalso. apply (Hno l), (Hv l eq_refl).
      * exists e. split; [reflexivity | apply Hvr; reflexivity].
      * congruence.
    + destruct (fst (Utils.execute_batch_with_interval pick early fuel tasks
                       seconds batch_size initial)) as [l|e|] eqn:Hout.
      * exfalso. apply (Hno l), (Hu l eq_refl).
      * exists e. split; [reflexivity | apply Hur; reflexivity].
      * congruence.
  - intros links record i e Hi Hok Hfail.
    destruct (main_raises pick early Hi Hok Hfail) as (e' & Hfail' & Hmain).
    exists e'. split; [exact Hfail'|]. split; [exact Hmain|].
    apply Hcsv. fold run_main in Hmain. rewrite Hmain. discriminate.
Qed.

Lemma C6_witness :
  (1 <= 2)%Z /\
  exists e,
    fst (Variant.execute_batch_with_interval demo_book_pick demo_book_early 4
           demo_failing 2%Z 2%Z initial) = Raised e /\
    exists c, In c demo_failing /\ coro_result c = Failed e.
Proof.
  split; [lia|].
  refine (proj1 (proj1 (C6_fail_fast demo_book_pick demo_book_early demo_get
                          demo_select_one demo_select_one demo_find_class
                          demo_find_all_class demo_urljoin 4)
                   demo_failing 2%Z 2%Z (mkCoro 1 (Failed (TaskError 1)))
                   (TaskError 1) _ _ _ _));
    [lia | simpl; lia | right; left; reflexivity | reflexivity].
Defined.



(** C8 — on a detail page on which the parser finds the genre link, the
    h1, the price, the stock line and the first table cell, and on which
    the price text holds a price and the stock text a digit,
    scrape_book_details returns the dict with exactly the keys genre,
    title, price, stock and upc, in this order; its price is the leftmost
    digits-dot-two-digits occurrence in the price text, its stock the
    first run of digits of the stock text, taken whole. *)
Theorem C8_scrape_book_details
    (select_one find find_class : string -> string -> option tag)
    (html : string) (genre title price stock upc : tag)
    (price_found stock_found : string) :
  select_one html ".breadcrumb > li:nth-child(3) a" = Some genre ->
  find html "h1" = Some title ->
  find_class html "price_color" = Some price ->
  find_class html "instock" = Some stock ->
  select_one html "table  tr:nth-child(1) > td" = Some upc ->
  search_price (str (tag_string price)) = Some price_found ->
  search_digits (tag_text stock) = Some stock_found ->
  scrape_book_details select_one find find_class html =
  Done [("genre", str (tag_string genre));
        ("title", str (tag_string title));
        ("price", price_found);
        ("stock", stock_found);
        ("upc", str (tag_string upc))] /\
  (price_shaped price_found /\
   exists pre post,
     str (tag_string price) = pre ++ price_found ++ post /\
     forall pre1 pre2,
       pre = pre1 ++ pre2 -> pre2 <> EmptyString ->
       match_price (pre2 ++ price_found ++ post) = None) /\
  (exists pre post,
     tag_text stock = pre ++ stock_found ++ post /\
     no_digit pre = true /\
     stock_found <> EmptyString /\ all_digits stock_found = true /\
     stops post = true).
Proof.
  intros Hg Ht Hp Hs Hu Hpf Hsf. split; [|split].
  - unfold scrape_book_details. rewrite Hg, Ht, Hp, Hs, Hu.
    cbn [str_string bind_result]. rewrite Hpf, Hsf. reflexivity.
  - apply search_price_spec, Hpf.
  - apply search_digits_spec, Hsf.
Qed.

Lemma C8_witness :
  scrape_book_details fixture_select_one fixture_find fixture_find_class
    "<html>" =
  Done [("genre", "Poetry"); ("title", "A Light in the Attic");
        ("price", "51.77"); ("stock", "22"); ("upc", "a897fe39b1053632")].
Proof.
  apply (@C8_scrape_book_details fixture_select_one fixture_find
           fixture_find_class "<html>"
           (mkTag (Some "Poetry") "Poetry" None)
           (mkTag (Some "A Light in the Attic") "A Light in the Attic" None)
           (mkTag (Some (String (ascii_of_nat 163) "51.77"))
                  (String (ascii_of_nat 163) "51.77") None)
           (mkTag None "
    
        In stock (22 available)
    
" None)
           (mkTag (Some "a897fe39b1053632") "a897fe39b1053632" None)
           "51.77" "22");
    reflexivity.
Defined.

(** * More of the code *)

(** ** The sequential scheduler and the request *)

Module Sequential.
Import Asyncio Spec Readers AsyncioFacts Orchestrator.
Local Open Scope list_scope.
Section Sequential.

Variable A : Type.
Variable pick : list (coroutine A) -> nat.
Variable early : list (coroutine A) -> nat.

Lemma bind_bind {X Y Z} (m : M A X) (k : X -> M A Y) (h : Y -> M A Z)
    (w : world A) :
  bind (bind m k) h w = bind m (fun x => bind (k x) h) w.
Proof. unfold bind. destruct (m w) as [[x| |] w']; reflexivity. Qed.

Lemma sleep_and_execute_unfold {X} (task : M A X) (seconds : Z) (w : world A) :
  (1 < seconds)%Z ->
  Utils.sleep_and_execute pick early task seconds w =
  bind (random_uniform 1 seconds)
       (fun d => bind (asyncio_sleep pick early d) (fun _ => task)) w.
Proof.
  intros Hs. unfold Utils.sleep_and_execute.
  replace (seconds <=? 1)%Z with false by (symmetry; apply Z.leb_gt, Hs).
  reflexivity.
Qed.

Lemma sleep_and_execute_bind {X Y} (task : M A X) (k : X -> M A Y)
    (seconds : Z) (w : world A) :
  (1 < seconds)%Z ->
  bind (Utils.sleep_and_execute pick early task seconds) k w =
  bind (random_uniform 1 seconds)
       (fun d => bind (asyncio_sleep pick early d)
                      (fun _ => bind task k)) w.
Proof.
  intros Hs. unfold Utils.sleep_and_execute.
  replace (seconds <=? 1)%Z with false by (symmetry; apply Z.leb_gt, Hs).
  rewrite bind_bind. apply bind_ext. intros d w1.
  rewrite bind_bind. reflexivity.
Qed.

Lemma for_each_task_agree {X} (tasks : list (M A X)) (seconds : Z) :
  (1 < seconds)%Z ->
  forall results w,
    Variant.for_each_task pick early tasks seconds results w =
    Utils.for_each_task pick early tasks seconds results w.
Proof.
  intros Hs. induction tasks as [|task tasks IH]; intros results w.
  - reflexivity.
  - cbn [Variant.for_each_task Utils.for_each_task].
    rewrite sleep_and_execute_bind by exact Hs.
    apply bind_ext. intros d w1. apply bind_ext. intros u w2.
    apply bind_ext. intros result w3. apply IH.
Qed.

(** The sequential scheduler over tasks that return from a quiet loop
    and leave it quiet. *)
Lemma for_each_task_quiet {I X} (f : I -> M A X) (r : I -> X)
    (d : I -> list (event A)) (seconds : Z) (l : list I) :
  (1 < seconds)%Z ->
  (forall i tr, In i l ->
     f i (mkWorld tr [] [] None) =
     (Returned (r i), mkWorld (tr ++ d i) [] [] None)) ->
  forall results tr,
    Utils.for_each_task pick early (map f l) seconds results
      (mkWorld tr [] [] None) =
    (Returned (results ++ map r l),
     mkWorld (tr ++ flat_map
                      (fun i => [EvSample 1 seconds; EvSleepBegin; EvSleepEnd]
                                  ++ d i) l)
             [] [] None).
Proof.
  intros Hs. induction l as [|i l IH]; intros Hf results tr.
  - simpl. rewrite !app_nil_r. reflexivity.
  - cbn [map Utils.for_each_task]. unfold bind.
    rewrite sleep_and_execute_valid by exact Hs.
    rewrite Hf by (left; reflexivity).
    rewrite IH by (intros; apply Hf; right; assumption).
    cbn [flat_map map]. rewrite <- !app_assoc. reflexivity.
Qed.

(** A task that raises ends the loop: what comes after it in the
    sequence plays no part. *)
Lemma for_each_task_stops {I X} (f : I -> M A X) (r : I -> X)
    (d : I -> list (event A)) (seconds : Z) (l1 l2 : list I) (i : I)
    (e : exn) :
  (1 < seconds)%Z ->
  (forall j tr, In j l1 ->
     f j (mkWorld tr [] [] None) =
     (Returned (r j), mkWorld (tr ++ d j) [] [] None)) ->
  (forall tr, fst (f i (mkWorld tr [] [] None)) = Raised e) ->
  forall results tr,
    Utils.for_each_task pick early (map f (l1 ++ i :: l2)) seconds results
      (mkWorld tr [] [] None) =
    (Raised e,
     snd (f i (mkWorld
                 (tr ++ flat_map
                          (fun j => [EvSample 1 seconds; EvSleepBegin;
                                     EvSleepEnd] ++ d j) l1
                     ++ [EvSample 1 seconds; EvSleepBegin; EvSleepEnd])
                 [] [] None))).
Proof.
  intros Hs. induction l1 as [|j l1 IH]; intros Hf Hi results tr.
  - cbn [app map Utils.for_each_task flat_map]. unfold bind.
    rewrite sleep_and_execute_valid by exact Hs.
    specialize (Hi (tr ++ [EvSample 1 seconds; EvSleepBegin; EvSleepEnd])).
    destruct (f i _) as [[x|e'|] w']; cbn [fst snd] in *; congruence.
  - cbn [app map Utils.for_each_task]. unfold bind.
    rewrite sleep_and_execute_valid by exact Hs.
    rewrite Hf by (left; reflexivity).
    rewrite IH; [|intros; apply Hf; right; assumption | exact Hi].
    cbn [flat_map]. rewrite <- !app_assoc. reflexivity.
Qed.

Lemma make_request_quiet (http_get : string -> result string)
    (url : string) (delay : bool) (seconds : Z) tr :
  delay = false \/ (1 < seconds)%Z ->
  Utils.make_request pick early http_get url delay (Some seconds)
    (mkWorld tr [] [] None) =
  (outcome_of (http_get url),
   mkWorld (tr ++ (if delay
                   then [EvSample 1 seconds; EvSleepBegin; EvSleepEnd]
                   else []) ++ [EvGet url]) [] [] None).
Proof.
  intros Hd. unfold Utils.make_request.
  destruct delay.
  - destruct Hd as [Hd|Hs]; [discriminate|].
    replace (seconds =? 0)%Z with false by (symmetry; apply Z.eqb_neq; lia).
    cbn [andb]. rewrite sleep_and_execute_valid by exact Hs.
    unfold Utils.client_get, bind, emit, log.
    cbn [trace ready running gather_exn].
    rewrite <- app_assoc.
    destruct (http_get url); reflexivity.
  - cbn [andb app]. unfold Utils.client_get, bind, emit, log.
    cbn [trace ready running gather_exn].
    destruct (http_get url); reflexivity.
Qed.

Lemma make_request_agree (http_get : string -> result string)
    (url : string) (delay : bool) (seconds : Z) (w : world A) :
  delay = false \/ (1 < seconds)%Z ->
  Utils.make_request pick early http_get url delay (Some seconds) w =
  Variant.make_request pick early http_get url delay seconds w.
Proof.
  intros Hd. unfold Utils.make_request, Variant.make_request.
  destruct delay.
  - destruct Hd as [Hd|Hs]; [discriminate|].
    replace (seconds =? 0)%Z with false by (symmetry; apply Z.eqb_neq; lia).
    cbn [andb]. rewrite sleep_and_execute_unfold by exact Hs.
    rewrite bind_bind. reflexivity.
  - cbn [andb]. reflexivity.
Qed.

End Sequential.
End Sequential.

(** ** The extractors *)

Module Scraping.
Import Asyncio Spec PageSpec Readers BookSpider Regex.
Local Open Scope string_scope.

Lemma search_digits_none (s : string) :
  search_digits s = None <-> no_digit s = true.
Proof.
  induction s as [|c s IH]; simpl; [split; reflexivity|].
  destruct (is_digit c); simpl; [split; discriminate | exact IH].
Qed.

Lemma span_digits_app (ds rest : string) :
  all_digits ds = true -> stops rest = true ->
  span_digits (ds ++ rest) = (ds, rest).
Proof.
  intros Hds Hrest. induction ds as [|d ds IH]; simpl in *.
  - destruct rest as [|c rest]; [reflexivity|]. simpl in Hrest. simpl.
    destruct (is_digit c); [discriminate | reflexivity].
  - apply andb_true_iff in Hds. destruct Hds as [Hd Hds].
    rewrite Hd, (IH Hds). reflexivity.
Qed.

Lemma match_price_here (m post : string) :
  price_shaped m -> match_price (m ++ post) = Some m.
Proof.
  intros (ds & a & b & -> & Hne & Hds & Ha & Hb).
  rewrite append_assoc. cbn [append]. unfold match_price.
  rewrite span_digits_app; [|exact Hds | reflexivity].
  destruct ds as [|d ds]; [congruence|].
  rewrite Ha, Hb. reflexivity.
Qed.

Lemma search_price_complete (pre m post : string) :
  price_shaped m -> search_price (pre ++ m ++ post) <> None.
Proof.
  intros Hm. induction pre as [|c pre IH].
  - cbn [append]. pose proof (match_price_here post Hm) as H.
    destruct (m ++ post) as [|c s] eqn:E.
    + unfold match_price in H. simpl in H. discriminate.
    + cbn [search_price]. rewrite H. discriminate.
  - cbn [append search_price].
    destruct (match_price (String c (pre ++ m ++ post)));
      [discriminate | exact IH].
Qed.

Section Extractors.

Variable select_one : string -> string -> option tag.
Variable find : string -> string -> option tag.
Variable find_class : string -> string -> option tag.
Variable find_all_class : string -> string -> list tag.
Variable urljoin : string -> string -> result string.

Abbreviation the_details :=
  (scrape_book_details select_one find find_class).
Abbreviation the_links := (scrape_book_links find_all_class urljoin).

(** The loop over the product pods, with its accumulator. *)
Lemma for_each_book_done (books : list tag) (links : list string)
    (hrefs joined : list string) :
  map tag_a_href books = map (fun h => Some (Some h)) hrefs ->
  map (urljoin URL) hrefs = map (@Done string) joined ->
  for_each_book urljoin books links = Done (links ++ joined)%list.
Proof.
  revert links hrefs joined; induction books as [|b books IH];
    intros links [|h hrefs] [|j joined] H J; try discriminate.
  - simpl. rewrite app_nil_r. reflexivity.
  - simpl in H. injection H as Hb Hbooks.
    cbn [map] in J. injection J as Jh Jrest.
    cbn [for_each_book]. rewrite Hb, Jh, (IH _ _ _ Hbooks Jrest).
    rewrite <- app_assoc. reflexivity.
Qed.

Lemma for_each_book_inv (books : list tag) (links out : list string) :
  for_each_book urljoin books links = Done out ->
  exists hrefs joined,
    map tag_a_href books = map (fun h => Some (Some h)) hrefs /\
    map (urljoin URL) hrefs = map (@Done string) joined /\
    out = (links ++ joined)%list.
Proof.
  revert links; induction books as [|b books IH]; intros links H.
  - simpl in H. injection H as <-. exists [], []. rewrite app_nil_r. auto.
  - cbn [for_each_book] in H.
    destruct (tag_a_href b) as [[h|]|] eqn:Hb; try discriminate.
    destruct (urljoin URL h) as [j|e] eqn:Hj; try discriminate.
    destruct (IH _ H) as (hrefs & joined & Hbooks & Hjoined & ->).
    exists (h :: hrefs), (j :: joined). cbn [map].
    rewrite Hb, Hj, Hbooks, Hjoined, <- app_assoc. auto.
Qed.

(** A failure is that of the first pod that fails: the pods before it
    have links that join. *)
Lemma for_each_book_failed (books : list tag) (links : list string)
    (e : exn) :
  for_each_book urljoin books links = Failed e ->
  exists pre b post hrefs joined,
    books = (pre ++ b :: post)%list /\
    map tag_a_href pre = map (fun h => Some (Some h)) hrefs /\
    map (urljoin URL) hrefs = map (@Done string) joined /\
    ((tag_a_href b = None /\ e = TypeError) \/
     (tag_a_href b = Some None /\ e = KeyError) \/
     (exists h, tag_a_href b = Some (Some h) /\ urljoin URL h = Failed e)).
Proof.
  revert links; induction books as [|b books IH]; intros links H.
  - discriminate.
  - cbn [for_each_book] in H.
    destruct (tag_a_href b) as [[h|]|] eqn:Hb.
    + destruct (urljoin URL h) as [j|e'] eqn:Hj.
      * destruct (IH _ H)
          as (pre & b' & post & hrefs & joined & -> & Hpre & Hjoin & Hb').
        exists (b :: pre), b', post, (h :: hrefs), (j :: joined).
        cbn [map app]. rewrite Hb, Hj, Hpre, Hjoin. auto.
      * injection H as <-.
        exists [], b, books, [], []. repeat split.
        right. right. exists h. auto.
    + injection H as <-. exists [], b, books, [], []. repeat split. auto.
    + injection H as <-. exists [], b, books, [], []. repeat split. auto.
Qed.

Lemma for_each_book_stops (pre : list tag) (b : tag) (post : list tag)
    (links hrefs joined : list string) (e : exn) :
  map tag_a_href pre = map (fun h => Some (Some h)) hrefs ->
  map (urljoin URL) hrefs = map (@Done string) joined ->
  (tag_a_href b = None /\ e = TypeError) \/
  (tag_a_href b = Some None /\ e = KeyError) \/
  (exists h, tag_a_href b = Some (Some h) /\ urljoin URL h = Failed e) ->
  for_each_book urljoin (pre ++ b :: post)%list links = Failed e.
Proof.
  revert links hrefs joined; induction pre as [|p pre IH];
    intros links [|h hrefs] [|j joined] H J Hb; try discriminate.
  - cbn [app for_each_book].
    destruct Hb as [(-> & ->) | [(-> & ->) | (h & -> & ->)]]; reflexivity.
  - simpl in H. injection H as Hp Hpre.
    cbn [map] in J. injection J as Jh Jrest.
    cbn [app for_each_book]. rewrite Hp, Jh.
    apply (IH _ _ _ Hpre Jrest Hb).
Qed.

End Extractors.
End Scraping.

(** ** Counting in the traces of the orchestrators *)

Module Counts.
Import Asyncio Spec Readers AsyncioFacts Orchestrator Trace.
Local Open Scope list_scope.
Section Counts.

Variable A : Type.
Variable pick : list (coroutine A) -> nat.
Variable early : list (coroutine A) -> nat.

Abbreviation coro := (coroutine A).

Lemma gets_app (t1 t2 : list (event A)) : gets (t1 ++ t2) = gets t1 ++ gets t2.
Proof. apply flat_map_app. Qed.

Lemma gets_nexts (l : list coro) : gets (nexts l) = [].
Proof. unfold gets, nexts. induction l; simpl; congruence. Qed.

Lemma gets_starts (l : list coro) : gets (starts l) = [].
Proof. unfold gets, starts. induction l; simpl; congruence. Qed.

Lemma gets_finishes (l : list coro) : gets (finishes l) = [].
Proof. unfold gets, finishes. induction l; simpl; congruence. Qed.

Ltac read_segment :=
  repeat (rewrite ?next_ids_app, ?start_ids_app, ?samples_app, ?gets_app,
            ?next_ids_nexts, ?next_ids_starts, ?next_ids_finishes,
            ?start_ids_nexts, ?start_ids_starts, ?start_ids_finishes,
            ?samples_nexts, ?samples_starts, ?samples_finishes,
            ?gets_nexts, ?gets_starts, ?gets_finishes);
  cbn [next_ids start_ids samples gets flat_map filter length app];
  rewrite ?app_nil_r.

Lemma variant_counted (seconds : Z) : counted (variant_batch pick seconds).
Proof.
  intros c. unfold segment, variant_batch; cbn [bh_trace].
  repeat split; read_segment; reflexivity.
Qed.

Lemma utils_counted (seconds : Z) : counted (utils_batch pick early seconds).
Proof.
  intros c. unfold segment, utils_batch.
  destruct (first_failure (firstn (early c) (order pick c)));
    cbn [bh_trace]; repeat split; read_segment; reflexivity.
Qed.

Lemma counted_flat_map (beh : list coro -> behaviour A)
    (cs : list (list coro)) :
  counted beh ->
  next_ids (flat_map (segment beh) cs) = ids (concat cs) /\
  start_ids (flat_map (segment beh) cs) = ids (concat cs) /\
  samples (flat_map (segment beh) cs) = length cs /\
  gets (flat_map (segment beh) cs) = [].
Proof.
  intros Hc. induction cs as [|c cs (IH1 & IH2 & IH3 & IH4)].
  - repeat split; reflexivity.
  - destruct (Hc c) as (H1 & H2 & H3 & H4).
    cbn [flat_map concat length]. unfold ids in *.
    rewrite next_ids_app, start_ids_app, samples_app, gets_app, map_app.
    rewrite H1, H2, H3, H4, IH1, IH2, IH3, IH4. auto.
Qed.

(** A run that raises: the chunks before the one that raised returned. *)
Lemma run_chunks_raised_split (beh : list coro -> behaviour A)
    (cs : list (list coro)) (results : list A) tr (e : exn) :
  sound beh ->
  fst (run_chunks beh cs results tr) = Raised e ->
  exists pre failing post vs,
    cs = pre ++ failing :: post /\
    returns (concat pre) vs /\
    (exists c, In c failing /\ coro_result c = Failed e) /\
    attempted beh cs = pre ++ [failing].
Proof.
  intros Hs. revert results tr.
  induction cs as [|c cs IH]; intros results tr H; [discriminate|].
  cbn [run_chunks] in H. destruct (Hs c) as (H1 & H2 & H3 & _).
  destruct (bh_out (beh c)) as [rs|e'|] eqn:Hout.
  - destruct (IH _ _ H) as (pre & failing & post & vs & -> & Hr & Hc & Ha).
    exists (c :: pre), failing, post, (rs ++ vs). repeat split.
    + cbn [concat]. apply returns_app; [apply H1; reflexivity | exact Hr].
    + exact Hc.
    + cbn [attempted app]. rewrite Hout, Ha. reflexivity.
  - injection H as ->. exists [], c, cs, []. repeat split.
    + apply H2. reflexivity.
    + cbn [attempted app]. rewrite Hout. reflexivity.
  - cbn [fst] in H. discriminate.
Qed.

End Counts.
End Counts.

(** ** The pages: addresses, detail Tasks, listing pages, both drivers *)

Module Pages.
Import Asyncio Spec PageSpec Readers AsyncioFacts Orchestrator Trace Counts
  Sequential BookSpider Pipeline.
Local Open Scope list_scope.

Lemma append_inj_l (p x y : string) :
  (p ++ x)%string = (p ++ y)%string -> x = y.
Proof.
  induction p as [|c p IH]; simpl; intros H; [exact H|].
  injection H as H. apply IH, H.
Qed.

Lemma length_append (x y : string) :
  String.length (x ++ y)%string = String.length x + String.length y.
Proof. induction x as [|c x IH]; simpl; [reflexivity | rewrite IH; reflexivity]. Qed.

Lemma append_inj_r (s x y : string) :
  (x ++ s)%string = (y ++ s)%string -> x = y.
Proof.
  revert y; induction x as [|c x IH]; intros [|c' y] H.
  - reflexivity.
  - apply (f_equal String.length) in H. rewrite !length_append in H.
    simpl in H. lia.
  - apply (f_equal String.length) in H. rewrite !length_append in H.
    simpl in H. lia.
  - simpl in H. injection H as -> H. f_equal. apply IH, H.
Qed.

Lemma to_uint_nonnil (n : nat) : Nat.to_uint n <> Decimal.Nil.
Proof.
  pose proof (DecimalNat.Unsigned.to_of (Nat.to_uint n)) as H.
  rewrite DecimalNat.Unsigned.of_to in H. rewrite H.
  unfold Decimal.unorm. destruct (Decimal.nzhead (Nat.to_uint n)); discriminate.
Qed.

Lemma URL_format_inj (i j : nat) : URL_format i = URL_format j -> i = j.
Proof.
  unfold URL_format. intros H.
  apply append_inj_l, append_inj_r in H.
  apply DecimalNat.Unsigned.to_uint_inj.
  apply (f_equal NilZero.uint_of_string) in H.
  rewrite !NilZero.usu in H by apply to_uint_nonnil.
  injection H as H. exact H.
Qed.

Section Pages.

Variable pick : list (coroutine book) -> nat.
Variable early : list (coroutine book) -> nat.
Variable http_get : string -> result string.
Variable select_one : string -> string -> option tag.
Variable find : string -> string -> option tag.
Variable find_class : string -> string -> option tag.
Variable find_all_class : string -> string -> list tag.
Variable urljoin : string -> string -> result string.

Abbreviation the_details :=
  (scrape_book_details select_one find find_class).
Abbreviation the_links := (scrape_book_links find_all_class urljoin).
Abbreviation the_book_data :=
  (get_book_data pick early http_get select_one find find_class).
Abbreviation the_tasks :=
  (detail_tasks pick early http_get select_one find find_class).
Abbreviation the_books :=
  (get_books pick early http_get select_one find find_class find_all_class
             urljoin).
Abbreviation the_main :=
  (main pick early http_get select_one find find_class find_all_class
        urljoin).
Abbreviation variant_book_data :=
  (VariantSpider.get_book_data pick early http_get select_one find
                               find_class).
Abbreviation variant_tasks :=
  (VariantSpider.detail_tasks pick early http_get select_one find find_class).
Abbreviation variant_books :=
  (VariantSpider.get_books pick early http_get select_one find find_class
                           find_all_class urljoin).
Abbreviation variant_main :=
  (VariantSpider.main pick early http_get select_one find find_class
                      find_all_class urljoin).

(** A detail page, awaited from a quiet loop: one delay, one request. *)
Lemma get_book_data_quiet (url : string) tr :
  the_book_data url (mkWorld tr [] [] None) =
  (outcome_of (bind_result (http_get url) the_details),
   mkWorld (tr ++ [EvSample 1 SLEEP_TIME; EvSleepBegin; EvSleepEnd; EvGet url])
           [] [] None).
Proof.
  unfold get_book_data, bind.
  rewrite make_request_quiet by (right; unfold SLEEP_TIME; lia).
  cbn [app]. destruct (http_get url) as [response|e];
    cbn [outcome_of bind_result]; [|reflexivity].
  unfold lift. destruct (the_details response); reflexivity.
Qed.

Lemma variant_book_data_agree (url : string) (w : world book) :
  variant_book_data url w = the_book_data url w.
Proof.
  unfold VariantSpider.get_book_data, get_book_data, bind.
  rewrite <- make_request_agree
    by (right; unfold Variant.SLEEP_TIME; lia).
  reflexivity.
Qed.

Lemma variant_tasks_agree (links : list string) :
  variant_tasks links = the_tasks links.
Proof.
  unfold VariantSpider.detail_tasks, detail_tasks.
  apply map_ext. intros [i link]. unfold task_result.
  rewrite variant_book_data_agree. reflexivity.
Qed.

Lemma detail_tasks_ids (links : list string) :
  ids (the_tasks links) = seq 0 (length links).
Proof.
  unfold ids, detail_tasks. rewrite map_map. cbn [coro_id].
  generalize 0 as k. induction links as [|link links IH]; intros k;
    [reflexivity|].
  cbn [length seq combine map fst]. f_equal. apply IH.
Qed.

(** One listing page of the variant, all going well. *)
Lemma variant_get_books_returns (fuel : nat) (url : string)
    (links : list string) (record : string -> book) tr :
  bind_result (http_get url) the_links = Done links ->
  (forall link, In link links ->
     bind_result (http_get link) the_details = Done (record link)) ->
  length links < fuel ->
  variant_books fuel url (mkWorld tr [] [] None) =
  (Returned (map record links),
   mkWorld (tr ++ EvGet url
               :: flat_map (segment (variant_batch pick Variant.SLEEP_TIME))
                    (chunks (Z.to_nat Variant.BATCH_SIZE) (the_tasks links)))
           [] [] None).
Proof.
  intros Hl Hd Hf. unfold VariantSpider.get_books.
  unfold bind at 1.
  rewrite <- make_request_agree by (left; reflexivity).
  rewrite make_request_quiet by (left; reflexivity). cbn [app].
  destruct (http_get url) as [response|e]; [|discriminate].
  cbn [bind_result] in Hl. cbn [outcome_of]. unfold bind at 1. rewrite Hl.
  cbn [lift ret]. rewrite variant_tasks_agree.
  rewrite variant_run;
    [|unfold Variant.BATCH_SIZE; lia
     |rewrite (detail_tasks_length pick early); exact Hf].
  rewrite (@run_chunks_returns book _
             (variant_sound pick Variant.SLEEP_TIME) _ (map record links)).
  - cbn [app]. rewrite <- app_assoc. reflexivity.
  - rewrite chunks_concat by (unfold Variant.BATCH_SIZE; lia).
    apply detail_tasks_return, Hd.
Qed.

Lemma variant_main_returns (fuel : nat) (links : nat -> list string)
    (record : string -> book) :
  (forall i, In i (seq 1 50) ->
     bind_result (http_get (URL_format i)) the_links = Done (links i)) ->
  (forall i link, In i (seq 1 50) -> In link (links i) ->
     bind_result (http_get link) the_details = Done (record link)) ->
  (forall i, In i (seq 1 50) -> length (links i) < fuel) ->
  variant_main fuel initial =
  (Returned tt,
   mkWorld
     (flat_map
        (fun i =>
           [EvSample 1 Variant.SLEEP_TIME; EvSleepBegin; EvSleepEnd]
             ++ EvGet (URL_format i)
             :: flat_map (segment (variant_batch pick Variant.SLEEP_TIME))
                  (chunks (Z.to_nat Variant.BATCH_SIZE)
                          (the_tasks (links i))))
        (seq 1 50)
      ++ [EvToCsv (flat_map (fun i => map record (links i)) (seq 1 50))])
     [] [] None).
Proof.
  intros Hl Hd Hf.
  unfold VariantSpider.main, Variant.execute_with_interval, initial.
  unfold bind.
  rewrite for_each_task_agree by (unfold Variant.SLEEP_TIME; lia).
  rewrite (@for_each_task_quiet book pick early nat (list book)
             (fun i => variant_books fuel (URL_format i))
             (fun i => map record (links i))
             (fun i => EvGet (URL_format i)
                       :: flat_map
                            (segment (variant_batch pick Variant.SLEEP_TIME))
                            (chunks (Z.to_nat Variant.BATCH_SIZE)
                                    (the_tasks (links i))))).
  - cbn [app]. unfold to_csv, emit, log. cbn [trace ready running gather_exn].
    rewrite flat_map_concat_map. reflexivity.
  - unfold Variant.SLEEP_TIME. lia.
  - intros i tr Hi. apply variant_get_books_returns; auto.
    intros link Hlink. apply (Hd i); assumption.
Qed.

(** Requests and delays of a driver's trace, page by page. *)
Lemma page_counts (beh : list (coroutine book) -> behaviour book)
    (seconds : Z) (cs : list (list (coroutine book))) (url : string) :
  counted beh ->
  gets ([EvSample 1 seconds; EvSleepBegin; EvSleepEnd]
          ++ EvGet url :: flat_map (segment beh) cs) = [url] /\
  samples ([EvSample 1 seconds; EvSleepBegin; EvSleepEnd]
             ++ EvGet url :: flat_map (segment beh) cs) = 1 + length cs.
Proof.
  intros Hc. destruct (counted_flat_map cs Hc) as (_ & _ & H3 & H4).
  cbn [app]. split.
  - change (gets (EvSample 1 seconds :: EvSleepBegin :: EvSleepEnd
                   :: EvGet url :: flat_map (segment beh) cs))
      with (url :: gets (flat_map (segment beh) cs)).
    rewrite H4. reflexivity.
  - change (samples (EvSample 1 seconds :: EvSleepBegin :: EvSleepEnd
                      :: EvGet url :: flat_map (segment beh) cs))
      with (S (samples (flat_map (segment beh) cs))).
    rewrite H3. reflexivity.
Qed.

Lemma pages_counts (beh : list (coroutine book) -> behaviour book)
    (seconds : Z) (tasks : nat -> list (coroutine book)) (n : nat)
    (l : list nat) :
  counted beh ->
  gets (flat_map
          (fun i => [EvSample 1 seconds; EvSleepBegin; EvSleepEnd]
                      ++ EvGet (URL_format i)
                      :: flat_map (segment beh) (chunks n (tasks i))) l) =
  map URL_format l /\
  samples (flat_map
             (fun i => [EvSample 1 seconds; EvSleepBegin; EvSleepEnd]
                         ++ EvGet (URL_format i)
                         :: flat_map (segment beh) (chunks n (tasks i))) l) =
  list_sum (map (fun i => 1 + length (chunks n (tasks i))) l).
Proof.
  intros Hc. induction l as [|i l (IH1 & IH2)]; [split; reflexivity|].
  destruct (page_counts seconds (chunks n (tasks i)) (URL_format i) Hc)
    as (H1 & H2).
  cbn [flat_map map list_sum]. rewrite gets_app, samples_app.
  rewrite H1, H2, IH1, IH2. split; reflexivity.
Qed.

Lemma pages_starts (beh : list (coroutine book) -> behaviour book)
    (seconds : Z) (tasks : nat -> list (coroutine book)) (n : nat)
    (l : list nat) :
  counted beh -> 1 <= n ->
  start_ids (flat_map
               (fun i => [EvSample 1 seconds; EvSleepBegin; EvSleepEnd]
                           ++ EvGet (URL_format i)
                           :: flat_map (segment beh) (chunks n (tasks i))) l) =
  flat_map (fun i => ids (tasks i)) l.
Proof.
  intros Hc Hn. induction l as [|i l IH]; [reflexivity|].
  cbn [flat_map]. rewrite start_ids_app, IH. f_equal.
  cbn [app].
  change (start_ids (EvSample 1 seconds :: EvSleepBegin :: EvSleepEnd
                       :: EvGet (URL_format i)
                       :: flat_map (segment beh) (chunks n (tasks i))))
    with (start_ids (flat_map (segment beh) (chunks n (tasks i)))).
  destruct (counted_flat_map (chunks n (tasks i)) Hc) as (_ & -> & _).
  rewrite chunks_concat by exact Hn. reflexivity.
Qed.

End Pages.
End Pages.

(** * Further properties of the code *)

Import Readers MoreInputs Sequential Scraping Counts Pages.

Local Open Scope list_scope.

(** X1 — with seconds > 1 the two execute_with_interval are one and the
    same computation: from any state of the loop, on any tasks, they end
    the same way and leave the same trace.  (The variant inlines what
    utils.py delegates to sleep_and_execute.) *)
Theorem X1_sequential_schedulers_agree
    (A : Type) (pick early : list (coroutine A) -> nat) (X : Type)
    (tasks : list (M A X)) (seconds : Z) (w : world A) :
  (1 < seconds)%Z ->
  Variant.execute_with_interval pick early tasks seconds w =
  Utils.execute_with_interval pick early tasks seconds w.
Proof.
  intros Hs. unfold Variant.execute_with_interval, Utils.execute_with_interval.
  apply for_each_task_agree, Hs.
Qed.

Lemma X1_witness :
  (1 < 2)%Z /\
  Variant.execute_with_interval demo_pick demo_early
    (map (demo_page demo_get_but_2) [1; 2; 3]) 2%Z initial =
  Utils.execute_with_interval demo_pick demo_early
    (map (demo_page demo_get_but_2) [1; 2; 3]) 2%Z initial.
Proof.
  split; [lia|].
  apply (X1_sequential_schedulers_agree demo_pick demo_early
           (map (demo_page demo_get_but_2) [1; 2; 3]) (seconds := 2%Z) initial).
  lia.
Defined.

(** X2 — make_request without delay, or with delay and seconds > 1, is
    the same computation in the two files; from a quiet loop it samples
    and sleeps once if delay is set, then awaits client.get exactly once,
    and ends as the fetch does. *)
Theorem X2_make_request_agree
    (A : Type) (pick early : list (coroutine A) -> nat)
    (http_get : string -> result string) (url : string) (delay : bool)
    (seconds : Z) :
  delay = false \/ (1 < seconds)%Z ->
  (forall w,
     Utils.make_request pick early http_get url delay (Some seconds) w =
     Variant.make_request pick early http_get url delay seconds w) /\
  (forall tr,
     Utils.make_request pick early http_get url delay (Some seconds)
       (mkWorld tr [] [] None) =
     (outcome_of (http_get url),
      mkWorld (tr ++ (if delay
                      then [EvSample 1 seconds; EvSleepBegin; EvSleepEnd]
                      else []) ++ [EvGet url]) [] [] None)).
Proof.
  intros Hd. split.
  - intros w. apply make_request_agree, Hd.
  - intros tr. apply make_request_quiet, Hd.
Qed.

Lemma X2_witness :
  (true = false \/ (1 < 2)%Z) /\
  Utils.make_request demo_pick demo_early demo_get_but_2 (URL_format 2) true
    (Some 2%Z) initial =
  (Raised (TaskError 404),
   mkWorld [EvSample 1 2; EvSleepBegin; EvSleepEnd; EvGet (URL_format 2)]
           [] [] None).
Proof.
  assert (H : true = false \/ (1 < 2)%Z) by (right; lia).
  split; [exact H|].
  exact (proj2 (@X2_make_request_agree nat demo_pick demo_early
                  demo_get_but_2 (URL_format 2) true 2%Z H) []).
Defined.

(** X3 — execute_with_interval of utils.py, with seconds > 1, over tasks
    that each return from a quiet loop and leave it quiet: it returns
    their results in the order of the tasks, and its trace is, task after
    task, one sampled delay, one sleep begun and ended, then the events
    of the task: a task runs only after its own sleep has ended. *)
Theorem X3_execute_with_interval_in_order
    (A : Type) (pick early : list (coroutine A) -> nat) (I X : Type)
    (f : I -> M A X) (r : I -> X) (d : I -> list (event A))
    (seconds : Z) (l : list I) :
  (1 < seconds)%Z ->
  (forall i tr, In i l ->
     f i (mkWorld tr [] [] None) =
     (Returned (r i), mkWorld (tr ++ d i) [] [] None)) ->
  Utils.execute_with_interval pick early (map f l) seconds initial =
  (Returned (map r l),
   mkWorld (flat_map
              (fun i => [EvSample 1 seconds; EvSleepBegin; EvSleepEnd] ++ d i)
              l) [] [] None).
Proof.
  intros Hs Hf. unfold Utils.execute_with_interval, initial.
  rewrite (@for_each_task_quiet A pick early I X f r d seconds l Hs Hf).
  reflexivity.
Qed.

Lemma X3_witness :
  (1 < 2)%Z /\
  Utils.execute_with_interval demo_pick demo_early
    (map (demo_page demo_get) [1; 2]) 2%Z initial =
  (Returned [URL_format 1; URL_format 2],
   mkWorld [EvSample 1 2; EvSleepBegin; EvSleepEnd; EvGet (URL_format 1);
            EvSample 1 2; EvSleepBegin; EvSleepEnd; EvGet (URL_format 2)]
           [] [] None).
Proof.
  split; [lia|].
  apply (@X3_execute_with_interval_in_order nat demo_pick demo_early nat
           string (demo_page demo_get) URL_format
           (fun i => [EvGet (URL_format i)]) 2%Z [1; 2]).
  - lia.
  - intros i tr _. reflexivity.
Defined.

(** X4 — execute_with_interval of utils.py stops at the first task that
    raises: it raises that exception, and whatever tasks follow in the
    sequence are never awaited, so that the run is the one of the
    sequence cut after the failing task. *)
Theorem X4_execute_with_interval_stops
    (A : Type) (pick early : list (coroutine A) -> nat) (I X : Type)
    (f : I -> M A X) (r : I -> X) (d : I -> list (event A))
    (seconds : Z) (l1 l2 : list I) (i : I) (e : exn) :
  (1 < seconds)%Z ->
  (forall j tr, In j l1 ->
     f j (mkWorld tr [] [] None) =
     (Returned (r j), mkWorld (tr ++ d j) [] [] None)) ->
  (forall tr, fst (f i (mkWorld tr [] [] None)) = Raised e) ->
  fst (Utils.execute_with_interval pick early (map f (l1 ++ i :: l2)) seconds
         initial) = Raised e /\
  Utils.execute_with_interval pick early (map f (l1 ++ i :: l2)) seconds
    initial =
  Utils.execute_with_interval pick early (map f (l1 ++ [i])) seconds initial.
Proof.
  intros Hs Hf Hi. unfold Utils.execute_with_interval, initial.
  rewrite (@for_each_task_stops A pick early I X f r d seconds l1 l2 i e
             Hs Hf Hi).
  rewrite (@for_each_task_stops A pick early I X f r d seconds l1 [] i e
             Hs Hf Hi).
  split; reflexivity.
Qed.

Lemma X4_witness :
  (1 < 2)%Z /\
  Utils.execute_with_interval demo_pick demo_early
    (map (demo_page demo_get_but_2) ([1] ++ 2 :: [3; 4])) 2%Z initial =
  Utils.execute_with_interval demo_pick demo_early
    (map (demo_page demo_get_but_2) ([1] ++ [2])) 2%Z initial.
Proof.
  split; [lia|].
  apply (@X4_execute_with_interval_stops nat demo_pick demo_early nat string
           (demo_page demo_get_but_2) URL_format
           (fun i => [EvGet (URL_format i)]) 2%Z [1] [3; 4] 2
           (TaskError 404)).
  - lia.
  - intros j tr [<- | []]. reflexivity.
  - intros tr. reflexivity.
Defined.

(** X5 — the inner loop that fills a batch pulls the next
    min(n, remaining) tasks from the iterator, in order, onto the end of
    the batch; it meets StopIteration exactly when fewer than n tasks
    were left; with n = 0 (batch_size <= 0) it pulls nothing and never
    meets StopIteration, even on an exhausted iterator. *)
Theorem X5_fill_batch
    (A : Type) (n : nat) (task_iter batch : list (coroutine A))
    (w : world A) :
  Utils.fill_batch n task_iter batch w =
  (Returned (Nat.ltb (length task_iter) n, batch ++ firstn n task_iter,
             skipn n task_iter),
   mkWorld (trace w ++ nexts (firstn n task_iter)) (ready w) (running w)
           (gather_exn w)).
Proof. destruct w as [tr rd rn ge]. apply fill_batch_spec. Qed.

(** X6 — when execute_with_interval's batched sibling raises (either
    source; utils.py with seconds > 1), the chunks split into those
    before the failing one, whose tasks all returned, the failing one,
    which holds a task that raised that very exception, and the chunks
    after it; exactly the tasks of the former two were pulled from the
    iterator and started, in order: no task of a later chunk is ever
    pulled or started. *)
Theorem X6_no_task_beyond_the_failing_batch
    (A : Type) (pick early : list (coroutine A) -> nat) (fuel : nat)
    (tasks : list (coroutine A)) (seconds batch_size : Z) (e : exn) :
  (1 <= batch_size)%Z -> length tasks < fuel ->
  let u := Utils.execute_batch_with_interval pick early fuel tasks
             seconds batch_size initial in
  let v := Variant.execute_batch_with_interval pick early fuel tasks
             batch_size seconds initial in
  forall run, (run = u /\ (1 < seconds)%Z) \/ run = v ->
    fst run = Raised e ->
    exists pre failing post vs,
      chunks (Z.to_nat batch_size) tasks = pre ++ failing :: post /\
      returns (concat pre) vs /\
      (exists c, In c failing /\ coro_result c = Failed e) /\
      next_ids (trace (snd run)) = ids (concat pre ++ failing) /\
      start_ids (trace (snd run)) = ids (concat pre ++ failing).
Proof.
  intros Hb Hf u v run Hrun He.
  assert (H : exists beh,
    sound beh /\ counted beh /\
    run = run_chunks beh (chunks (Z.to_nat batch_size) tasks) [] []).
  { destruct Hrun as [[-> Hs] | ->].
    - exists (utils_batch pick early seconds).
      split; [apply utils_sound|]. split; [apply utils_counted|].
      apply utils_run; assumption.
    - exists (variant_batch pick seconds).
      split; [apply variant_sound|]. split; [apply variant_counted|].
      apply variant_run; assumption. }
  destruct H as (beh & Hsound & Hcount & ->).
  destruct (run_chunks_raised_split _ _ _ Hsound He)
    as (pre & failing & post & vs & Hcs & Hr & Hc & Ha).
  exists pre, failing, post, vs. repeat split; auto.
  - rewrite run_chunks_trace, Ha. cbn [app].
    destruct (counted_flat_map (pre ++ [failing]) Hcount) as (-> & _).
    rewrite concat_app. cbn [concat]. rewrite app_nil_r. reflexivity.
  - rewrite run_chunks_trace, Ha. cbn [app].
    destruct (counted_flat_map (pre ++ [failing]) Hcount) as (_ & -> & _).
    rewrite concat_app. cbn [concat]. rewrite app_nil_r. reflexivity.
Qed.

Lemma X6_witness :
  (1 <= 2)%Z /\ length demo_third_fails < 6 /\
  exists pre failing post vs,
    chunks (Z.to_nat 2) demo_third_fails = pre ++ failing :: post /\
    returns (concat pre) vs /\
    (exists c, In c failing /\ coro_result c = Failed (TaskError 2)) /\
    next_ids (trace (snd (Variant.execute_batch_with_interval demo_pick
                            demo_early 6 demo_third_fails 2%Z 2%Z initial))) =
    ids (concat pre ++ failing) /\
    start_ids (trace (snd (Variant.execute_batch_with_interval demo_pick
                             demo_early 6 demo_third_fails 2%Z 2%Z initial))) =
    ids (concat pre ++ failing).
Proof.
  split; [lia|]. split; [simpl; lia|].
  apply (@X6_no_task_beyond_the_failing_batch nat demo_pick demo_early 6
           demo_third_fails 2%Z 2%Z (TaskError 2));
    [lia | simpl; lia | right; reflexivity | reflexivity].
Defined.

(** X7 — scrape_book_links returns exactly when every product pod of the
    page has a link with an href that urljoin accepts, and then returns
    the hrefs joined to URL, one per pod and in the order of the pods
    (none on a page without pods).  Otherwise it raises at the first pod
    that fails, the pods before it being fine: TypeError for a pod
    without a link, KeyError for a link without href, and what urljoin
    raises (ValueError, for urllib's) on an href it cannot split. *)
Theorem X7_scrape_book_links
    (find_all_class : string -> string -> list tag)
    (urljoin : string -> string -> result string) (html : string) :
  (forall links,
     scrape_book_links find_all_class urljoin html = Done links <->
     exists hrefs,
       map tag_a_href (find_all_class html "product_pod") =
       map (fun h => Some (Some h)) hrefs /\
       map (urljoin URL) hrefs = map (@Done string) links) /\
  (forall e,
     scrape_book_links find_all_class urljoin html = Failed e <->
     exists pre b post hrefs joined,
       find_all_class html "product_pod" = pre ++ b :: post /\
       map tag_a_href pre = map (fun h => Some (Some h)) hrefs /\
       map (urljoin URL) hrefs = map (@Done string) joined /\
       ((tag_a_href b = None /\ e = TypeError) \/
        (tag_a_href b = Some None /\ e = KeyError) \/
        (exists h, tag_a_href b = Some (Some h) /\
                   urljoin URL h = Failed e))).
Proof.
  unfold scrape_book_links. split.
  - intros links. split.
    + intros H.
      destruct (for_each_book_inv urljoin _ _ H)
        as (hrefs & joined & H1 & H2 & H3).
      exists hrefs. cbn [app] in H3. subst links. split; assumption.
    + intros (hrefs & H1 & H2).
      rewrite (for_each_book_done urljoin _ [] hrefs links H1 H2).
      reflexivity.
  - intros e. split.
    + intros H. exact (for_each_book_failed urljoin _ _ H).
    + intros (pre & b & post & hrefs & joined & -> & Hpre & Hjoin & Hb).
      apply (for_each_book_stops urljoin pre b post [] hrefs joined);
        assumption.
Qed.

Lemma X7_witness :
  scrape_book_links demo_find_all_class demo_urljoin "page" =
  Done ["a"%string; "b"%string] /\
  scrape_book_links demo_find_all_class demo_urljoin_strict "page" =
  Failed (ValueError "Invalid IPv6 URL").
Proof.
  split.
  - apply (proj1 (X7_scrape_book_links demo_find_all_class demo_urljoin
                    "page")).
    exists ["a"%string; "b"%string]. split; reflexivity.
  - apply (proj2 (X7_scrape_book_links demo_find_all_class
                    demo_urljoin_strict "page")).
    exists [mkTag None EmptyString (Some (Some "a"%string))],
      (mkTag None EmptyString (Some (Some "b"%string))), [],
      ["a"%string], ["a"%string].
    repeat split. right. right. exists "b"%string. split; reflexivity.
Defined.

(** X8 — scrape_book_details never raises anything but AttributeError,
    and when it returns, it returns a dict with exactly the keys genre,
    title, price, stock and upc, in this order, whose price is one or
    more digits, a dot and two digits, and whose stock is a non-empty run
    of digits. *)
Theorem X8_scrape_book_details_total
    (select_one find find_class : string -> string -> option tag)
    (html : string) :
  scrape_book_details select_one find find_class html = Failed AttributeError \/
  exists genre title price stock upc,
    scrape_book_details select_one find find_class html =
    Done [("genre"%string, genre); ("title"%string, title);
          ("price"%string, price); ("stock"%string, stock);
          ("upc"%string, upc)] /\
    price_shaped price /\ stock <> EmptyString /\ all_digits stock = true.
Proof.
  unfold scrape_book_details.
  destruct (select_one html ".breadcrumb > li:nth-child(3) a") as [g|];
    [|left; reflexivity].
  destruct (find html "h1") as [t|]; [|left; reflexivity].
  destruct (find_class html "price_color") as [p|]; [|left; reflexivity].
  cbn [str_string bind_result].
  destruct (search_price (str (tag_string p))) as [pm|] eqn:Hp;
    [|left; reflexivity].
  destruct (find_class html "instock") as [s|]; [|left; reflexivity].
  cbn [group bind_result].
  destruct (search_digits (tag_text s)) as [sm|] eqn:Hs;
    [|left; reflexivity].
  destruct (select_one html "table  tr:nth-child(1) > td") as [u|];
    [|left; reflexivity].
  right. cbn [str_string group bind_result].
  exists (str (tag_string g)), (str (tag_string t)), pm, sm,
    (str (tag_string u)).
  split; [reflexivity|].
  destruct (search_price_spec _ Hp) as (Hshape & _).
  destruct (search_digits_spec _ Hs) as (pre & post & _ & _ & Hne & Hall & _).
  auto.
Qed.

(** X9 — scrape_book_details returns if and only if the parser finds the
    genre link, the h1, the price element, the stock element and the
    first table cell, the price text (str of the element's .string)
    contains one or more digits, a dot and two digits, and the stock text
    contains a digit. *)
Theorem X9_scrape_book_details_returns_iff
    (select_one find find_class : string -> string -> option tag)
    (html : string) :
  (exists b, scrape_book_details select_one find find_class html = Done b) <->
  (exists g t p s u,
     select_one html ".breadcrumb > li:nth-child(3) a" = Some g /\
     find html "h1" = Some t /\
     find_class html "price_color" = Some p /\
     find_class html "instock" = Some s /\
     select_one html "table  tr:nth-child(1) > td" = Some u /\
     (exists pre m post,
        str (tag_string p) = (pre ++ m ++ post)%string /\ price_shaped m) /\
     no_digit (tag_text s) = false).
Proof.
  unfold scrape_book_details. split.
  - intros (b & H).
    destruct (select_one html ".breadcrumb > li:nth-child(3) a") as [g|];
      [|discriminate].
    destruct (find html "h1") as [t|]; [|discriminate].
    destruct (find_class html "price_color") as [p|]; [|discriminate].
    cbn [str_string bind_result] in H.
    destruct (search_price (str (tag_string p))) as [pm|] eqn:Hp;
      [|discriminate].
    destruct (find_class html "instock") as [s|]; [|discriminate].
    cbn [group bind_result] in H.
    destruct (search_digits (tag_text s)) as [sm|] eqn:Hs; [|discriminate].
    destruct (select_one html "table  tr:nth-child(1) > td") as [u|];
      [|discriminate].
    exists g, t, p, s, u. repeat split.
    + destruct (search_price_spec _ Hp) as (Hshape & pre & post & Heq & _).
      exists pre, pm, post. split; assumption.
    + destruct (no_digit (tag_text s)) eqn:Hn; [|reflexivity].
      apply search_digits_none in Hn. congruence.
  - intros (g & t & p & s & u & -> & -> & -> & -> & -> & Hprice & Hstock).
    destruct Hprice as (pre & m & post & Heq & Hshape).
    cbn [str_string bind_result].
    destruct (search_price (str (tag_string p))) as [pm|] eqn:Hp.
    + cbn [group bind_result].
      destruct (search_digits (tag_text s)) as [sm|] eqn:Hs.
      * eexists. reflexivity.
      * apply search_digits_none in Hs. congruence.
    + exfalso. rewrite Heq in Hp.
      exact (search_price_complete pre post Hshape Hp).
Qed.

(** X10 — get_book_data, in both sources, from a quiet loop: it samples
    one delay from the window 1..SLEEP_TIME, sleeps, requests the detail
    page once, and then ends as the fetch followed by the extraction
    does: it raises what the fetch raises, else what scrape_book_details
    raises, else returns the record; it never raises ValueError for its
    window and always completes. *)
Theorem X10_get_book_data
    (pick early : list (coroutine book) -> nat)
    (http_get : string -> result string)
    (select_one find find_class : string -> string -> option tag)
    (url : string) (tr : list (event book)) :
  get_book_data pick early http_get select_one find find_class url
    (mkWorld tr [] [] None) =
  (outcome_of (bind_result (http_get url)
                 (scrape_book_details select_one find find_class)),
   mkWorld (tr ++ [EvSample 1 2; EvSleepBegin; EvSleepEnd; EvGet url])
           [] [] None) /\
  VariantSpider.get_book_data pick early http_get select_one find find_class
    url (mkWorld tr [] [] None) =
  get_book_data pick early http_get select_one find find_class url
    (mkWorld tr [] [] None).
Proof.
  split.
  - apply get_book_data_quiet.
  - apply variant_book_data_agree.
Qed.

(** X11 — get_books on a listing page whose fetch and extraction go well
    and whose detail pages all go well: it returns the records in the
    order of the links; it requests the listing page itself once and
    without a delay (the detail pages are requested inside the tasks);
    every detail task is pulled and started exactly once, in the order
    of the links; and the batched scheduler samples one delay per batch
    of 10, the ceiling of k/10 for k links: none for a page without
    books. *)
Theorem X11_get_books_batches
    (pick early : list (coroutine book) -> nat)
    (http_get : string -> result string)
    (select_one find find_class : string -> string -> option tag)
    (find_all_class : string -> string -> list tag)
    (urljoin : string -> string -> result string) (fuel : nat) (url : string)
    (links : list string) (record : string -> book) :
  bind_result (http_get url) (scrape_book_links find_all_class urljoin) =
  Done links ->
  (forall link, In link links ->
     bind_result (http_get link)
       (scrape_book_details select_one find find_class) =
     Done (record link)) ->
  length links < fuel ->
  let run := get_books pick early http_get select_one find find_class
               find_all_class urljoin fuel url initial in
  fst run = Returned (map record links) /\
  gets (trace (snd run)) = [url] /\
  next_ids (trace (snd run)) = seq 0 (length links) /\
  start_ids (trace (snd run)) = seq 0 (length links) /\
  samples (trace (snd run)) = (length links + 9) / 10.
Proof.
  intros Hl Hd Hf run. subst run. unfold initial.
  rewrite (@get_books_returns pick early http_get select_one find find_class
             find_all_class urljoin fuel url links record [] Hl Hd Hf).
  cbn [fst snd trace app]. unfold page_segment.
  change (Z.to_nat BATCH_SIZE) with 10.
  set (tasks := detail_tasks pick early http_get select_one find find_class
                  links).
  destruct (@counted_flat_map book (utils_batch pick early SLEEP_TIME)
              (chunks 10 tasks) (utils_counted pick early SLEEP_TIME))
    as (H1 & H2 & H3 & H4).
  set (t := flat_map (segment (utils_batch pick early SLEEP_TIME))
              (chunks 10 tasks)) in *.
  change (gets (EvGet url :: t)) with (url :: gets t).
  change (next_ids (EvGet url :: t)) with (next_ids t).
  change (start_ids (EvGet url :: t)) with (start_ids t).
  change (samples (EvGet url :: t)) with (samples t).
  rewrite H1, H2, H3, H4.
  rewrite chunks_concat by lia. rewrite chunks_length by lia.
  unfold tasks. rewrite detail_tasks_ids, detail_tasks_length.
  replace (length links + 10 - 1) with (length links + 9) by lia.
  repeat split; reflexivity.
Qed.

Lemma X11_witness :
  length (demo_links 1) < 3 /\
  samples (trace (snd (get_books demo_book_pick demo_book_early demo_get
                         demo_select_one demo_select_one demo_find_class
                         demo_find_all_class demo_urljoin 3 (URL_format 1)
                         initial))) = (length (demo_links 1) + 9) / 10.
Proof.
  split; [simpl; lia|].
  refine (proj2 (proj2 (proj2 (proj2
    (@X11_get_books_batches demo_book_pick demo_book_early demo_get
       demo_select_one demo_select_one demo_find_class demo_find_all_class
       demo_urljoin 3 (URL_format 1) (demo_links 1) demo_record
       eq_refl _ _))))).
  - intros link [<- | [<- | []]]; reflexivity.
  - simpl; lia.
Defined.

(** X12 — main, when every page goes well: get_books requests the
    listing pages 1..50 once each and in this order; the detail tasks
    are started page by page, each page's tasks once each and in the
    order of its links; and the delays sampled by the two schedulers are
    one per listing page plus one per batch of 10 detail tasks, that is
    the sum over the pages of 1 + ceiling(k/10) for a page with k
    links. *)
Theorem X12_main_requests_and_delays
    (pick early : list (coroutine book) -> nat)
    (http_get : string -> result string)
    (select_one find find_class : string -> string -> option tag)
    (find_all_class : string -> string -> list tag)
    (urljoin : string -> string -> result string) (fuel : nat)
    (links : nat -> list string) (record : string -> book) :
  (forall i, In i (seq 1 50) ->
     bind_result (http_get (URL_format i))
       (scrape_book_links find_all_class urljoin) = Done (links i)) ->
  (forall i link, In i (seq 1 50) -> In link (links i) ->
     bind_result (http_get link)
       (scrape_book_details select_one find find_class) =
     Done (record link)) ->
  (forall i, In i (seq 1 50) -> length (links i) < fuel) ->
  let run := main pick early http_get select_one find find_class
               find_all_class urljoin fuel initial in
  gets (trace (snd run)) = map URL_format (seq 1 50) /\
  start_ids (trace (snd run)) =
    flat_map (fun i => seq 0 (length (links i))) (seq 1 50) /\
  samples (trace (snd run)) =
    list_sum (map (fun i => 1 + (length (links i) + 9) / 10) (seq 1 50)).
Proof.
  intros Hl Hd Hf run. subst run.
  rewrite (@main_returns pick early http_get select_one find find_class
             find_all_class urljoin fuel links record Hl Hd Hf).
  cbn [snd trace].
  change (page_segment pick early)
    with (segment (utils_batch pick early SLEEP_TIME)).
  rewrite gets_app, start_ids_app, samples_app.
  set (tasks := fun i => detail_tasks pick early http_get select_one find
                           find_class (links i)).
  assert (Hn : 1 <= Z.to_nat BATCH_SIZE) by (cbn; lia).
  destruct (@pages_counts (utils_batch pick early SLEEP_TIME) SLEEP_TIME
              tasks (Z.to_nat BATCH_SIZE) (seq 1 50)
              (utils_counted pick early SLEEP_TIME)) as (H1 & H2).
  assert (H3 := @pages_starts (utils_batch pick early SLEEP_TIME) SLEEP_TIME
                  tasks (Z.to_nat BATCH_SIZE) (seq 1 50)
                  (utils_counted pick early SLEEP_TIME) Hn).
  unfold tasks in H1, H2, H3. rewrite H1, H2, H3.
  change (gets [EvToCsv (flat_map (fun i => map record (links i))
                           (seq 1 50))]) with (@nil string).
  change (start_ids [EvToCsv (flat_map (fun i => map record (links i))
                                (seq 1 50))]) with (@nil nat).
  change (samples [EvToCsv (flat_map (fun i => map record (links i))
                              (seq 1 50))]) with 0.
  rewrite !app_nil_r, Nat.add_0_r. repeat split.
  - apply flat_map_ext. intros i. apply detail_tasks_ids.
  - f_equal. apply map_ext. intros i.
    change (Z.to_nat BATCH_SIZE) with 10.
    rewrite chunks_length by lia. rewrite detail_tasks_length.
    replace (length (links i) + 10 - 1) with (length (links i) + 9) by lia.
    reflexivity.
Qed.

Lemma X12_witness :
  (forall i, In i (seq 1 50) -> length (demo_links i) < 3) /\
  samples (trace (snd (main demo_book_pick demo_book_early demo_get
                         demo_select_one demo_select_one demo_find_class
                         demo_find_all_class demo_urljoin 3 initial))) = 100.
Proof.
  split; [intros i _; simpl; lia|].
  refine (proj2 (proj2
    (@X12_main_requests_and_delays demo_book_pick demo_book_early demo_get
       demo_select_one demo_select_one demo_find_class demo_find_all_class
       demo_urljoin 3 demo_links demo_record (fun i _ => eq_refl) _ _))).
  - intros i link _ [<- | [<- | []]]; reflexivity.
  - intros i _. simpl; lia.
Defined.

(** X13 — the variant's driver (its own make_request, get_books, batched
    scheduler and main) against book-spider's, when every page goes
    well: both return, both end by writing the same table; get_books
    requests the same listing pages in the same order, the same detail
    tasks are started in the same order, and as many delays are sampled.
    (The traces themselves differ: utils.py starts a batch before its
    sleep, the variant after it.) *)
Theorem X13_variant_driver_agrees
    (pick early : list (coroutine book) -> nat)
    (http_get : string -> result string)
    (select_one find find_class : string -> string -> option tag)
    (find_all_class : string -> string -> list tag)
    (urljoin : string -> string -> result string) (fuel : nat)
    (links : nat -> list string) (record : string -> book) :
  (forall i, In i (seq 1 50) ->
     bind_result (http_get (URL_format i))
       (scrape_book_links find_all_class urljoin) = Done (links i)) ->
  (forall i link, In i (seq 1 50) -> In link (links i) ->
     bind_result (http_get link)
       (scrape_book_details select_one find find_class) =
     Done (record link)) ->
  (forall i, In i (seq 1 50) -> length (links i) < fuel) ->
  let u := main pick early http_get select_one find find_class
             find_all_class urljoin fuel initial in
  let v := VariantSpider.main pick early http_get select_one find find_class
             find_all_class urljoin fuel initial in
  let rows := flat_map (fun i => map record (links i)) (seq 1 50) in
  fst v = Returned tt /\ fst u = Returned tt /\
  (exists tv, trace (snd v) = tv ++ [EvToCsv rows]) /\
  (exists tu, trace (snd u) = tu ++ [EvToCsv rows]) /\
  gets (trace (snd v)) = gets (trace (snd u)) /\
  start_ids (trace (snd v)) = start_ids (trace (snd u)) /\
  samples (trace (snd v)) = samples (trace (snd u)).
Proof.
  intros Hl Hd Hf u v rows. subst u v rows.
  rewrite (@main_returns pick early http_get select_one find find_class
             find_all_class urljoin fuel links record Hl Hd Hf).
  rewrite (@variant_main_returns pick early http_get select_one find
             find_class find_all_class urljoin fuel links record Hl Hd Hf).
  cbn [fst snd trace].
  change (page_segment pick early)
    with (segment (utils_batch pick early SLEEP_TIME)).
  change Variant.SLEEP_TIME with SLEEP_TIME.
  change Variant.BATCH_SIZE with BATCH_SIZE.
  set (tasks := fun i => detail_tasks pick early http_get select_one find
                           find_class (links i)).
  assert (Hn : 1 <= Z.to_nat BATCH_SIZE) by (cbn; lia).
  destruct (@pages_counts (utils_batch pick early SLEEP_TIME) SLEEP_TIME
              tasks (Z.to_nat BATCH_SIZE) (seq 1 50)
              (utils_counted pick early SLEEP_TIME)) as (U1 & U2).
  assert (U3 := @pages_starts (utils_batch pick early SLEEP_TIME) SLEEP_TIME
                  tasks (Z.to_nat BATCH_SIZE) (seq 1 50)
                  (utils_counted pick early SLEEP_TIME) Hn).
  destruct (@pages_counts (variant_batch pick SLEEP_TIME) SLEEP_TIME
              tasks (Z.to_nat BATCH_SIZE) (seq 1 50)
              (variant_counted pick SLEEP_TIME)) as (V1 & V2).
  assert (V3 := @pages_starts (variant_batch pick SLEEP_TIME) SLEEP_TIME
                  tasks (Z.to_nat BATCH_SIZE) (seq 1 50)
                  (variant_counted pick SLEEP_TIME) Hn).
  unfold tasks in U1, U2, U3, V1, V2, V3.
  split; [reflexivity|]. split; [reflexivity|].
  split; [eexists; reflexivity|]. split; [eexists; reflexivity|].
  rewrite !gets_app, !start_ids_app, !samples_app.
  rewrite U1, U2, U3, V1, V2, V3. repeat split; reflexivity.
Qed.

Lemma X13_witness :
  (forall i, In i (seq 1 50) -> length (demo_links i) < 3) /\
  fst (VariantSpider.main demo_book_pick demo_book_early demo_get
         demo_select_one demo_select_one demo_find_class demo_find_all_class
         demo_urljoin 3 initial) = Returned tt.
Proof.
  split; [intros i _; simpl; lia|].
  refine (proj1
    (@X13_variant_driver_agrees demo_book_pick demo_book_early demo_get
       demo_select_one demo_select_one demo_find_class demo_find_all_class
       demo_urljoin 3 demo_links demo_record (fun i _ => eq_refl) _ _)).
  - intros i link _ [<- | [<- | []]]; reflexivity.
  - intros i _. simpl; lia.
Defined.

(** X14 — URL.format is injective on page numbers, so that the listing
    pages of any range of page numbers (main uses 1..50) have pairwise
    distinct addresses: no listing page is requested twice. *)
Theorem X14_listing_urls_distinct :
  (forall i j, URL_format i = URL_format j <-> i = j) /\
  (forall first count, NoDup (map URL_format (seq first count))).
Proof.
  split.
  - intros i j. split; [apply URL_format_inj | intros ->; reflexivity].
  - intros first count. apply NoDup_map_NoDup_ForallPairs.
    + intros i j _ _. apply URL_format_inj.
    + apply seq_NoDup.
Qed.

(** X15 — make_request with delay set and a window that is missing or at
    most 1: utils.py raises ValueError and leaves the loop as it was (no
    delay is sampled and no request is sent), whereas the variant, which
    does not validate, samples a delay, sleeps and sends the request,
    whatever the window. *)
Theorem X15_make_request_invalid_window
    (A : Type) (pick early : list (coroutine A) -> nat)
    (http_get : string -> result string) (url : string)
    (seconds : option Z) :
  match seconds with None => True | Some s => (s <= 1)%Z end ->
  (forall w, exists msg,
     Utils.make_request pick early http_get url true seconds w =
     (Raised (ValueError msg), w)) /\
  (forall s tr,
     Variant.make_request pick early http_get url true s
       (mkWorld tr [] [] None) =
     (outcome_of (http_get url),
      mkWorld (tr ++ [EvSample 1 s; EvSleepBegin; EvSleepEnd; EvGet url])
              [] [] None)).
Proof.
  intros Hs. split.
  - intros w. unfold Utils.make_request. destruct seconds as [s|].
    + destruct (s =? 0)%Z eqn:E; cbn [andb].
      * eexists. reflexivity.
      * unfold Utils.sleep_and_execute.
        replace (s <=? 1)%Z with true by (symmetry; apply Z.leb_le; exact Hs).
        eexists. reflexivity.
    + eexists. reflexivity.
  - intros s tr. unfold Variant.make_request, bind at 1 2, random_uniform, log.
    cbn [trace ready running gather_exn].
    rewrite asyncio_sleep_spec.
    rewrite order_nil, firstn_nil, skipn_nil.
    cbn [starts finishes map app first_failure].
    unfold Utils.client_get, bind, emit, log.
    cbn [trace ready running gather_exn].
    rewrite <- !app_assoc. cbn [app].
    destruct (http_get url); reflexivity.
Qed.

Lemma X15_witness :
  (1 <= 1)%Z /\
  exists msg,
    Utils.make_request demo_pick demo_early demo_get (URL_format 1) true
      (Some 1%Z) initial = (Raised (ValueError msg), initial).
Proof.
  assert (H : (1 <= 1)%Z) by lia.
  split; [exact H|].
  exact (proj1 (@X15_make_request_invalid_window nat demo_pick demo_early
                  demo_get (URL_format 1) (Some 1%Z) H) initial).
Defined.

(** When the listing page cannot be fetched, or its links cannot be
    extracted, get_books stops right after its request. *)
Lemma get_books_listing_fails
    (pick early : list (coroutine book) -> nat)
    (http_get : string -> result string)
    (select_one find find_class : string -> string -> option tag)
    (find_all_class : string -> string -> list tag)
    (urljoin : string -> string -> result string) (fuel : nat) (url : string)
    (e : exn) (tr : list (event book)) :
  bind_result (http_get url) (scrape_book_links find_all_class urljoin) =
  Failed e ->
  get_books pick early http_get select_one find find_class find_all_class
    urljoin fuel url (mkWorld tr [] [] None) =
  (Raised e, mkWorld (tr ++ [EvGet url]) [] [] None).
Proof.
  intros H. unfold get_books, Utils.make_request. cbn [andb].
  unfold Utils.client_get, bind at 1 2, emit, log.
  cbn [trace ready running gather_exn].
  destruct (http_get url) as [html|e']; cbn [bind_result] in H.
  - unfold ret, bind. rewrite H. reflexivity.
  - injection H as ->. reflexivity.
Qed.

Lemma variant_get_books_listing_fails
    (pick early : list (coroutine book) -> nat)
    (http_get : string -> result string)
    (select_one find find_class : string -> string -> option tag)
    (find_all_class : string -> string -> list tag)
    (urljoin : string -> string -> result string) (fuel : nat) (url : string)
    (e : exn) (tr : list (event book)) :
  bind_result (http_get url) (scrape_book_links find_all_class urljoin) =
  Failed e ->
  VariantSpider.get_books pick early http_get select_one find find_class
    find_all_class urljoin fuel url (mkWorld tr [] [] None) =
  (Raised e, mkWorld (tr ++ [EvGet url]) [] [] None).
Proof.
  intros H. unfold VariantSpider.get_books, Variant.make_request.
  unfold Utils.client_get, bind at 1 2 3, ret, emit, log.
  cbn [trace ready running gather_exn].
  destruct (http_get url) as [html|e']; cbn [bind_result] in H.
  - unfold ret, bind. rewrite H. reflexivity.
  - injection H as ->. reflexivity.
Qed.

(** X16 — when the fetch of a listing page raises, or scrape_book_links
    raises on it, get_books (of either source) raises that exception
    right after its one request: no delay is sampled and no detail task
    is pulled from the generator or started. *)
Theorem X16_get_books_listing_fails
    (pick early : list (coroutine book) -> nat)
    (http_get : string -> result string)
    (select_one find find_class : string -> string -> option tag)
    (find_all_class : string -> string -> list tag)
    (urljoin : string -> string -> result string) (fuel : nat) (url : string)
    (e : exn) (tr : list (event book)) :
  bind_result (http_get url) (scrape_book_links find_all_class urljoin) =
  Failed e ->
  get_books pick early http_get select_one find find_class find_all_class
    urljoin fuel url (mkWorld tr [] [] None) =
  (Raised e, mkWorld (tr ++ [EvGet url]) [] [] None) /\
  VariantSpider.get_books pick early http_get select_one find find_class
    find_all_class urljoin fuel url (mkWorld tr [] [] None) =
  (Raised e, mkWorld (tr ++ [EvGet url]) [] [] None).
Proof.
  intros H. split.
  - apply get_books_listing_fails, H.
  - apply variant_get_books_listing_fails, H.
Qed.

Lemma X16_witness :
  bind_result (demo_get_but_2 (URL_format 2))
    (scrape_book_links demo_find_all_class demo_urljoin) =
  Failed (TaskError 404) /\
  get_books demo_book_pick demo_book_early demo_get_but_2 demo_select_one
    demo_select_one demo_find_class demo_find_all_class demo_urljoin 3
    (URL_format 2) initial =
  (Raised (TaskError 404), mkWorld [EvGet (URL_format 2)] [] [] None).
Proof.
  split; [reflexivity|].
  exact (proj1 (@X16_get_books_listing_fails demo_book_pick demo_book_early
                  demo_get_but_2 demo_select_one demo_select_one
                  demo_find_class demo_find_all_class demo_urljoin 3
                  (URL_format 2) (TaskError 404) [] eq_refl)).
Defined.

(** X17 — main stops at the first listing page that cannot be fetched or
    whose links cannot be extracted: when the pages before page i go
    well and page i's listing fails with e, main raises e; the listing
    pages requested are exactly 1..i, in order; the detail tasks started
    are exactly those of the pages before i; and the run ends with the
    request of page i, so that nothing is written. *)
Theorem X17_main_stops_at_failing_listing
    (pick early : list (coroutine book) -> nat)
    (http_get : string -> result string)
    (select_one find find_class : string -> string -> option tag)
    (find_all_class : string -> string -> list tag)
    (urljoin : string -> string -> result string) (fuel : nat)
    (links : nat -> list string) (record : string -> book) (i : nat)
    (e : exn) :
  In i (seq 1 50) ->
  (forall j, In j (seq 1 (i - 1)) ->
     page_ok http_get select_one find find_class find_all_class urljoin
       fuel links record j) ->
  bind_result (http_get (URL_format i))
    (scrape_book_links find_all_class urljoin) = Failed e ->
  let run := main pick early http_get select_one find find_class
               find_all_class urljoin fuel initial in
  fst run = Raised e /\
  gets (trace (snd run)) = map URL_format (seq 1 i) /\
  start_ids (trace (snd run)) =
    flat_map (fun j => seq 0 (length (links j))) (seq 1 (i - 1)) /\
  exists tr, trace (snd run) = tr ++ [EvGet (URL_format i)].
Proof.
  intros Hi Hok Hfail run. subst run. apply in_seq in Hi.
  assert (Hseq : seq 1 50 = seq 1 (i - 1) ++ i :: seq (S i) (50 - i)).
  { replace 50 with ((i - 1) + S (50 - i)) at 1 by lia.
    rewrite seq_app. replace (1 + (i - 1)) with i by lia. reflexivity. }
  assert (Hseq' : seq 1 i = seq 1 (i - 1) ++ [i]).
  { replace i with ((i - 1) + 1) at 1 by lia.
    rewrite seq_app. replace (1 + (i - 1)) with i by lia. reflexivity. }
  set (tasks := fun j => detail_tasks pick early http_get select_one find
                           find_class (links j)).
  set (beh := utils_batch pick early SLEEP_TIME).
  pose proof (@for_each_task_stops book pick early nat (list book)
                (fun j => get_books pick early http_get select_one find
                            find_class find_all_class urljoin fuel
                            (URL_format j))
                (fun j => map record (links j))
                (fun j => EvGet (URL_format j)
                          :: flat_map (segment beh)
                               (chunks (Z.to_nat BATCH_SIZE) (tasks j)))
                SLEEP_TIME (seq 1 (i - 1)) (seq (S i) (50 - i)) i e) as H.
  specialize (H ltac:(unfold SLEEP_TIME; lia)).
  assert (H1 : forall j tr, In j (seq 1 (i - 1)) ->
    get_books pick early http_get select_one find find_class find_all_class
      urljoin fuel (URL_format j) (mkWorld tr [] [] None) =
    (Returned (map record (links j)),
     mkWorld (tr ++ EvGet (URL_format j)
                 :: flat_map (segment beh)
                      (chunks (Z.to_nat BATCH_SIZE) (tasks j)))
             [] [] None)).
  { intros j tr Hj. destruct (Hok j Hj) as (Ha & Hb & Hc).
    apply get_books_returns; assumption. }
  assert (H2 : forall tr,
    fst (get_books pick early http_get select_one find find_class
           find_all_class urljoin fuel (URL_format i)
           (mkWorld tr [] [] None)) = Raised e).
  { intros tr.
    rewrite (@get_books_listing_fails pick early http_get select_one find
               find_class find_all_class urljoin fuel (URL_format i) e tr
               Hfail).
    reflexivity. }
  specialize (H H1 H2 [] []). cbv beta in H.
  rewrite (@get_books_listing_fails pick early http_get select_one find
             find_class find_all_class urljoin fuel (URL_format i) e _
             Hfail) in H.
  cbn [snd app] in H.
  unfold main, Utils.execute_with_interval, initial.
  rewrite Hseq. unfold bind. rewrite H. cbn [fst snd trace].
  assert (Hn : 1 <= Z.to_nat BATCH_SIZE) by (cbn; lia).
  destruct (@pages_counts beh SLEEP_TIME tasks (Z.to_nat BATCH_SIZE)
              (seq 1 (i - 1)) (utils_counted pick early SLEEP_TIME))
    as (G1 & _).
  assert (G3 := @pages_starts beh SLEEP_TIME tasks (Z.to_nat BATCH_SIZE)
                  (seq 1 (i - 1)) (utils_counted pick early SLEEP_TIME) Hn).
  cbn [app] in G1, G3.
  split; [reflexivity|]. split; [|split].
  - rewrite !gets_app, G1, Hseq', map_app.
    unfold gets. cbn [flat_map app map]. rewrite app_nil_r. reflexivity.
  - rewrite !start_ids_app, G3. unfold start_ids. cbn [flat_map app].
    rewrite !app_nil_r.
    apply flat_map_ext. intros j. apply detail_tasks_ids.
  - eexists. reflexivity.
Qed.

Lemma X17_witness :
  In 2 (seq 1 50) /\
  fst (main demo_book_pick demo_book_early demo_get_but_2 demo_select_one
         demo_select_one demo_find_class demo_find_all_class demo_urljoin 3
         initial) = Raised (TaskError 404).
Proof.
  assert (H : In 2 (seq 1 50)) by (right; left; reflexivity).
  split; [exact H|].
  refine (proj1
    (@X17_main_stops_at_failing_listing demo_book_pick demo_book_early
       demo_get_but_2 demo_select_one demo_select_one demo_find_class
       demo_find_all_class demo_urljoin 3 demo_links demo_record 2
       (TaskError 404) H _ eq_refl)).
  intros j [<- | []]. split; [reflexivity|]. split; [|simpl; lia].
  intros link [<- | [<- | []]]; reflexivity.
Defined.
